(** * Authentication and identity cache of the PDS / app-view servers

    A shallow embedding of

    - [packages/pds/src/auth.ts]     (local token authority, admin check,
                                       service-token issuer),
    - the app-view [auth.ts]         ([authVerifier], [authOptionalVerifier],
                                       [verifyJwt]),
    - [packages/bsky/src/did-cache.ts] ([DidSqlCache]),

    followed by the properties proved about them.

    Conventions.  A JavaScript string is the list of its UTF-16 code units.
    [Date.now()] is an explicit argument (milliseconds, an integer).  A
    function that may throw returns an [outcome]; a promise that rejects
    is a throw.  The libraries the code calls ([uint8arrays],
    [@atproto/crypto], [@atproto/did-resolver], [jsonwebtoken]) are
    interfaces (type classes), and so is the conversion of a string, an
    array or an object to a Number; reference instances used to run the
    model on concrete requests come after the embedding. *)

From Stdlib Require Import List NArith ZArith QArith Bool Lia String Ascii.
Import ListNotations.

Close Scope Q_scope.
Set Warnings "-register-all".
Local Open Scope N_scope.

(** ** JavaScript strings *)

Module Js.

Definition jsstring := list N.
Definition bytes := list N.

(** A string literal of the source. *)
Definition js (s : string) : jsstring :=
  map N_of_ascii (list_ascii_of_string s).

Fixpoint eqb (a b : jsstring) : bool :=
  match a, b with
  | [], [] => true
  | x :: a', y :: b' => (x =? y) && eqb a' b'
  | _, _ => false
  end.

(** [s.startsWith(prefix)] *)
Fixpoint startsWith (s prefix : jsstring) {struct prefix} : bool :=
  match prefix, s with
  | [], _ => true
  | p :: prefix', c :: s' => (c =? p) && startsWith s' prefix'
  | _ :: _, [] => false
  end.

(** [s.slice(n)] for [0 <= n]. *)
Definition slice (s : jsstring) (n : nat) : jsstring := skipn n s.

(** [s.split(sep)] for a separator of one code unit; the result is never
    empty: [''.split(':')] is [['']]. *)
Fixpoint split (sep : N) (s : jsstring) : list jsstring :=
  match s with
  | [] => [[]]
  | c :: r =>
      if c =? sep then [] :: split sep r
      else match split sep r with
           | [] => [[c]]
           | h :: t => (c :: h) :: t
           end
  end.

(** [parts.join(sep)] *)
Fixpoint join (sep : N) (parts : list jsstring) : jsstring :=
  match parts with
  | [] => []
  | [p] => p
  | p :: rest => p ++ sep :: join sep rest
  end.

(** [s.replace(pat, repl)] with a string pattern: the first occurrence. *)
Fixpoint replace (s pat repl : jsstring) : jsstring :=
  if startsWith s pat then repl ++ skipn (List.length pat) s
  else match s with
       | [] => []
       | c :: r => c :: replace r pat repl
       end.

(** WhiteSpace and LineTerminator code units, as [trim] strips them. *)
Definition isWhiteSpace (c : N) : bool :=
  existsb (N.eqb c)
    [0x9; 0xA; 0xB; 0xC; 0xD; 0x20; 0xA0; 0x1680; 0x2028; 0x2029; 0x202F;
     0x205F; 0x3000; 0xFEFF]
  || ((0x2000 <=? c) && (c <=? 0x200A)).

Fixpoint trimStart (s : jsstring) : jsstring :=
  match s with
  | c :: r => if isWhiteSpace c then trimStart r else s
  | [] => []
  end.

Definition trimEnd (s : jsstring) : jsstring := rev (trimStart (rev s)).
Definition trim (s : jsstring) : jsstring := trimEnd (trimStart s).

(** Truthiness of a string: [!s] holds for the empty string. *)
Definition falsy (s : jsstring) : bool :=
  match s with [] => true | _ => false end.

(** [arr[i]] on an array of strings; [None] is [undefined]. *)
Definition at_ (parts : list jsstring) (i : nat) : option jsstring :=
  nth_error parts i.

Definition contains (c : N) (s : jsstring) : bool := existsb (N.eqb c) s.

(** *** Errors and outcomes *)

Inductive error : Type :=
| AuthRequiredError (message name : option string)
| InvalidRequestError (message name : option string)
| SyntaxError (thrownBy : string)
| TypeError (thrownBy : string)
| ResolverError (reason : jsstring).

Inductive outcome (A : Type) : Type :=
| Returns (a : A)
| Throws (e : error).

Arguments Returns {A} a.
Arguments Throws {A} e.

End Js.

(** ** JSON

    [JSON.parse] is embedded in full for texts over code units.  A number
    is kept as the exact rational its literal denotes; the Number the
    program holds is the double nearest to it, [Numbers.toDouble] below,
    which the embedding applies where the code computes with a parsed
    number of any size (the expiry test of [verifyJwt]).
    [JSON.stringify] is embedded on the values the code passes to it:
    flat records of strings and integers. *)

Module Json.
Import Js.

Inductive json : Type :=
| JNull
| JBool (b : bool)
| JNum (q : Q)
| JStr (s : jsstring)
| JArr (elements : list json)
| JObj (members : list (jsstring * json)).

(** The outcome of the recursive-descent parser on a prefix of the text. *)
Inductive parsed (A : Type) : Type :=
| Parsed (a : A) (rest : jsstring)
| SyntaxErr
| NoFuel.

Arguments Parsed {A} a rest.
Arguments SyntaxErr {A}.
Arguments NoFuel {A}.

Definition isJsonSpace (c : N) : bool :=
  (c =? 32) || (c =? 9) || (c =? 10) || (c =? 13).

Fixpoint skip_ws (s : jsstring) : jsstring :=
  match s with
  | c :: r => if isJsonSpace c then skip_ws r else s
  | [] => []
  end.

Definition isDigit (c : N) : bool := (48 <=? c) && (c <=? 57).

Definition hexval (c : N) : option N :=
  if isDigit c then Some (c - 48)
  else if (97 <=? c) && (c <=? 102) then Some (c - 87)
  else if (65 <=? c) && (c <=? 70) then Some (c - 55)
  else None.

Definition hexdigit (d : N) : N := if d <? 10 then 48 + d else 87 + d.

Definition hex4 (c : N) : jsstring :=
  [hexdigit (c / 4096 mod 16); hexdigit (c / 256 mod 16);
   hexdigit (c / 16 mod 16); hexdigit (c mod 16)].

(** The character a one-letter escape stands for. *)
Definition unescape (e : N) : option N :=
  if e =? 34 then Some 34          (* quotation mark *)
  else if e =? 92 then Some 92     (* reverse solidus *)
  else if e =? 47 then Some 47     (* solidus *)
  else if e =? 98 then Some 8      (* b: backspace *)
  else if e =? 102 then Some 12    (* f: form feed *)
  else if e =? 110 then Some 10    (* n: line feed *)
  else if e =? 114 then Some 13    (* r: carriage return *)
  else if e =? 116 then Some 9     (* t: tab *)
  else None.

Definition consTo (c : N) (o : option (jsstring * jsstring))
  : option (jsstring * jsstring) :=
  match o with
  | Some (t, rest) => Some (c :: t, rest)
  | None => None
  end.

(** The characters of a string literal after its opening quote, up to and
    including the closing quote. *)
Fixpoint string_body (s : jsstring) : option (jsstring * jsstring) :=
  match s with
  | [] => None
  | c :: r =>
      if c =? 34 then Some ([], r)
      else if c =? 92 then
        match r with
        | [] => None
        | e :: r1 =>
            if e =? 117 then
              match r1 with
              | h1 :: h2 :: h3 :: h4 :: r2 =>
                  match hexval h1, hexval h2, hexval h3, hexval h4 with
                  | Some a, Some b, Some c', Some d =>
                      consTo (4096 * a + 256 * b + 16 * c' + d)
                             (string_body r2)
                  | _, _, _, _ => None
                  end
              | _ => None
              end
            else match unescape e with
                 | Some u => consTo u (string_body r1)
                 | None => None
                 end
        end
      else if c <? 32 then None
      else consTo c (string_body r)
  end.

Fixpoint take_digits (s : jsstring) : list N * jsstring :=
  match s with
  | c :: r =>
      if isDigit c
      then let (ds, rest) := take_digits r in (c - 48 :: ds, rest)
      else ([], s)
  | [] => ([], [])
  end.

Definition digits_val (ds : list N) : N :=
  fold_left (fun acc d => 10 * acc + d) ds 0.

Definition isNil {A} (l : list A) : bool :=
  match l with [] => true | _ => false end.

(** The value [m * 10^e] of a literal with digits [m] and exponent [e]. *)
Definition decimal (m e : Z) : Q :=
  if (0 <=? e)%Z then Qmake (m * 10 ^ e) 1
  else Qred (Qmake m (Z.to_pos (10 ^ (- e)))).

(** The optional minus sign of a number. *)
Definition number_sign (s : jsstring) : bool * jsstring :=
  match s with
  | c :: r => if c =? 45 then (true, r) else (false, s)
  | [] => (false, s)
  end.

(** frac: a point and at least one digit, or nothing. *)
Definition number_frac (s : jsstring) : option (list N * jsstring) :=
  match s with
  | c :: r =>
      if c =? 46
      then let (fd, s3) := take_digits r in
           if isNil fd then None else Some (fd, s3)
      else Some ([], s)
  | [] => Some ([], s)
  end.

(** exp: e or E, an optional sign and at least one digit, or nothing. *)
Definition number_exp (s : jsstring) : option (Z * jsstring) :=
  match s with
  | c :: r =>
      if (c =? 101) || (c =? 69) then
        let (eneg, r') :=
          match r with
          | sg :: r0 =>
              if sg =? 45 then (true, r0)
              else if sg =? 43 then (false, r0)
              else (false, r)
          | [] => (false, r)
          end in
        let (ed, s4) := take_digits r' in
        if isNil ed then None
        else let e := Z.of_N (digits_val ed) in
             Some ((if eneg then - e else e)%Z, s4)
      else Some (0%Z, s)
  | [] => Some (0%Z, s)
  end.

(** number = [-] int [frac] [exp], where int has no leading zero. *)
Definition parse_number (s : jsstring) : option (Q * jsstring) :=
  let (neg, s1) := number_sign s in
  let (ip, s2) := take_digits s1 in
  match ip with
  | [] => None
  | d :: tl =>
      if (d =? 0) && negb (isNil tl) then None
      else
        match number_frac s2 with
        | None => None
        | Some (fd, s3) =>
            match number_exp s3 with
            | None => None
            | Some (e, s4) =>
                let m := Z.of_N (digits_val (ip ++ fd)) in
                Some (decimal (if neg then - m else m)%Z
                              (e - Z.of_nat (List.length fd))%Z, s4)
            end
        end
  end.

Definition lift {A B} (f : A -> B) (r : parsed A) : parsed B :=
  match r with
  | Parsed a rest => Parsed (f a) rest
  | SyntaxErr => SyntaxErr
  | NoFuel => NoFuel
  end.

(** value, then the elements of an array after its [[], then the members
    of an object after its [{].  [fuel] bounds the depth of the calls. *)
Fixpoint parse_value (fuel : nat) (s : jsstring) {struct fuel} : parsed json :=
  match fuel with
  | O => NoFuel
  | S f =>
      match skip_ws s with
      | [] => SyntaxErr
      | c :: r =>
          if c =? 123 then
            match skip_ws r with
            | c1 :: r1 =>
                if c1 =? 125 then Parsed (JObj []) r1
                else lift JObj (parse_members f (c1 :: r1))
            | [] => SyntaxErr
            end
          else if c =? 91 then
            match skip_ws r with
            | c1 :: r1 =>
                if c1 =? 93 then Parsed (JArr []) r1
                else lift JArr (parse_elements f (c1 :: r1))
            | [] => SyntaxErr
            end
          else if c =? 34 then
            match string_body r with
            | Some (str, rest) => Parsed (JStr str) rest
            | None => SyntaxErr
            end
          else if startsWith (c :: r) (js "true")
               then Parsed (JBool true) (skipn 4 (c :: r))
          else if startsWith (c :: r) (js "false")
               then Parsed (JBool false) (skipn 5 (c :: r))
          else if startsWith (c :: r) (js "null")
               then Parsed JNull (skipn 4 (c :: r))
          else match parse_number (c :: r) with
               | Some (q, rest) => Parsed (JNum q) rest
               | None => SyntaxErr
               end
      end
  end

with parse_elements (fuel : nat) (s : jsstring) {struct fuel}
  : parsed (list json) :=
  match fuel with
  | O => NoFuel
  | S f =>
      match parse_value f s with
      | Parsed v r =>
          match skip_ws r with
          | c :: r1 =>
              if c =? 44 then lift (cons v) (parse_elements f r1)
              else if c =? 93 then Parsed [v] r1
              else SyntaxErr
          | [] => SyntaxErr
          end
      | SyntaxErr => SyntaxErr
      | NoFuel => NoFuel
      end
  end

with parse_members (fuel : nat) (s : jsstring) {struct fuel}
  : parsed (list (jsstring * json)) :=
  match fuel with
  | O => NoFuel
  | S f =>
      match skip_ws s with
      | c :: r =>
          if c =? 34 then
            match string_body r with
            | Some (k, r1) =>
                match skip_ws r1 with
                | c2 :: r2 =>
                    if c2 =? 58 then
                      match parse_value f r2 with
                      | Parsed v r3 =>
                          match skip_ws r3 with
                          | c4 :: r4 =>
                              if c4 =? 44
                              then lift (cons (k, v)) (parse_members f r4)
                              else if c4 =? 125 then Parsed [(k, v)] r4
                              else SyntaxErr
                          | [] => SyntaxErr
                          end
                      | SyntaxErr => SyntaxErr
                      | NoFuel => NoFuel
                      end
                    else SyntaxErr
                | [] => SyntaxErr
                end
            | None => SyntaxErr
            end
          else SyntaxErr
      | [] => SyntaxErr
      end
  end.

(** [JSON.parse(text)]: one value, then only white space. *)
Definition JSON_parse (text : jsstring) : parsed json :=
  match parse_value (2 * List.length text + 2) text with
  | Parsed v rest => if isNil (skip_ws rest) then Parsed v [] else SyntaxErr
  | SyntaxErr => SyntaxErr
  | NoFuel => NoFuel
  end.

(** [obj.key] on a parsed object: of two members with one key the later
    one is the property's value. *)
Fixpoint get (key : jsstring) (members : list (jsstring * json))
  : option json :=
  match members with
  | [] => None
  | (k, v) :: rest =>
      match get key rest with
      | Some v' => Some v'
      | None => if eqb k key then Some v else None
      end
  end.

(** *** JSON.stringify *)

Inductive field : Type :=
| FStr (s : jsstring)
| FInt (z : Z).

Definition toJson (f : field) : json :=
  match f with
  | FStr s => JStr s
  | FInt z => JNum (Qmake z 1)
  end.

Definition isHighSurrogate (c : N) : bool := (0xD800 <=? c) && (c <=? 0xDBFF).
Definition isLowSurrogate (c : N) : bool := (0xDC00 <=? c) && (c <=? 0xDFFF).

Definition uescape (c : N) : jsstring := 92 :: 117 :: hex4 c.

(** QuoteJSONString without the enclosing quotes: the short escapes,
    [\u00xx] for the other control characters, [\udxxx] for a surrogate
    that is not part of a pair. *)
Fixpoint quote_body (s : jsstring) : jsstring :=
  match s with
  | [] => []
  | c :: r =>
      if c =? 34 then 92 :: 34 :: quote_body r
      else if c =? 92 then 92 :: 92 :: quote_body r
      else if c =? 8 then 92 :: 98 :: quote_body r
      else if c =? 12 then 92 :: 102 :: quote_body r
      else if c =? 10 then 92 :: 110 :: quote_body r
      else if c =? 13 then 92 :: 114 :: quote_body r
      else if c =? 9 then 92 :: 116 :: quote_body r
      else if c <? 32 then uescape c ++ quote_body r
      else if isHighSurrogate c then
        match r with
        | d :: r' =>
            if isLowSurrogate d then c :: d :: quote_body r'
            else uescape c ++ quote_body r
        | [] => uescape c
        end
      else if isLowSurrogate c then uescape c ++ quote_body r
      else c :: quote_body r
  end.

Definition quote (s : jsstring) : jsstring := 34 :: quote_body s ++ [34].

(** The decimal digits of a natural number, most significant first. *)
Fixpoint digits_aux (fuel : nat) (n : N) (acc : jsstring) : jsstring :=
  match fuel with
  | O => acc
  | S f =>
      let acc' := (48 + n mod 10) :: acc in
      if n / 10 =? 0 then acc' else digits_aux f (n / 10) acc'
  end.

Definition digits (n : N) : jsstring := digits_aux (S (N.to_nat (N.log2 n))) n [].

(** Number::toString on an integer below [10^21] in absolute value. *)
Definition Number_toString (z : Z) : jsstring :=
  if (z <? 0)%Z then 45 :: digits (Z.to_N (- z)) else digits (Z.to_N z).

Definition stringify_field (f : field) : jsstring :=
  match f with
  | FStr s => quote s
  | FInt z => Number_toString z
  end.

Definition stringify_member (m : jsstring * field) : jsstring :=
  quote (fst m) ++ 58 :: stringify_field (snd m).

(** [JSON.stringify(obj)] on an object whose properties, in insertion
    order, are [members]. *)
Definition JSON_stringify (members : list (jsstring * field)) : jsstring :=
  123 :: join 44 (map stringify_member members) ++ [125].

(** The parsed form of a record. *)
Definition memberOf (m : jsstring * field) : jsstring * json :=
  (fst m, toJson (snd m)).

Definition objectOf (members : list (jsstring * field)) : json :=
  JObj (map memberOf members).

(** Whether the code unit occurs in a key or in a string value. *)
Definition memberHas (c : N) (m : jsstring * field) : bool :=
  contains c (fst m)
  || match snd m with
     | FStr s => contains c s
     | FInt _ => false
     end.

Definition digitValues (ds : jsstring) : list N := map (fun c => c - 48) ds.

(** The text after a number does not continue it. *)
Definition endsNumber (rest : jsstring) : Prop :=
  match rest with
  | [] => True
  | c :: _ => isDigit c = false /\ c <> 46 /\ c <> 101 /\ c <> 69
  end.

End Json.

(** ** Numbers

    A Number is a double.  The finite ones are rationals; [toDouble] is
    the rounding of IEEE 754 binary64 (to nearest, ties to even), which
    a literal and a division go through. *)

Module Numbers.
Import Js Json.
Local Open Scope Z_scope.

Inductive number : Type :=
| NaN
| Infinity (negative : bool)
| Finite (q : Q).

(** Doubles are multiples of [2^-1074]: a finite double is written over
    this denominator. *)
Definition grid : Z := 2 ^ 1074.

(** [a / b] rounded to the nearest integer, ties to even, for [0 <= a]
    and [0 < b]. *)
Definition roundHalfEven (a b : Z) : Z :=
  let q := a / b in
  let r := a mod b in
  if 2 * r <? b then q
  else if b <? 2 * r then q + 1
  else if Z.even q then q else q + 1.

(** The magnitude [a / d], for [0 <= a] and [0 < d], rounded to a
    double, in units of [2^-1074]: 53 bits from the leading one, fewer
    below [2^-1022]; [None] is an overflow. *)
Definition magnitude (a d : Z) : option Z :=
  let scaled := a * grid in
  let e := Z.max (Z.log2 (scaled / d) - 52) 0 in
  let m := roundHalfEven scaled (d * 2 ^ e) in
  if 2 ^ 2098 <=? m * 2 ^ e then None else Some (m * 2 ^ e).

(** The Number nearest to a rational. *)
Definition toDouble (q : Q) : number :=
  match magnitude (Z.abs (Qnum q)) (Zpos (Qden q)) with
  | None => Infinity (Qnum q <? 0)
  | Some m => Finite (Qmake (Z.sgn (Qnum q) * m) (Z.to_pos grid))
  end.

(** [a > b] on Numbers: false when either is NaN. *)
Definition number_gt (a b : number) : bool :=
  match a, b with
  | NaN, _ | _, NaN => false
  | Infinity false, Infinity false => false
  | Infinity false, _ => true
  | Infinity true, _ => false
  | Finite _, Infinity negative => negative
  | Finite x, Finite y => negb (Qle_bool x y)
  end.

(** A reading of the clock that a Date can hold: at most 8.64e15
    milliseconds from the epoch. *)
Definition timeValue (t : Z) : Prop :=
  -8640000000000000 <= t <= 8640000000000000.

(** ECMAScript's ToNumber where the embedding does not compute it: on a
    string (StringToNumber), and on an array or an object (ToPrimitive
    with the hint number, then ToNumber of the primitive).  ToPrimitive
    throws a TypeError, [None], on an object whose [toString] is not
    callable, as that of a parsed object with a member of that name. *)
Class Conversions : Type := {
  StringToNumber : jsstring -> number;
  ToNumber_object : json -> option number
}.

(** [ToNumber(v)] for a parsed value or [undefined] ([None]); the outer
    [None] is the TypeError of ToPrimitive. *)
Definition ToNumber `{Conversions} (v : option json) : option number :=
  match v with
  | None => Some NaN
  | Some JNull => Some (Finite (Qmake 0 1))
  | Some (JBool b) => Some (Finite (Qmake (if b then 1 else 0) 1))
  | Some (JNum q) => Some (toDouble q)
  | Some (JStr s) => Some (StringToNumber s)
  | Some (JArr elements) => ToNumber_object (JArr elements)
  | Some (JObj members) => ToNumber_object (JObj members)
  end.

End Numbers.

(** ** The libraries the code calls *)

Module Lib.
Import Js Json.

(** [uint8arrays]: [fromString(s, enc)] and [toString(bytes, enc)].  The
    multibase decoders throw on a character outside their alphabet
    ([None]); the UTF-8 pair never throws. *)
Class Uint8Arrays : Type := {
  fromString_utf8 : jsstring -> bytes;
  toString_utf8 : bytes -> jsstring;
  fromString_base64url : jsstring -> option bytes;
  toString_base64url : bytes -> jsstring;
  fromString_base64pad : jsstring -> option bytes
}.

(** The UTF-8 pair gives a string back unchanged, as it does every
    string without a lone surrogate. *)
Definition lossless `{Uint8Arrays} (s : jsstring) : Prop :=
  toString_utf8 (fromString_utf8 s) = s.

(** [@atproto/did-resolver]: [resolveAtpData(did)] resolves to the
    identity's data or rejects with the resolver's own error.  Its
    argument is declared a string; handed anything else (a value that is
    not a string, or [undefined]) it has no identity to resolve and
    rejects, with the error [resolveAtpData_other]. *)
Record AtpData : Type := {
  atp_did : jsstring;
  signingKey : jsstring;
  handle : jsstring;
  pds : jsstring
}.

Class DidResolver : Type := {
  resolveAtpData : jsstring -> AtpData + jsstring;
  resolveAtpData_other : option json -> jsstring
}.

(** [@atproto/crypto]: [verifySignature(didKey, data, sig)] resolves to a
    boolean or rejects, for instance on a key it cannot parse ([None]). *)
Class Crypto : Type := {
  verifySignature : jsstring -> bytes -> bytes -> option bool
}.

Record Keypair : Type := {
  jwtAlg : jsstring;
  sign : bytes -> bytes
}.

(** [jsonwebtoken].  The compact serialisation and its HMAC are the
    interface: [jws_sign payload secret] is the signed token,
    [jws_verify token secret] the decoded payload of a token whose
    signature matches ([None] otherwise: JsonWebTokenError). *)
Class JsonWebToken : Type := {
  jws_sign : list (jsstring * field) -> jsstring -> jsstring;
  jws_verify : jsstring -> jsstring -> option json
}.

Inductive jwtError : Type :=
| TokenExpiredError
| NotBeforeError
| JsonWebTokenError.

(** [Math.floor(Date.now() / 1000)] *)
Definition clockTimestamp (now : Z) : Z := (now / 1000)%Z.

(** [jwt.sign(payload, secret, { expiresIn, mutatePayload: true })] with
    [expiresIn] in seconds: the payload gains [iat] and [exp], and is
    returned next to the token because the caller's object is mutated. *)
Definition jwt_sign `{JsonWebToken} (payload : list (jsstring * field))
    (secret : jsstring) (expiresIn : Z) (now : Z)
  : list (jsstring * field) * jsstring :=
  let iat := clockTimestamp now in
  let stamped := payload ++ [(js "iat", FInt iat);
                             (js "exp", FInt (iat + expiresIn))] in
  (stamped, jws_sign stamped secret).

Definition property (v : json) (key : jsstring) : option json :=
  match v with
  | JObj members => get key members
  | _ => None
  end.

(** A claim that must be a number when present; [check] is applied to it. *)
Definition numericClaim (v : option json) (check : Q -> option jwtError)
  : option jwtError :=
  match v with
  | None => None
  | Some (JNum q) => check q
  | Some _ => Some JsonWebTokenError
  end.

(** [jwt.verify(token, secret)] without options: the signature, then
    [nbf], then [exp] ([clockTimestamp >= exp] is expired). *)
Definition jwt_verify `{JsonWebToken} (token secret : jsstring) (now : Z)
  : json + jwtError :=
  match jws_verify token secret with
  | None => inr JsonWebTokenError
  | Some payload =>
      let clock := Qmake (clockTimestamp now) 1 in
      match numericClaim (property payload (js "nbf"))
              (fun nbf => if Qle_bool nbf clock then None
                          else Some NotBeforeError) with
      | Some e => inr e
      | None =>
          match numericClaim (property payload (js "exp"))
                  (fun exp => if Qle_bool exp clock
                              then Some TokenExpiredError else None) with
          | Some e => inr e
          | None => inl payload
          end
      end
  end.

(** [@atproto/common] *)
Definition SECOND : Z := 1000.
Definition MINUTE : Z := SECOND * 60.

End Lib.

(** ** The request *)

Module Http.
Import Js.

(** [req.headers.authorization]; [None] when the header is absent. *)
Record Request : Type := {
  authorization : option jsstring
}.

End Http.

(** ** [packages/bsky/src/did-cache.ts] *)

Module DidSqlCache.
Import Js.

Section Cache.

(** [DidDocument] of [@atproto/did-resolver]. *)
Context {DidDocument : Type}.

(** A row of the table [did_cache]. *)
Record Row : Type := {
  row_did : jsstring;
  row_doc : DidDocument;
  row_updatedAt : Z
}.

(** The table, in storage order.  Nothing in the type makes [did] a key:
    that the rows the code writes keep it one is proved below. *)
Definition Table : Type := list Row.

Record CacheResult : Type := {
  doc : DidDocument;
  updatedAt : option Z;      (* a number; [None] is NaN *)
  did : jsstring;
  expired : bool
}.

Definition hasDid (d : jsstring) (r : Row) : bool := eqb (row_did r) d.

(** The [DO UPDATE SET] of the upsert, on one row. *)
Definition overwrite (tUpdate : Z) (d : jsstring) (document : DidDocument)
    (r : Row) : Row :=
  if hasDid d r
  then {| row_did := row_did r; row_doc := document;
          row_updatedAt := tUpdate |}
  else r.

(** [INSERT ... VALUES (did, doc, tInsert)
     ON CONFLICT (did) DO UPDATE SET doc = doc, updatedAt = tUpdate].
    [tInsert] and [tUpdate] are the two readings of [Date.now()] taken
    while the query is built. *)
Definition cacheDid (tInsert tUpdate : Z) (d : jsstring) (document : DidDocument)
    (table : Table) : Table :=
  if existsb (hasDid d) table
  then map (overwrite tUpdate d document) table
  else table ++ [{| row_did := d; row_doc := document;
                    row_updatedAt := tInsert |}].

(** The timestamp a put leaves on the identity's row: the insert reading
    on a fresh identity, the update reading on a conflict. *)
Definition storedAt (tInsert tUpdate : Z) (d : jsstring) (table : Table) : Z :=
  if existsb (hasDid d) table then tUpdate else tInsert.

Definition keys (table : Table) : list jsstring := map row_did table.

(** [new Date(t).getTime()]: the time value, NaN outside the range of
    Date. *)
Definition Date_getTime (t : Z) : option Z :=
  if (Z.abs t <=? 8640000000000000)%Z then Some t else None.

(** [now > updatedAt + ttl] on numbers: false when a side is NaN. *)
Definition gt_sum (now : Z) (updatedAt : option Z) (ttl : Z) : bool :=
  match updatedAt with
  | Some u => (u + ttl <? now)%Z
  | None => false
  end.

(** [checkCache(did)] read at time [now] with the configured [ttl]. *)
Definition checkCache (now ttl : Z) (d : jsstring) (table : Table)
  : option CacheResult :=
  match find (hasDid d) table with
  | None => None
  | Some res =>
      let updatedAt := Date_getTime (row_updatedAt res) in
      let expired := gt_sum now updatedAt ttl in
      Some {| doc := row_doc res; updatedAt := updatedAt; did := d;
              expired := expired |}
  end.

Definition clear (table : Table) : Table := [].

(** The writes of the class, and the table they leave behind, starting
    from the empty table. *)
Inductive Op : Type :=
| OpCacheDid (tInsert tUpdate : Z) (d : jsstring) (document : DidDocument)
| OpClear.

Definition step (table : Table) (o : Op) : Table :=
  match o with
  | OpCacheDid tInsert tUpdate d document =>
      cacheDid tInsert tUpdate d document table
  | OpClear => clear table
  end.

Definition run (ops : list Op) : Table := fold_left step ops [].

Definition writes (d : jsstring) (o : Op) : bool :=
  match o with
  | OpCacheDid _ _ d' _ => eqb d' d
  | OpClear => false
  end.

(** The rows stored for one identity. *)
Definition rowsOf (d : jsstring) (table : Table) : list Row :=
  filter (hasDid d) table.

End Cache.

Arguments Row : clear implicits.
Arguments Table : clear implicits.
Arguments CacheResult : clear implicits.
Arguments Op : clear implicits.

End DidSqlCache.

(** ** The app-view [auth.ts]: federated tokens *)

Module BskyAuth.
Import Js Json Numbers Lib Http.

Record Credentials : Type := {
  cred_did : option jsstring
}.

Definition BadJwt : error :=
  AuthRequiredError (Some "poorly formatted jwt"%string) (Some "BadJwt"%string).
Definition MissingJwt : error :=
  AuthRequiredError (Some "missing jwt"%string) (Some "MissingJwt"%string).
Definition JwtExpired : error :=
  AuthRequiredError (Some "jwt expired"%string) (Some "JwtExpired"%string).
Definition BadJwtSignature : error :=
  AuthRequiredError (Some "could not verify jwt signature"%string)
                    (Some "BadJwtSignature"%string).
Definition BadJwtSig : error :=
  AuthRequiredError (Some "jwt signature does not match jwt issuer"%string)
                    (Some "BadJwtSig"%string).

(** The cast [as JwtPayload] is unchecked: the payload is whatever
    [JSON.parse] returned.  [payload.exp] and [payload.iss] throw a
    TypeError ([None]) on [null]; on an object they are the member, and
    [undefined] ([Some None]) without it; on a number, a string, a
    boolean or an array, which have no property of these names, they are
    [undefined]. *)
Definition member (payload : json) (key : jsstring) : option (option json) :=
  match payload with
  | JNull => None
  | _ => Some (property payload key)
  end.

(** [Date.now() / 1000]: a division of Numbers. *)
Definition nowSeconds (now : Z) : number := toDouble (Qmake now 1000).

Section Verifier.
Context `{Uint8Arrays} `{DidResolver} `{Crypto} `{Conversions}.

Definition parseB64UrlToJson (b64 : jsstring) : parsed json :=
  JSON_parse (toString_utf8 (fromString_utf8 b64)).

Definition getJwtStrFromReq (req : Request) : option jsstring :=
  let authorization :=
    match authorization req with Some a => a | None => [] end in
  if negb (startsWith authorization (js "Bearer ")) then None
  else Some (trim (replace authorization (js "Bearer ") [])).

(** [Date.now() / 1000 > exp]: the operand is converted to a Number,
    which may throw ([None]), and a NaN compares false. *)
Definition expired (now : Z) (exp : option json) : option bool :=
  match ToNumber exp with
  | None => None
  | Some n => Some (number_gt (nowSeconds now) n)
  end.

(** [verifyJwt(didResolver, jwtStr)] at time [now].  The outer [None] is
    the parser out of fuel, which does not happen ([JSON_parse_total] and
    [verifyJwt_total] below). *)
Definition verifyJwt (now : Z) (jwtStr : jsstring) : option (outcome jsstring) :=
  match split 46 jwtStr with
  | [part0; part1; sig] =>
      match parseB64UrlToJson part1 with
      | NoFuel => None
      | SyntaxErr => Some (Throws (SyntaxError "JSON.parse"))
      | Parsed payload _ =>
          match member payload (js "exp") with
          | None => Some (Throws (TypeError "payload.exp"))
          | Some exp =>
              match expired now exp with
              | None => Some (Throws (TypeError "ToPrimitive"))
              | Some true => Some (Throws JwtExpired)
              | Some false =>
                  let msgBytes := fromString_utf8 (join 46 [part0; part1]) in
                  match fromString_base64url sig with
                  | None => Some (Throws (SyntaxError "ui8.fromString"))
                  | Some sigBytes =>
                      match property payload (js "iss") with
                      | Some (JStr iss) =>
                          match resolveAtpData iss with
                          | inr reason => Some (Throws (ResolverError reason))
                          | inl atpData =>
                              match verifySignature (signingKey atpData)
                                                    msgBytes sigBytes with
                              | None => Some (Throws BadJwtSignature)
                              | Some false => Some (Throws BadJwtSig)
                              | Some true => Some (Returns iss)
                              end
                          end
                      | other =>
                          Some (Throws (ResolverError
                                          (resolveAtpData_other other)))
                      end
                  end
              end
          end
      end
  | _ => Some (Throws BadJwt)
  end.

Definition authVerifier (now : Z) (req : Request)
  : option (outcome Credentials) :=
  match getJwtStrFromReq req with
  | None => Some (Throws MissingJwt)
  | Some jwtStr =>
      if falsy jwtStr then Some (Throws MissingJwt)
      else
        match verifyJwt now jwtStr with
        | Some (Returns d) => Some (Returns {| cred_did := Some d |})
        | Some (Throws e) => Some (Throws e)
        | None => None
        end
  end.

Definition authOptionalVerifier (now : Z) (req : Request)
  : option (outcome Credentials) :=
  match authorization req with
  | None => Some (Returns {| cred_did := None |})
  | Some a =>
      if falsy a then Some (Returns {| cred_did := None |})
      else authVerifier now req
  end.

End Verifier.

(** The failure kinds this verifier raises itself. *)
Definition typedFailure (e : error) : Prop :=
  e = MissingJwt \/ e = BadJwt \/ e = JwtExpired \/
  e = BadJwtSignature \/ e = BadJwtSig.

(** The errors of the libraries that leave the verifier as they are. *)
Definition propagated (e : error) : Prop :=
  e = SyntaxError "JSON.parse"
  \/ e = SyntaxError "ui8.fromString"
  \/ exists reason, e = ResolverError reason.

(** The TypeErrors of the expiry test: of [payload.exp] on a payload
    that is [null], and of the conversion of [exp] to a Number. *)
Definition runtimeFailure (e : error) : Prop :=
  e = TypeError "payload.exp" \/ e = TypeError "ToPrimitive".

End BskyAuth.

(** ** [packages/pds/src/auth.ts] *)

Module PdsAuth.
Import Js Json Lib Http.

Definition BEARER : jsstring := js "Bearer ".
Definition BASIC : jsstring := js "Basic ".

Record ServerAuthOpts : Type := {
  jwtSecret : jsstring;
  adminPass : jsstring
}.

Inductive AuthScope : Type :=
| Access
| Refresh
| AppPass.

(** The string value of each member of the enum. *)
Definition scopeValue (s : AuthScope) : jsstring :=
  match s with
  | Access => js "com.atproto.access"
  | Refresh => js "com.atproto.refresh"
  | AppPass => js "com.atproto.appPass"
  end.

Definition InvalidToken (message : string) : error :=
  InvalidRequestError (Some message) (Some "InvalidToken"%string).
Definition ExpiredToken : error :=
  InvalidRequestError (Some "Token has expired"%string)
                      (Some "ExpiredToken"%string).

(** What can reach the [catch] of [verifyToken]. *)
Inductive caught : Type :=
| CaughtJwt (e : jwtError)
| CaughtXrpc (e : error)
| CaughtTypeError.

(** [scopes.includes(payload.scope)] *)
Definition includes (scopes : list AuthScope) (v : option json) : bool :=
  match v with
  | Some (JStr s) => existsb (fun sc => eqb (scopeValue sc) s) scopes
  | _ => false
  end.

(** ['signature' in payload]: a TypeError ([None]) on a primitive. *)
Definition hasSignature (payload : json) : option bool :=
  match payload with
  | JObj members =>
      Some (match get (js "signature") members with
            | Some _ => true
            | None => false
            end)
  | JArr _ => Some false
  | _ => None
  end.

Record AccessCredentials : Type := {
  cred_did : jsstring;
  cred_scope : option json
}.

Section ServerAuth.
Context `{Uint8Arrays} `{JsonWebToken}.
Variable opts : ServerAuthOpts.

Definition _secret : jsstring := jwtSecret opts.
Definition _adminPass : jsstring := adminPass opts.

(** [createAccessToken({ did, scope, expiresIn })]; the defaults are
    [scope = Access] and [expiresIn = 7200] seconds ('120mins'). *)
Definition createAccessToken (did : jsstring) (scope : AuthScope)
    (expiresIn : Z) (now : Z) : list (jsstring * field) * jsstring :=
  let payload := [(js "scope", FStr (scopeValue scope));
                  (js "sub", FStr did)] in
  jwt_sign payload _secret expiresIn now.

(** [createRefreshToken({ did, jti, expiresIn })]; the defaults are a
    fresh [jti] and [expiresIn = 7776000] seconds ('90days'). *)
Definition createRefreshToken (did jti : jsstring) (expiresIn : Z) (now : Z)
  : list (jsstring * field) * jsstring :=
  let payload := [(js "scope", FStr (scopeValue Refresh));
                  (js "sub", FStr did);
                  (js "jti", FStr jti)] in
  jwt_sign payload _secret expiresIn now.

(** A token issued by this server for [did] with [scope], together with
    the payload signed and the second at which it expires. *)
Definition issuedWith (did : jsstring) (scope : AuthScope) (expiry : Z)
    (issued : list (jsstring * field) * jsstring) : Prop :=
  (exists expiresIn now,
      issued = createAccessToken did scope expiresIn now
      /\ expiry = (clockTimestamp now + expiresIn)%Z)
  \/ (scope = Refresh
      /\ exists jti expiresIn now,
          issued = createRefreshToken did jti expiresIn now
          /\ expiry = (clockTimestamp now + expiresIn)%Z).

Definition getToken (req : Request) : option jsstring :=
  let header := match authorization req with Some a => a | None => [] end in
  if negb (startsWith header BEARER) then None
  else Some (slice header (List.length BEARER)).

(** The [try] block of [verifyToken]. *)
Definition verifyToken_try (now : Z) (token : jsstring)
    (scopes : list AuthScope) : json + caught :=
  match jwt_verify token _secret now with
  | inr e => inr (CaughtJwt e)
  | inl payload =>
      match payload with
      | JStr _ => inr (CaughtXrpc (InvalidToken "Malformed token"))
      | _ =>
          match hasSignature payload with
          | None => inr CaughtTypeError
          | Some true => inr (CaughtXrpc (InvalidToken "Malformed token"))
          | Some false =>
              if negb (isNil scopes)
                 && negb (includes scopes (property payload (js "scope")))
              then inr (CaughtXrpc (InvalidToken "Bad token scope"))
              else inl payload
          end
      end
  end.

(** [verifyToken(token, scopes)]: whatever the block throws is rethrown
    by the [catch] as one of two errors. *)
Definition verifyToken (now : Z) (token : jsstring) (scopes : list AuthScope)
  : outcome json :=
  match verifyToken_try now token scopes with
  | inl payload => Returns payload
  | inr (CaughtJwt TokenExpiredError) => Throws ExpiredToken
  | inr _ => Throws (InvalidToken "Token could not be verified")
  end.

(** [getCredentials(req, scopes)]; [Returns None] is [null]. *)
Definition getCredentials (now : Z) (req : Request) (scopes : list AuthScope)
  : outcome (option AccessCredentials) :=
  match getToken req with
  | None => Returns None
  | Some token =>
      if falsy token then Returns None
      else
        match verifyToken now token scopes with
        | Throws e => Throws e
        | Returns payload =>
            match property payload (js "sub") with
            | Some (JStr sub) =>
                if negb (startsWith sub (js "did:"))
                then Throws (InvalidToken "Malformed token")
                else Returns (Some {| cred_did := sub;
                                      cred_scope :=
                                        property payload (js "scope") |})
            | _ => Throws (InvalidToken "Malformed token")
            end
        end
  end.

Definition getCredentialsOrThrow (now : Z) (req : Request)
    (scopes : list AuthScope) : outcome AccessCredentials :=
  match getCredentials now req scopes with
  | Throws e => Throws e
  | Returns None => Throws (AuthRequiredError None None)
  | Returns (Some creds) => Returns creds
  end.

Definition verifyUser (now : Z) (req : Request) (did : jsstring)
    (scopes : list AuthScope) : outcome bool :=
  match getCredentials now req scopes with
  | Throws e => Throws e
  | Returns None => Returns false
  | Returns (Some authorized) => Returns (eqb (cred_did authorized) did)
  end.

(** [parseBasicAuth(token)]; [None] is [null]. *)
Definition parseBasicAuth (token : jsstring) : option (jsstring * jsstring) :=
  if negb (startsWith token BASIC) then None
  else
    let b64 := slice token (List.length BASIC) in
    match fromString_base64pad b64 with
    | None => None
    | Some decoded =>
        let parsed := split 58 (toString_utf8 decoded) in
        match at_ parsed 0, at_ parsed 1 with
        | Some username, Some password =>
            if falsy username || falsy password then None
            else Some (username, password)
        | _, _ => None
        end
    end.

Definition verifyAdmin (req : Request) : bool :=
  match parseBasicAuth
          (match authorization req with Some a => a | None => [] end) with
  | None => false
  | Some (username, password) =>
      if negb (eqb username (js "admin")) then false
      else if negb (eqb password _adminPass) then false
      else true
  end.

(** [jsonToB64Url(json)]: [ui8.toString] is called without an encoding,
    which is 'utf8'. *)
Definition jsonToB64Url (json : list (jsstring * field)) : jsstring :=
  toString_utf8 (fromString_utf8 (JSON_stringify json)).

(** The two objects [createServiceJwt] builds. *)
Definition serviceHeader (keypair : Keypair) : list (jsstring * field) :=
  [(js "typ", FStr (js "JWT")); (js "alg", FStr (jwtAlg keypair))].

Definition servicePayload (accountDid : jsstring) (now : Z)
  : list (jsstring * field) :=
  let exp := ((now + MINUTE) / 1000)%Z in
  [(js "iss", FStr accountDid); (js "exp", FInt exp)].

(** [createServiceJwt(accountDid, keypair)] at time [now]. *)
Definition createServiceJwt (accountDid : jsstring) (keypair : Keypair)
    (now : Z) : jsstring :=
  let header := serviceHeader keypair in
  let payload := servicePayload accountDid now in
  let toSignStr := jsonToB64Url header ++ 46 :: jsonToB64Url payload in
  let toSign := fromString_utf8 toSignStr in
  let sig := sign keypair toSign in
  toSignStr ++ 46 :: toString_base64url sig.

End ServerAuth.

End PdsAuth.

(** ** Reference instances of the libraries

    The codecs follow the algorithms of [uint8arrays] and [multiformats];
    the resolver, the signature scheme and the token library are test
    doubles.  They serve to run the embedding on concrete requests. *)

Module Ref.
Import Js Json Numbers Lib.

(** *** UTF-8 *)

Definition cont (cp : N) (shift : N) : N :=
  0x80 + N.land (N.shiftr cp shift) 0x3F.

Definition encodeCodePoint (cp : N) : bytes :=
  if cp <? 0x80 then [cp]
  else if cp <? 0x800 then [0xC0 + N.shiftr cp 6; cont cp 0]
  else if cp <? 0x10000 then [0xE0 + N.shiftr cp 12; cont cp 6; cont cp 0]
  else [0xF0 + N.shiftr cp 18; cont cp 12; cont cp 6; cont cp 0].

(** TextEncoder: a surrogate pair is one code point, a lone surrogate
    becomes U+FFFD. *)
Fixpoint utf8_encode (s : jsstring) : bytes :=
  match s with
  | [] => []
  | c :: r =>
      if isHighSurrogate c then
        match r with
        | d :: r' =>
            if isLowSurrogate d
            then encodeCodePoint
                   (0x10000 + (c - 0xD800) * 0x400 + (d - 0xDC00))
                 ++ utf8_encode r'
            else encodeCodePoint 0xFFFD ++ utf8_encode r
        | [] => encodeCodePoint 0xFFFD
        end
      else if isLowSurrogate c then encodeCodePoint 0xFFFD ++ utf8_encode r
      else encodeCodePoint c ++ utf8_encode r
  end.

Definition between (lo hi b : N) : bool := (lo <=? b) && (b <=? hi).
Definition low6 (b : N) : N := N.land b 0x3F.

Definition codeUnitsOf (cp : N) : jsstring :=
  if cp <? 0x10000 then [cp]
  else [0xD800 + N.shiftr (cp - 0x10000) 10;
        0xDC00 + N.land (cp - 0x10000) 0x3FF].

(** The decoder with replacement: an ill-formed sequence yields U+FFFD
    and decoding resumes at the byte that broke it. *)
Fixpoint utf8_decode (bs : bytes) : jsstring :=
  match bs with
  | [] => []
  | b :: r =>
      if b <? 0x80 then b :: utf8_decode r
      else if between 0xC2 0xDF b then
        match r with
        | b1 :: r1 =>
            if between 0x80 0xBF b1
            then (N.land b 0x1F * 64 + low6 b1) :: utf8_decode r1
            else 0xFFFD :: utf8_decode r
        | [] => [0xFFFD]
        end
      else if between 0xE0 0xEF b then
        match r with
        | b1 :: r1 =>
            if between (if b =? 0xE0 then 0xA0 else 0x80)
                       (if b =? 0xED then 0x9F else 0xBF) b1
            then match r1 with
                 | b2 :: r2 =>
                     if between 0x80 0xBF b2
                     then (N.land b 0xF * 4096 + low6 b1 * 64 + low6 b2)
                          :: utf8_decode r2
                     else 0xFFFD :: utf8_decode r1
                 | [] => [0xFFFD]
                 end
            else 0xFFFD :: utf8_decode r
        | [] => [0xFFFD]
        end
      else if between 0xF0 0xF4 b then
        match r with
        | b1 :: r1 =>
            if between (if b =? 0xF0 then 0x90 else 0x80)
                       (if b =? 0xF4 then 0x8F else 0xBF) b1
            then match r1 with
                 | b2 :: r2 =>
                     if between 0x80 0xBF b2
                     then match r2 with
                          | b3 :: r3 =>
                              if between 0x80 0xBF b3
                              then codeUnitsOf
                                     (N.land b 0x7 * 262144 + low6 b1 * 4096
                                      + low6 b2 * 64 + low6 b3)
                                   ++ utf8_decode r3
                              else 0xFFFD :: utf8_decode r2
                          | [] => [0xFFFD]
                          end
                     else 0xFFFD :: utf8_decode r1
                 | [] => [0xFFFD]
                 end
            else 0xFFFD :: utf8_decode r
        | [] => [0xFFFD]
        end
      else 0xFFFD :: utf8_decode r
  end.

(** *** RFC 4648 codecs of multiformats, six bits a character *)

Definition base64Alphabet : jsstring :=
  js "ABCDEFGHIJKLMNOPQRSTUVWXYZabcdefghijklmnopqrstuvwxyz0123456789+/".
Definition base64urlAlphabet : jsstring :=
  js "ABCDEFGHIJKLMNOPQRSTUVWXYZabcdefghijklmnopqrstuvwxyz0123456789-_".

Fixpoint indexOf (c : N) (alphabet : jsstring) (i : N) : option N :=
  match alphabet with
  | [] => None
  | a :: rest => if a =? c then Some i else indexOf c rest (i + 1)
  end.

Fixpoint dropPadding (reversed : jsstring) : jsstring :=
  match reversed with
  | c :: r => if c =? 61 then dropPadding r else reversed
  | [] => []
  end.

(** The loop of [decode] with its running [bits] and [buffer]; the last
    case is the check that just enough bits were received. *)
Fixpoint decodeLoop (alphabet s : jsstring) (bits buffer : N) : option bytes :=
  match s with
  | [] =>
      if (6 <=? bits)
         || negb (N.land (N.shiftl buffer (8 - bits)) 0xFF =? 0)
      then None else Some []
  | c :: r =>
      match indexOf c alphabet 0 with
      | None => None
      | Some value =>
          let buffer := N.lor (N.shiftl buffer 6) value in
          let bits := bits + 6 in
          if 8 <=? bits then
            match decodeLoop alphabet r (bits - 8) buffer with
            | Some out => Some (N.land (N.shiftr buffer (bits - 8)) 0xFF :: out)
            | None => None
            end
          else decodeLoop alphabet r bits buffer
      end
  end.

Definition rfc4648_decode (alphabet s : jsstring) : option bytes :=
  decodeLoop alphabet (rev (dropPadding (rev s))) 0 0.

Definition letter (alphabet : jsstring) (i : N) : N :=
  nth (N.to_nat (N.land i 63)) alphabet 0.

(** The loop of [encode] for an alphabet without padding. *)
Fixpoint encodeLoop (alphabet : jsstring) (data : bytes) (bits buffer : N)
  : jsstring :=
  match data with
  | [] =>
      if bits =? 0 then []
      else [letter alphabet (N.shiftl buffer (6 - bits))]
  | b :: r =>
      let buffer := N.lor (N.shiftl buffer 8) b in
      let bits1 := bits + 8 - 6 in
      let out1 := letter alphabet (N.shiftr buffer bits1) in
      if 6 <? bits1
      then out1 :: letter alphabet (N.shiftr buffer (bits1 - 6))
                :: encodeLoop alphabet r (bits1 - 6) buffer
      else out1 :: encodeLoop alphabet r bits1 buffer
  end.

#[export] Instance uint8arrays : Uint8Arrays := {|
  fromString_utf8 := utf8_encode;
  toString_utf8 := utf8_decode;
  fromString_base64url := rfc4648_decode base64urlAlphabet;
  toString_base64url := fun data => encodeLoop base64urlAlphabet data 0 0;
  fromString_base64pad := rfc4648_decode base64Alphabet
|}.

(** *** Test doubles *)

(** A directory of three identities, the third with a signing key that
    is not a did:key; any other identity does not resolve. *)
Definition alice : jsstring := js "did:plc:alice".
Definition carol : jsstring := js "did:web:carol.example.com".
Definition dave : jsstring := js "did:plc:dave".
Definition keyOf (d : jsstring) : jsstring := js "did:key:" ++ d.

#[export] Instance directory : DidResolver := {|
  resolveAtpData := fun d =>
    if eqb d alice || eqb d carol
    then inl {| atp_did := d; signingKey := keyOf d;
                handle := []; pds := [] |}
    else if eqb d dave
    then inl {| atp_did := d; signingKey := js "not-a-key";
                handle := []; pds := [] |}
    else inr (js "could not resolve did");
  resolveAtpData_other := fun _ => js "not a did"
|}.

(** A stand-in for the conversions: it reads a string as a decimal
    literal of the JSON grammar, white space around it left aside, and
    the empty string as zero; an object with a member named toString
    cannot be converted, every other object or array is not a number. *)
#[export] Instance conversions : Conversions := {|
  StringToNumber := fun s =>
    match trim s with
    | [] => Finite (Qmake 0 1)
    | text =>
        match parse_number text with
        | Some (q, []) => toDouble q
        | _ => NaN
        end
    end;
  ToNumber_object := fun v =>
    match property v (js "toString") with
    | Some _ => None
    | None => Some NaN
    end
|}.

(** A signature is the key followed by the message; a key that does not
    start with [did:key:] cannot be parsed. *)
#[export] Instance toyCrypto : Crypto := {|
  verifySignature := fun key msg sig =>
    if startsWith key (js "did:key:")
    then Some (eqb sig (utf8_encode key ++ msg))
    else None
|}.

Definition keypairOf (d : jsstring) : Keypair := {|
  jwtAlg := js "ES256K";
  sign := fun msg => utf8_encode (keyOf d) ++ msg
|}.

(** The token library double knows one token, one secret, one payload. *)
Definition theSecret : jsstring := js "jwt-secret".
Definition theToken : jsstring := js "token-of-alice".
Definition thePayload (scope : jsstring) (iat exp : Z)
  : list (jsstring * field) :=
  [(js "scope", FStr scope); (js "sub", FStr alice);
   (js "iat", FInt iat); (js "exp", FInt exp)].

#[export] Instance toyJwt : JsonWebToken := {|
  jws_sign := fun _ _ => theToken;
  jws_verify := fun token secret =>
    if eqb token theToken && eqb secret theSecret
    then Some (objectOf (thePayload (js "com.atproto.access")
                                    1700000000 1700007200))
    else None
|}.

(** Service tokens issued at 2023-11-14T22:13:20Z, the first for an
    identity of the directory, the second for one that does not resolve. *)
Definition issuedAt : Z := 1700000000000.
Definition aliceToken : jsstring :=
  PdsAuth.createServiceJwt alice (keypairOf alice) issuedAt.
Definition mallory : jsstring := js "did:plc:mallory".
Definition malloryToken : jsstring :=
  PdsAuth.createServiceJwt mallory (keypairOf mallory) issuedAt.
Definition carolToken : jsstring :=
  PdsAuth.createServiceJwt carol (keypairOf carol) issuedAt.
Definition daveToken : jsstring :=
  PdsAuth.createServiceJwt dave (keypairOf dave) issuedAt.
(** A token in the name of alice signed with the key of mallory. *)
Definition forgedToken : jsstring :=
  PdsAuth.createServiceJwt alice (keypairOf mallory) issuedAt.

(** A token with a payload text of one's choice, signed as
    [createServiceJwt] signs. *)
Definition tokenOf (payload : jsstring) (keypair : Keypair) : jsstring :=
  let toSignStr :=
    JSON_stringify (PdsAuth.serviceHeader keypair) ++ 46 :: payload in
  toSignStr ++ 46 :: toString_base64url (sign keypair (fromString_utf8 toSignStr)).

(** The text of an object with the member iss, a string, and after it
    the text given. *)
Definition issAnd (d : jsstring) (more : jsstring) : jsstring :=
  removelast (JSON_stringify [(js "iss", FStr d)]) ++ more ++ [125].

(** Tokens of alice: one whose expiry is a literal that is not a double,
    just below 1700000060, and one without an expiry. *)
Definition fractionToken : jsstring :=
  tokenOf (issAnd alice (44 :: 34 :: js "exp" ++ 34 :: 58
                         :: js "17000000599999999e-7"))
          (keypairOf alice).
Definition noExpToken : jsstring :=
  tokenOf (issAnd alice []) (keypairOf alice).

Definition bearer (token : jsstring) : Http.Request :=
  {| Http.authorization := Some (js "Bearer " ++ token) |}.

End Ref.

(** ** The request verifiers of [packages/pds/src/auth.ts] *)

Module PdsVerifiers.
Import Js Json Lib Http PdsAuth.

(** The account service and [softDeleted] of [./db/util], as the gate on
    taken-down accounts uses them: [getAccount(did, includeSoftDeleted)]
    resolves to the account or to nothing, or rejects with the error of
    the database. *)
Class AccountService : Type := {
  Account : Type;
  getAccount : jsstring -> bool -> option Account + jsstring;
  softDeleted : Account -> bool
}.

(** What a verifier hands to the route: the credentials and, as
    artifacts, the token of the request. *)
Record AccessOutput : Type := {
  credentials : AccessCredentials;
  artifacts : option jsstring
}.

(** What [adminVerifier] hands to the route: [{ credentials: { admin } }]. *)
Record AdminCredentials : Type := {
  admin : bool
}.

Record AdminOutput : Type := {
  adminCredentials : AdminCredentials
}.

Definition AccountTakedown : error :=
  AuthRequiredError (Some "Account has been taken down"%string)
                    (Some "AccountTakedown"%string).

Section Verifiers.
Context `{Uint8Arrays} `{JsonWebToken} `{AccountService}.
Variable opts : ServerAuthOpts.

(** The body the four token verifiers share. *)
Definition withScopes (scopes : list AuthScope) (now : Z) (req : Request)
  : outcome AccessOutput :=
  match getCredentialsOrThrow opts now req scopes with
  | Throws e => Throws e
  | Returns creds =>
      Returns {| credentials := creds; artifacts := getToken req |}
  end.

Definition accessVerifier (now : Z) (req : Request) : outcome AccessOutput :=
  withScopes [Access; AppPass] now req.

Definition accessVerifierNotAppPassword (now : Z) (req : Request)
  : outcome AccessOutput :=
  withScopes [Access] now req.

Definition refreshVerifier (now : Z) (req : Request) : outcome AccessOutput :=
  withScopes [Refresh] now req.

(** [accessVerifierCheckTakedown]; [inr] is the rejection of the account
    service, which the verifier does not catch. *)
Definition accessVerifierCheckTakedown (now : Z) (req : Request)
  : outcome AccessOutput + jsstring :=
  match getCredentialsOrThrow opts now req [Access; AppPass] with
  | Throws e => inl (Throws e)
  | Returns creds =>
      match getAccount (cred_did creds) true with
      | inr dbError => inr dbError
      | inl None => inl (Throws AccountTakedown)
      | inl (Some actor) =>
          if softDeleted actor then inl (Throws AccountTakedown)
          else inl (Returns {| credentials := creds;
                               artifacts := getToken req |})
      end
  end.

Definition adminVerifier (req : Request) : outcome AdminOutput :=
  let admin := verifyAdmin opts req in
  if negb admin then Throws (AuthRequiredError None None)
  else Returns {| adminCredentials := {| admin := admin |} |}.

End Verifiers.

End PdsVerifiers.

(** ** The cache as a map: what the last put left *)

Module DidSqlCacheModel.
Import Js DidSqlCache.

Section Model.
Context {DidDocument : Type}.

(** The document and timestamp one identity holds after a write, given
    what it held before: a put of the identity replaces the document and
    takes the update reading on a conflict, the insert reading
    otherwise; a clear leaves nothing. *)
Definition remember (d : jsstring) (held : option (DidDocument * Z))
    (o : Op DidDocument) : option (DidDocument * Z) :=
  match o with
  | OpClear => None
  | OpCacheDid tInsert tUpdate d' document =>
      if eqb d' d
      then Some (document,
                 match held with Some _ => tUpdate | None => tInsert end)
      else held
  end.

Definition isPut (o : Op DidDocument) : bool :=
  match o with
  | OpCacheDid _ _ _ _ => true
  | OpClear => false
  end.

Definition lastPut (d : jsstring) (ops : list (Op DidDocument))
  : option (DidDocument * Z) :=
  fold_left (remember d) ops None.

(** The answer of [checkCache] for an identity that holds [held]. *)
Definition answer (now ttl : Z) (d : jsstring)
    (held : option (DidDocument * Z)) : option (CacheResult DidDocument) :=
  match held with
  | None => None
  | Some (document, t) =>
      Some {| doc := document; updatedAt := Date_getTime t; did := d;
              expired := gt_sum now (Date_getTime t) ttl |}
  end.

(** The one row, or none, of an identity that holds [held]. *)
Definition rowFor (d : jsstring) (held : option (DidDocument * Z))
  : list (Row DidDocument) :=
  match held with
  | None => []
  | Some (document, t) =>
      [{| row_did := d; row_doc := document; row_updatedAt := t |}]
  end.

End Model.

End DidSqlCacheModel.

(** ** Counting and trimming *)

Module JsMore.
Import Js.

(** How often a code unit occurs in a string. *)
Definition occurrences (c : N) (s : jsstring) : nat :=
  List.length (filter (N.eqb c) s).

Definition allWhiteSpace (s : jsstring) : bool := forallb isWhiteSpace s.

(** The last code unit of a string. *)
Definition lastUnit (s : jsstring) : option N := hd_error (rev s).

Definition notWhiteSpace (c : option N) : Prop :=
  match c with
  | Some c => isWhiteSpace c = false
  | None => True
  end.

(** Neither end of the string is white space. *)
Definition trimmed (s : jsstring) : Prop :=
  notWhiteSpace (hd_error s) /\ notWhiteSpace (lastUnit s).

End JsMore.

(** ** [repo/prepare.ts]: the collection of a record and its key *)

Module Prepare.
Import Js Json.

(** A record is a JSON object; of two members with one key the later one
    is the property, as in [get]. *)
Definition record : Type := list (jsstring * json).

(** [lex.lexicons.getDef(uri)]: the definition, if any, with its [type]
    and, for a record, its [key]. *)
Record LexDef : Type := {
  def_type : jsstring;
  def_key : option jsstring
}.

Class Lexicons : Type := {
  getDef : jsstring -> option LexDef
}.




Definition hasKey (key : jsstring) (r : record) : bool :=
  existsb (fun m => eqb (fst m) key) r.




(** [determineRkey(collection)]; [nextTid] is what [TID.nextStr()] would
    return, and [None] is [undefined]. *)
Definition determineRkey `{Lexicons} (collection : jsstring)
    (nextTid : jsstring) : option jsstring :=
  let keyType :=
    match getDef collection with
    | Some doc => if eqb (def_type doc) (js "record") then def_key doc
                  else None
    | None => None
    end in
  match keyType with
  | Some k =>
      if negb (falsy k) && startsWith k (js "literal")
      then at_ (split 58 k) 1
      else Some nextTid
  | None => Some nextTid
  end.

End Prepare.

(** ** More test doubles *)

Module Ref2.
Import Js Json Lib PdsVerifiers Prepare Ref.

(** Accounts are their identities; bob is taken down, eve makes the
    database fail, and anyone else but alice has no account. *)
Definition bob : jsstring := js "did:plc:bob".
Definition eve : jsstring := js "did:plc:eve".

#[export] Instance accounts : AccountService := {|
  Account := jsstring;
  getAccount := fun d _ =>
    if eqb d eve then inr (js "connection terminated")
    else if eqb d alice || eqb d bob then inl (Some d)
    else inl None;
  softDeleted := fun a => eqb a bob
|}.

(** A token library without secrecy: the token is the text of the
    payload, a NUL and the secret. *)
Fixpoint breakAt (c : N) (s : jsstring) : jsstring * option jsstring :=
  match s with
  | [] => ([], None)
  | x :: r =>
      if x =? c then ([], Some r)
      else let (before, after) := breakAt c r in (x :: before, after)
  end.

Definition echoJwt : JsonWebToken := {|
  jws_sign := fun members secret => JSON_stringify members ++ 0 :: secret;
  jws_verify := fun token secret =>
    match breakAt 0 token with
    | (text, Some key) =>
        if eqb key secret
        then match JSON_parse text with
             | Parsed v _ => Some v
             | _ => None
             end
        else None
    | (_, None) => None
    end
|}.

Definition theOpts : PdsAuth.ServerAuthOpts :=
  {| PdsAuth.jwtSecret := theSecret; PdsAuth.adminPass := js "hunter2" |}.

(** Tokens of the local authority under [echoJwt], issued at [issuedAt]:
    an access token, an app-password token and a refresh token of alice,
    and an access token for a subject that is not an identity. *)
Definition accessOf (d : jsstring) (scope : PdsAuth.AuthScope)
  : list (jsstring * field) * jsstring :=
  @PdsAuth.createAccessToken echoJwt theOpts d scope 7200 issuedAt.
Definition refreshOf (d : jsstring) : list (jsstring * field) * jsstring :=
  @PdsAuth.createRefreshToken echoJwt theOpts d (js "jti-1") 7776000 issuedAt.

#[export] Instance lexicons : Lexicons := {|
  getDef := fun uri =>
    if eqb uri (js "app.bsky.actor.profile")
    then Some {| def_type := js "record";
                 def_key := Some (js "literal:self") |}
    else if eqb uri (js "app.bsky.feed.post")
    then Some {| def_type := js "record"; def_key := Some (js "tid") |}
    else if eqb uri (js "app.bsky.feed.getTimeline")
    then Some {| def_type := js "query"; def_key := None |}
    else None
|}.

End Ref2.

(** * Properties *)

(** ** Strings *)

Module JsFacts.
Import Js.

Lemma eqb_refl (s : jsstring) : eqb s s = true.
Proof.
  induction s as [|c s IH]; simpl; [reflexivity|].
  now rewrite N.eqb_refl.
Qed.

Lemma eqb_eq (a b : jsstring) : eqb a b = true <-> a = b.
Proof.
  split; [|intros ->; apply eqb_refl].
  revert b; induction a as [|x a IH]; intros [|y b]; simpl;
    try discriminate; [reflexivity|].
  intros E. apply andb_true_iff in E as [Exy Eab].
  apply N.eqb_eq in Exy. apply IH in Eab. now subst.
Qed.

Lemma eqb_neq (a b : jsstring) : eqb a b = false <-> a <> b.
Proof.
  rewrite <- eqb_eq. destruct (eqb a b); split; congruence.
Qed.

Lemma startsWith_app (p s : jsstring) : startsWith (p ++ s) p = true.
Proof.
  induction p as [|c p IH]; simpl; [reflexivity|].
  now rewrite N.eqb_refl.
Qed.

Lemma startsWith_inv (s p : jsstring) :
  startsWith s p = true -> s = p ++ skipn (List.length p) s.
Proof.
  revert s; induction p as [|c p IH]; intros s; simpl; [reflexivity|].
  destruct s as [|x s]; [discriminate|].
  intros E. apply andb_true_iff in E as [Ex Es].
  apply N.eqb_eq in Ex. subst. f_equal. now apply IH.
Qed.

Lemma slice_app (p s : jsstring) : slice (p ++ s) (List.length p) = s.
Proof. unfold slice. induction p; simpl; auto. Qed.

Lemma contains_app c (a b : jsstring) :
  contains c (a ++ b) = contains c a || contains c b.
Proof. apply existsb_app. Qed.

Lemma contains_false c (s : jsstring) :
  contains c s = false <-> ~ In c s.
Proof.
  unfold contains. split.
  - intros E Hin.
    assert (existsb (N.eqb c) s = true)
      by (apply existsb_exists; exists c; split; [exact Hin|apply N.eqb_refl]).
    congruence.
  - intros Hn. destruct (existsb (N.eqb c) s) eqn:E; [|reflexivity].
    apply existsb_exists in E as [x [Hx Hc]]. apply N.eqb_eq in Hc.
    subst. contradiction.
Qed.

Lemma split_not_nil sep (s : jsstring) : split sep s <> [].
Proof.
  destruct s as [|c s]; simpl; [discriminate|].
  destruct (c =? sep); [discriminate|].
  destruct (split sep s); discriminate.
Qed.

(** A string without the separator is its own single segment. *)
Lemma split_no_sep sep (s : jsstring) :
  contains sep s = false -> split sep s = [s].
Proof.
  induction s as [|c s IH]; simpl; [reflexivity|].
  intros E. apply orb_false_iff in E as [Ec Es].
  rewrite N.eqb_sym, Ec. now rewrite IH.
Qed.

(** The first segment ends at the first separator. *)
Lemma split_app_sep sep (a b : jsstring) :
  contains sep a = false -> split sep (a ++ sep :: b) = a :: split sep b.
Proof.
  induction a as [|c a IH]; simpl.
  - now rewrite N.eqb_refl.
  - intros E. apply orb_false_iff in E as [Ec Ea].
    rewrite N.eqb_sym, Ec. now rewrite IH.
Qed.

(** No segment holds the separator. *)
Lemma split_segments sep (s : jsstring) :
  Forall (fun seg => contains sep seg = false) (split sep s).
Proof.
  induction s as [|c s IH]; simpl; [repeat constructor|].
  destruct (c =? sep) eqn:E; [now constructor|].
  destruct (split sep s) as [|h t]; [repeat constructor; simpl|].
  - now rewrite N.eqb_sym, E.
  - inversion IH as [|? ? Hh Ht]; subst. constructor; [|exact Ht].
    simpl. now rewrite N.eqb_sym, E, Hh.
Qed.

Lemma at_segment sep (s seg : jsstring) i :
  at_ (split sep s) i = Some seg -> contains sep seg = false.
Proof.
  intros E. apply nth_error_In in E.
  exact (proj1 (Forall_forall _ _) (split_segments sep s) seg E).
Qed.

Lemma falsy_nil (s : jsstring) : falsy s = true <-> s = [].
Proof. destruct s; simpl; split; congruence. Qed.

End JsFacts.

(** ** JSON: what is written is read back *)

Module JsonFacts.
Import Js JsFacts Json.

Lemma hexval_hexdigit d : d < 16 -> hexval (hexdigit d) = Some d.
Proof.
  intros Hd. rewrite <- (N2Nat.id d).
  assert (Hn : (N.to_nat d < 16)%nat) by lia.
  revert Hn. generalize (N.to_nat d). intros n Hn.
  do 16 (destruct n as [|n]; [reflexivity|]). lia.
Qed.

Lemma hex4_value c :
  c < 65536 ->
  4096 * (c / 4096 mod 16) + 256 * (c / 256 mod 16)
  + 16 * (c / 16 mod 16) + c mod 16 = c.
Proof.
  intros Hc.
  replace (c / 256) with (c / 16 / 16) by (now rewrite N.Div0.div_div).
  replace (c / 4096) with (c / 16 / 16 / 16) by (now rewrite !N.Div0.div_div).
  pose proof (N.div_mod' c 16) as E0.
  pose proof (N.div_mod' (c / 16) 16) as E1.
  pose proof (N.div_mod' (c / 16 / 16) 16) as E2.
  pose proof (N.div_mod' (c / 16 / 16 / 16) 16) as E3.
  pose proof (N.mod_lt c 16) as L0.
  pose proof (N.mod_lt (c / 16) 16) as L1.
  pose proof (N.mod_lt (c / 16 / 16) 16) as L2.
  pose proof (N.mod_lt (c / 16 / 16 / 16) 16) as L3.
  generalize dependent (c / 16 / 16 / 16 mod 16).
  generalize dependent (c / 16 / 16 / 16 / 16).
  generalize dependent (c / 16 / 16 mod 16).
  generalize dependent (c / 16 / 16 / 16).
  generalize dependent (c / 16 mod 16).
  generalize dependent (c / 16 / 16).
  generalize dependent (c mod 16).
  generalize dependent (c / 16).
  intros. lia.
Qed.

Lemma string_body_u h1 h2 h3 h4 r :
  string_body (92 :: 117 :: h1 :: h2 :: h3 :: h4 :: r)
  = match hexval h1, hexval h2, hexval h3, hexval h4 with
    | Some a, Some b, Some c, Some d =>
        consTo (4096 * a + 256 * b + 16 * c + d) (string_body r)
    | _, _, _, _ => None
    end.
Proof. reflexivity. Qed.

Lemma string_body_uescape c tail :
  c < 65536 -> string_body (uescape c ++ tail) = consTo c (string_body tail).
Proof.
  intros Hc. unfold uescape, hex4. cbn [app]. rewrite string_body_u.
  rewrite !hexval_hexdigit by (apply N.mod_lt; discriminate).
  now rewrite hex4_value.
Qed.

Lemma string_body_escape e u r :
  unescape e = Some u -> string_body (92 :: e :: r) = consTo u (string_body r).
Proof.
  intros Hu. cbn [string_body]. change (92 =? 34) with false.
  change (92 =? 92) with true. cbv iota.
  destruct (N.eqb_spec e 117) as [->|]; [discriminate|].
  now rewrite Hu.
Qed.

Lemma string_body_plain c r :
  c <> 34 -> c <> 92 -> 32 <= c ->
  string_body (c :: r) = consTo c (string_body r).
Proof.
  intros H34 H92 H32. cbn [string_body].
  destruct (N.eqb_spec c 34); [contradiction|].
  destruct (N.eqb_spec c 92); [contradiction|].
  destruct (N.ltb_spec c 32); [lia|reflexivity].
Qed.


Lemma surrogate_bound c :
  isHighSurrogate c = true \/ isLowSurrogate c = true -> c < 65536.
Proof.
  unfold isHighSurrogate, isLowSurrogate.
  intros [E|E]; apply andb_true_iff in E as [_ E]; apply N.leb_le in E; lia.
Qed.

Lemma surrogate_plain c :
  isHighSurrogate c = true \/ isLowSurrogate c = true ->
  c <> 34 /\ c <> 92 /\ 32 <= c.
Proof.
  unfold isHighSurrogate, isLowSurrogate.
  intros [E|E]; apply andb_true_iff in E as [E _]; apply N.leb_le in E; lia.
Qed.

(** One character of [quote_body], given the round trip of what
    follows it. *)
Lemma string_body_quote_step c r rest :
  string_body (quote_body r ++ 34 :: rest) = Some (r, rest) ->
  (forall d r', r = d :: r' ->
                string_body (quote_body r' ++ 34 :: rest) = Some (r', rest)) ->
  string_body (quote_body (c :: r) ++ 34 :: rest) = Some (c :: r, rest).
Proof.
  intros Hr Hr'. cbn [quote_body].
  destruct (N.eqb_spec c 34) as [->|N34];
    [cbn [app]; rewrite (string_body_escape 34 34), Hr; reflexivity|].
  destruct (N.eqb_spec c 92) as [->|N92];
    [cbn [app]; rewrite (string_body_escape 92 92), Hr; reflexivity|].
  destruct (N.eqb_spec c 8) as [->|N8];
    [cbn [app]; rewrite (string_body_escape 98 8), Hr; reflexivity|].
  destruct (N.eqb_spec c 12) as [->|N12];
    [cbn [app]; rewrite (string_body_escape 102 12), Hr; reflexivity|].
  destruct (N.eqb_spec c 10) as [->|N10];
    [cbn [app]; rewrite (string_body_escape 110 10), Hr; reflexivity|].
  destruct (N.eqb_spec c 13) as [->|N13];
    [cbn [app]; rewrite (string_body_escape 114 13), Hr; reflexivity|].
  destruct (N.eqb_spec c 9) as [->|N9];
    [cbn [app]; rewrite (string_body_escape 116 9), Hr; reflexivity|].
  destruct (N.ltb_spec c 32) as [L32|G32].
  { rewrite <- app_assoc, string_body_uescape, Hr by lia. reflexivity. }
  destruct (isHighSurrogate c) eqn:Hhigh.
  { destruct (surrogate_plain c (or_introl Hhigh)) as (P1 & P2 & P3).
    pose proof (surrogate_bound c (or_introl Hhigh)) as Hb.
    destruct r as [|d r'].
    - rewrite string_body_uescape by exact Hb. reflexivity.
    - destruct (isLowSurrogate d) eqn:Hlow.
      + destruct (surrogate_plain d (or_intror Hlow)) as (Q1 & Q2 & Q3).
        cbn [app]. rewrite string_body_plain by assumption.
        rewrite string_body_plain by assumption.
        now rewrite (Hr' d r' eq_refl).
      + rewrite <- app_assoc, string_body_uescape, Hr by exact Hb.
        reflexivity. }
  destruct (isLowSurrogate c) eqn:Hlow.
  { pose proof (surrogate_bound c (or_intror Hlow)) as Hb.
    rewrite <- app_assoc, string_body_uescape, Hr by exact Hb. reflexivity. }
  cbn [app]. rewrite string_body_plain, Hr by assumption. reflexivity.
Qed.

(** The parser reads back what [quote_body] wrote, up to the closing
    quote. *)
Lemma string_body_quote s rest :
  string_body (quote_body s ++ 34 :: rest) = Some (s, rest).
Proof.
  enough (Hboth : string_body (quote_body s ++ 34 :: rest) = Some (s, rest)
                  /\ forall c, string_body (quote_body (c :: s) ++ 34 :: rest)
                               = Some (c :: s, rest)) by apply Hboth.
  induction s as [|a s [IHs IHc]].
  - split; [reflexivity|].
    intros c. apply string_body_quote_step; [reflexivity|discriminate].
  - split; [apply IHc|].
    intros c. apply string_body_quote_step; [apply IHc|].
    intros d r' [= <- <-]. exact IHs.
Qed.


(** *** Numbers *)

Lemma digits_val_snoc ds d :
  digits_val (ds ++ [d]) = 10 * digits_val ds + d.
Proof. unfold digits_val. now rewrite fold_left_app. Qed.

Lemma isDigit_digit d : d < 10 -> isDigit (48 + d) = true.
Proof.
  intros Hd. unfold isDigit. apply andb_true_iff.
  split; apply N.leb_le; lia.
Qed.

Lemma digits_aux_spec f n acc :
  n < 10 ^ N.of_nat f -> (0 < f)%nat ->
  exists ds,
    digits_aux f n acc = ds ++ acc
    /\ ds <> []
    /\ Forall (fun c => isDigit c = true) ds
    /\ digits_val (digitValues ds) = n
    /\ (forall tl, ds = 48 :: tl -> tl = []).
Proof.
  revert n acc. induction f as [|f IH]; intros n acc Hn Hf; [lia|].
  cbn [digits_aux].
  pose proof (N.mod_lt n 10 ltac:(discriminate)) as Hmod.
  pose proof (N.div_mod' n 10) as Hdiv.
  destruct (N.eqb_spec (n / 10) 0) as [Hz|Hnz].
  - exists [48 + n mod 10]. repeat split.
    + discriminate.
    + constructor; [now apply isDigit_digit|constructor].
    + unfold digitValues, digits_val. cbn [map fold_left].
      rewrite Hz in Hdiv. clear Hz.
      generalize dependent (n mod 10). intros. lia.
    + now intros tl [= _ <-].
  - assert (Hlt : n / 10 < 10 ^ N.of_nat f).
    { apply N.Div0.div_lt_upper_bound.
      rewrite Nat2N.inj_succ, N.pow_succ_r' in Hn. exact Hn. }
    assert (Hpos : (0 < f)%nat).
    { destruct f; [|lia]. simpl in Hlt. lia. }
    destruct (IH (n / 10) ((48 + n mod 10) :: acc) Hlt Hpos)
      as (ds & Heq & Hne & Hall & Hval & Hzero).
    exists (ds ++ [48 + n mod 10]). repeat split.
    + rewrite Heq, <- app_assoc. reflexivity.
    + destruct ds; discriminate.
    + apply Forall_app. split; [exact Hall|].
      constructor; [now apply isDigit_digit|constructor].
    + unfold digitValues. rewrite map_app. cbn [map].
      rewrite digits_val_snoc. fold (digitValues ds). rewrite Hval.
      clear - Hdiv Hmod.
      generalize dependent (n mod 10). generalize dependent (n / 10).
      intros. lia.
    + intros tl E. destruct ds as [|c ds]; [congruence|].
      injection E as -> _. specialize (Hzero ds eq_refl). subst ds.
      exfalso. apply Hnz. rewrite <- Hval. reflexivity.
Qed.

Lemma digits_spec n :
  exists ds,
    digits n = ds
    /\ ds <> []
    /\ Forall (fun c => isDigit c = true) ds
    /\ digits_val (digitValues ds) = n
    /\ (forall tl, ds = 48 :: tl -> tl = []).
Proof.
  unfold digits.
  destruct (digits_aux_spec (S (N.to_nat (N.log2 n))) n [])
    as (ds & Heq & Hrest); [|lia|].
  - rewrite Nat2N.inj_succ, N2Nat.id.
    destruct (N.eq_dec n 0) as [->|Hn]; [reflexivity|].
    apply N.lt_le_trans with (2 ^ N.succ (N.log2 n)).
    + apply N.log2_spec. lia.
    + apply N.pow_le_mono_l. lia.
  - exists ds. rewrite app_nil_r in Heq. tauto.
Qed.

Lemma take_digits_app ds rest :
  Forall (fun c => isDigit c = true) ds ->
  match rest with [] => True | c :: _ => isDigit c = false end ->
  take_digits (ds ++ rest) = (digitValues ds, rest).
Proof.
  intros Hall Hrest. induction Hall as [|c ds Hc Hall IH]; cbn [app].
  - destruct rest as [|c r]; [reflexivity|]. cbn [take_digits].
    now rewrite Hrest.
  - cbn [take_digits]. now rewrite Hc, IH.
Qed.

Lemma decimal_int m : decimal m 0 = Qmake m 1.
Proof. unfold decimal. simpl. now rewrite Z.mul_1_r. Qed.

Lemma number_frac_end rest :
  endsNumber rest -> number_frac rest = Some ([], rest).
Proof.
  destruct rest as [|c r]; [reflexivity|]. intros (_ & H46 & _).
  unfold number_frac. now destruct (N.eqb_spec c 46).
Qed.

Lemma number_exp_end rest :
  endsNumber rest -> number_exp rest = Some (0%Z, rest).
Proof.
  destruct rest as [|c r]; [reflexivity|]. intros (_ & _ & H101 & H69).
  unfold number_exp.
  destruct (N.eqb_spec c 101); [contradiction|].
  now destruct (N.eqb_spec c 69).
Qed.

(** The digits of a natural number, read after the sign. *)
Lemma parse_unsigned (n : N) (neg : bool) (rest : jsstring) :
  endsNumber rest ->
  (let (ip, s2) := take_digits (digits n ++ rest) in
   match ip with
   | [] => None
   | d :: tl =>
       if (d =? 0) && negb (isNil tl) then None
       else
         match number_frac s2 with
         | None => None
         | Some (fd, s3) =>
             match number_exp s3 with
             | None => None
             | Some (e, s4) =>
                 let m := Z.of_N (digits_val (ip ++ fd)) in
                 Some (decimal (if neg then - m else m)%Z
                               (e - Z.of_nat (List.length fd))%Z, s4)
             end
         end
   end)
  = Some (Qmake (if neg then - Z.of_N n else Z.of_N n)%Z 1, rest).
Proof.
  intros Hend.
  destruct (digits_spec n) as (ds & -> & Hne & Hall & Hval & Hzero).
  assert (Hrest : match rest with [] => True | c :: _ => isDigit c = false end)
    by (destruct rest; [exact I|apply Hend]).
  rewrite (take_digits_app ds rest Hall Hrest).
  destruct ds as [|c ds]; [congruence|].
  cbn [digitValues map].
  assert (Hlead : (c - 48 =? 0) && negb (isNil (map (fun c => c - 48) ds))
                  = false).
  { destruct (N.eqb_spec (c - 48) 0) as [E|]; [|reflexivity].
    assert (c = 48).
    { inversion Hall as [|? ? Hc _]; subst. unfold isDigit in Hc.
      apply andb_true_iff in Hc as [Hc _]. apply N.leb_le in Hc. lia. }
    subst c. now rewrite (Hzero ds eq_refl). }
  rewrite Hlead, (number_frac_end rest Hend), (number_exp_end rest Hend).
  rewrite app_nil_r. cbn [List.length].
  change (0 - Z.of_nat 0)%Z with 0%Z. rewrite decimal_int.
  change (c - 48 :: map (fun c => c - 48) ds) with (digitValues (c :: ds)).
  now rewrite Hval.
Qed.

Lemma digits_head n :
  exists c tl, digits n = c :: tl /\ isDigit c = true.
Proof.
  destruct (digits_spec n) as (ds & -> & Hne & Hall & _).
  destruct ds as [|c tl]; [congruence|].
  exists c, tl. split; [reflexivity|now inversion Hall].
Qed.

(** The parser reads back the text of an integer. *)
Lemma parse_number_toString z rest :
  endsNumber rest ->
  parse_number (Number_toString z ++ rest) = Some (Qmake z 1, rest).
Proof.
  intros Hend. unfold Number_toString, parse_number.
  destruct (Z.ltb_spec z 0) as [Hneg|Hpos].
  - cbn [app number_sign]. change (45 =? 45) with true. cbv iota.
    rewrite (parse_unsigned _ true rest Hend).
    rewrite Z2N.id by lia. now rewrite Z.opp_involutive.
  - destruct (digits_head (Z.to_N z)) as (c & tl & E & Hc).
    assert (Hsign : number_sign (digits (Z.to_N z) ++ rest)
                    = (false, digits (Z.to_N z) ++ rest)).
    { rewrite E. cbn [app number_sign].
      destruct (N.eqb_spec c 45) as [->|]; [discriminate|reflexivity]. }
    rewrite Hsign.
    rewrite (parse_unsigned _ false rest Hend).
    now rewrite Z2N.id by lia.
Qed.

(** *** Values and members *)

Lemma Number_toString_head z :
  exists c tl, Number_toString z = c :: tl /\ (c = 45 \/ isDigit c = true).
Proof.
  unfold Number_toString. destruct (z <? 0)%Z.
  - eexists _, _. split; [reflexivity|now left].
  - destruct (digits_head (Z.to_N z)) as (c & tl & -> & Hc).
    exists c, tl. split; [reflexivity|now right].
Qed.

Lemma number_head_range c :
  c = 45 \/ isDigit c = true -> c = 45 \/ (48 <= c /\ c <= 57).
Proof.
  intros [->|Hc]; [now left|right].
  unfold isDigit in Hc. apply andb_true_iff in Hc as [H1 H2].
  apply N.leb_le in H1, H2. lia.
Qed.

Lemma parse_value_number f c r q rest :
  c = 45 \/ isDigit c = true ->
  parse_number (c :: r) = Some (q, rest) ->
  parse_value (S f) (c :: r) = Parsed (JNum q) rest.
Proof.
  intros Hc Hnum. apply number_head_range in Hc.
  cbn [parse_value skip_ws].
  assert (Hsp : isJsonSpace c = false).
  { unfold isJsonSpace.
    destruct (N.eqb_spec c 32); [lia|]. destruct (N.eqb_spec c 9); [lia|].
    destruct (N.eqb_spec c 10); [lia|]. destruct (N.eqb_spec c 13); [lia|].
    reflexivity. }
  rewrite Hsp.
  destruct (N.eqb_spec c 123); [lia|]. destruct (N.eqb_spec c 91); [lia|].
  destruct (N.eqb_spec c 34); [lia|].
  assert (Ht : startsWith (c :: r) (js "true") = false).
  { cbn. destruct (N.eqb_spec c 116); [lia|reflexivity]. }
  assert (Hf : startsWith (c :: r) (js "false") = false).
  { cbn. destruct (N.eqb_spec c 102); [lia|reflexivity]. }
  assert (Hn : startsWith (c :: r) (js "null") = false).
  { cbn. destruct (N.eqb_spec c 110); [lia|reflexivity]. }
  now rewrite Ht, Hf, Hn, Hnum.
Qed.

Lemma parse_value_string f s rest :
  parse_value (S f) (quote s ++ rest) = Parsed (JStr s) rest.
Proof.
  unfold quote. cbn [app parse_value skip_ws].
  change (isJsonSpace 34) with false. cbv iota.
  change (34 =? 123) with false. change (34 =? 91) with false.
  change (34 =? 34) with true. cbv iota.
  rewrite <- app_assoc. cbn [app]. now rewrite string_body_quote.
Qed.

(** A value written by [stringify_field] is read back, whatever follows
    it that cannot continue a number. *)
Lemma parse_value_field f fv rest :
  endsNumber rest ->
  parse_value (S f) (stringify_field fv ++ rest) = Parsed (toJson fv) rest.
Proof.
  intros Hend. destruct fv as [s|z]; cbn [stringify_field toJson].
  - apply parse_value_string.
  - destruct (Number_toString_head z) as (c & tl & E & Hc).
    pose proof (parse_number_toString z rest Hend) as Hnum.
    rewrite E in *. cbn [app] in *. now apply parse_value_number.
Qed.

Lemma parse_member f k fv c rest :
  c = 44 \/ c = 125 ->
  parse_members (S (S f)) (stringify_member (k, fv) ++ c :: rest)
  = if c =? 44 then lift (cons (k, toJson fv)) (parse_members (S f) rest)
    else Parsed [(k, toJson fv)] rest.
Proof.
  intros Hc. unfold stringify_member, quote. cbn [fst snd app].
  cbn [parse_members skip_ws]. change (isJsonSpace 34) with false.
  cbv iota. change (34 =? 34) with true. cbv iota.
  rewrite <- !app_assoc. cbn [app]. rewrite string_body_quote.
  cbn [skip_ws]. change (isJsonSpace 58) with false. cbv iota.
  change (58 =? 58) with true. cbv iota.
  rewrite parse_value_field.
  - destruct Hc as [-> | ->]; reflexivity.
  - destruct Hc as [-> | ->]; cbn; repeat split; discriminate.
Qed.

Lemma parse_members_stringify ms : forall m fuel rest,
  (List.length ms + 1 < fuel)%nat ->
  parse_members fuel (join 44 (map stringify_member (m :: ms)) ++ 125 :: rest)
  = Parsed (map memberOf (m :: ms)) rest.
Proof.
  induction ms as [|m' ms IH]; intros [k fv] fuel rest Hfuel.
  - destruct fuel as [|[|f]]; [simpl in Hfuel; lia..|].
    cbn [map join]. rewrite parse_member by now right. reflexivity.
  - destruct fuel as [|[|f]]; [simpl in Hfuel; lia..|].
    change (join 44 (map stringify_member ((k, fv) :: m' :: ms)))
      with (stringify_member (k, fv)
            ++ 44 :: join 44 (map stringify_member (m' :: ms))).
    rewrite <- app_assoc. cbn [app]. rewrite parse_member by now left.
    change (44 =? 44) with true. cbv iota.
    rewrite IH by (simpl in Hfuel; lia). reflexivity.
Qed.

Lemma join_length sep (parts : list jsstring) :
  (List.length parts <= S (List.length (join sep parts)))%nat.
Proof.
  induction parts as [|p [|q parts] IH]; simpl in *; try lia.
  rewrite length_app. simpl. lia.
Qed.

(** [JSON.parse (JSON.stringify o)] is [o], for every flat record. *)
Theorem JSON_parse_stringify (members : list (jsstring * field)) :
  JSON_parse (JSON_stringify members) = Parsed (objectOf members) [].
Proof.
  unfold JSON_parse, JSON_stringify.
  set (text := 123 :: join 44 (map stringify_member members) ++ [125]).
  assert (Hlen : (List.length members + 2
                  <= 2 * List.length text + 1)%nat).
  { unfold text. cbn [List.length]. rewrite length_app.
    pose proof (join_length 44 (map stringify_member members)) as Hj.
    rewrite length_map in Hj. simpl. lia. }
  destruct (2 * List.length text + 2)%nat as [|fuel] eqn:Efuel; [lia|].
  unfold text. cbn [parse_value skip_ws].
  change (isJsonSpace 123) with false. cbv iota.
  change (123 =? 123) with true. cbv iota.
  destruct members as [|m ms].
  - reflexivity.
  - assert (Hq : exists tl, stringify_member m = 34 :: tl)
      by (eexists; reflexivity).
    destruct Hq as [tl Hq].
    assert (Hhead : exists tl',
               join 44 (map stringify_member (m :: ms)) ++ [125]
               = 34 :: tl').
    { cbn [map]. destruct (map stringify_member ms);
        cbn [join]; rewrite Hq; eexists; reflexivity. }
    destruct Hhead as [tl' Hhead].
    rewrite Hhead. cbn [skip_ws]. change (isJsonSpace 34) with false.
    cbv iota. change (34 =? 125) with false. cbv iota.
    rewrite <- Hhead.
    rewrite parse_members_stringify by (simpl in *; lia).
    reflexivity.
Qed.

(** *** Where a full stop can come from *)

Lemma hexdigit_not_dot d : (46 =? hexdigit d) = false.
Proof.
  unfold hexdigit. apply N.eqb_neq. destruct (d <? 10); lia.
Qed.

Lemma uescape_dot c tail :
  contains 46 (uescape c ++ tail) = contains 46 tail.
Proof.
  unfold uescape, hex4. cbn [app contains existsb].
  now rewrite !hexdigit_not_dot.
Qed.

Lemma quote_body_dot_step c r :
  contains 46 (quote_body r) = contains 46 r ->
  (forall d r', r = d :: r' ->
                contains 46 (quote_body r') = contains 46 r') ->
  contains 46 (quote_body (c :: r)) = contains 46 (c :: r).
Proof.
  intros Hr Hr'. cbn [quote_body].
  assert (Hcons : forall x, contains 46 (x :: r) = (46 =? x) || contains 46 r)
    by reflexivity.
  assert (Hesc : forall e, (46 =? e) = false -> (46 =? c) = false ->
                   contains 46 (92 :: e :: quote_body r)
                   = contains 46 (c :: r)).
  { intros e He Hc. rewrite Hcons, Hc. cbn [contains existsb].
    rewrite He. cbn [orb]. exact Hr. }
  destruct (N.eqb_spec c 34) as [->|N34]; [now apply Hesc|].
  destruct (N.eqb_spec c 92) as [->|N92]; [now apply Hesc|].
  destruct (N.eqb_spec c 8) as [->|N8]; [now apply Hesc|].
  destruct (N.eqb_spec c 12) as [->|N12]; [now apply Hesc|].
  destruct (N.eqb_spec c 10) as [->|N10]; [now apply Hesc|].
  destruct (N.eqb_spec c 13) as [->|N13]; [now apply Hesc|].
  destruct (N.eqb_spec c 9) as [->|N9]; [now apply Hesc|].
  assert (Hu : (46 =? c) = false ->
               contains 46 (uescape c ++ quote_body r) = contains 46 (c :: r)).
  { intros Hc. now rewrite uescape_dot, Hcons, Hc. }
  destruct (N.ltb_spec c 32) as [L32|G32].
  { apply Hu. apply N.eqb_neq. lia. }
  destruct (isHighSurrogate c) eqn:Hhigh.
  { destruct (surrogate_plain c (or_introl Hhigh)) as (_ & _ & _).
    assert (Hc : (46 =? c) = false).
    { apply N.eqb_neq. unfold isHighSurrogate in Hhigh.
      apply andb_true_iff in Hhigh as [Hh _]. apply N.leb_le in Hh. lia. }
    destruct r as [|d r'].
    - rewrite <- (app_nil_r (uescape c)), uescape_dot, Hcons, Hc.
      reflexivity.
    - destruct (isLowSurrogate d) eqn:Hlow; [|now apply Hu].
      rewrite Hcons, Hc. cbn [contains existsb]. rewrite Hc. cbn [orb].
      f_equal. exact (Hr' d r' eq_refl). }
  destruct (isLowSurrogate c) eqn:Hlow.
  { apply Hu. apply N.eqb_neq. unfold isLowSurrogate in Hlow.
    apply andb_true_iff in Hlow as [Hl _]. apply N.leb_le in Hl. lia. }
  rewrite Hcons. cbn [contains existsb]. f_equal. exact Hr.
Qed.

(** Quoting neither adds nor removes a full stop. *)
Lemma quote_body_dot s : contains 46 (quote_body s) = contains 46 s.
Proof.
  enough (Hboth : contains 46 (quote_body s) = contains 46 s
                  /\ forall c, contains 46 (quote_body (c :: s))
                               = contains 46 (c :: s)) by apply Hboth.
  induction s as [|a s [IHs IHc]].
  - split; [reflexivity|].
    intros c. apply quote_body_dot_step; [reflexivity|discriminate].
  - split; [apply IHc|].
    intros c. apply quote_body_dot_step; [apply IHc|].
    intros d r' [= <- <-]. exact IHs.
Qed.

Lemma quote_dot s : contains 46 (quote s) = contains 46 s.
Proof.
  unfold quote. cbn [contains existsb]. fold (contains 46 (quote_body s ++ [34])).
  rewrite contains_app, quote_body_dot. cbn. now rewrite orb_false_r.
Qed.

Lemma digits_no_dot n : contains 46 (digits n) = false.
Proof.
  destruct (digits_spec n) as (ds & -> & _ & Hall & _).
  apply contains_false. intros Hin.
  pose proof (proj1 (Forall_forall _ _) Hall 46 Hin) as Hd.
  discriminate.
Qed.

Lemma Number_toString_no_dot z : contains 46 (Number_toString z) = false.
Proof.
  unfold Number_toString. destruct (z <? 0)%Z.
  - cbn [contains existsb]. fold (contains 46 (digits (Z.to_N (- z)))).
    now rewrite digits_no_dot.
  - apply digits_no_dot.
Qed.

Lemma stringify_member_dot m :
  contains 46 (stringify_member m) = memberHas 46 m.
Proof.
  destruct m as [k fv]. unfold stringify_member, memberHas. cbn [fst snd].
  rewrite contains_app, quote_dot. f_equal.
  cbn [contains existsb]. change (46 =? 58) with false. cbn [orb].
  destruct fv as [s|z]; cbn [stringify_field].
  - apply quote_dot.
  - apply Number_toString_no_dot.
Qed.

Lemma contains_join c sep (parts : list jsstring) :
  c <> sep -> contains c (join sep parts) = existsb (contains c) parts.
Proof.
  intros Hc. induction parts as [|p [|q parts] IH].
  - reflexivity.
  - cbn. now rewrite orb_false_r.
  - change (join sep (p :: q :: parts)) with (p ++ sep :: join sep (q :: parts)).
    rewrite contains_app. cbn [contains existsb].
    fold (contains c (join sep (q :: parts))). rewrite IH.
    destruct (N.eqb_spec c sep); [contradiction|]. reflexivity.
Qed.

(** The text of a record holds a full stop exactly when one of its keys
    or string values does. *)
Lemma JSON_stringify_dot members :
  contains 46 (JSON_stringify members) = existsb (memberHas 46) members.
Proof.
  unfold JSON_stringify. cbn [contains existsb].
  fold (contains 46 (join 44 (map stringify_member members) ++ [125])).
  rewrite contains_app, contains_join by discriminate.
  cbn. rewrite orb_false_r.
  induction members as [|m members IH]; [reflexivity|].
  cbn [map existsb]. now rewrite stringify_member_dot, IH.
Qed.

(** *** The fuel of [JSON_parse] is enough *)

Lemma skip_ws_length s : (List.length (skip_ws s) <= List.length s)%nat.
Proof.
  induction s as [|c s IH]; simpl; [lia|].
  destruct (isJsonSpace c); simpl; lia.
Qed.

Lemma consTo_some c o t rest :
  consTo c o = Some (t, rest) -> exists t', o = Some (t', rest).
Proof.
  destruct o as [[t' r]|]; simpl; [|discriminate].
  intros [= _ <-]. now exists t'.
Qed.

Lemma string_body_length s : forall t rest,
  string_body s = Some (t, rest) -> (List.length rest < List.length s)%nat.
Proof.
  remember (List.length s) as n eqn:Hn. revert s Hn.
  induction n as [n IHn] using lt_wf_ind. intros s Hn.
  assert (IH : forall s', (List.length s' < List.length s)%nat ->
                 forall t rest, string_body s' = Some (t, rest) ->
                                (List.length rest < List.length s')%nat).
  { intros s' Hlt. apply (IHn (List.length s')); [lia|reflexivity]. }
  clear IHn. subst n.
  intros t rest. destruct s as [|c r]; [discriminate|]. cbn [string_body].
  destruct (c =? 34); [intros [= _ <-]; simpl; lia|].
  destruct (c =? 92).
  - destruct r as [|e r1]; [discriminate|].
    destruct (e =? 117).
    + destruct r1 as [|h1 [|h2 [|h3 [|h4 r2]]]]; try discriminate.
      destruct (hexval h1), (hexval h2), (hexval h3), (hexval h4);
        try discriminate.
      intros E. apply consTo_some in E as [t' E].
      apply IH in E; simpl in *; lia.
    + destruct (unescape e); [|discriminate].
      intros E. apply consTo_some in E as [t' E].
      apply IH in E; simpl in *; lia.
  - destruct (c <? 32); [discriminate|].
    intros E. apply consTo_some in E as [t' E].
    apply IH in E; simpl in *; lia.
Qed.

Lemma take_digits_length s :
  (List.length (snd (take_digits s)) <= List.length s)%nat.
Proof.
  induction s as [|c s IH]; simpl; [lia|].
  destruct (isDigit c); simpl; [|lia].
  destruct (take_digits s); simpl in *. lia.
Qed.

Lemma parse_number_length s q rest :
  parse_number s = Some (q, rest) -> (List.length rest <= List.length s)%nat.
Proof.
  unfold parse_number.
  assert (Hsign : (List.length (snd (number_sign s)) <= List.length s)%nat).
  { destruct s as [|c r]; simpl; [lia|]. destruct (c =? 45); simpl; lia. }
  destruct (number_sign s) as [neg s1]. cbn [snd] in Hsign.
  pose proof (take_digits_length s1) as Hint.
  destruct (take_digits s1) as [ip s2]. cbn [snd] in Hint.
  destruct ip as [|d tl]; [discriminate|].
  destruct ((d =? 0) && negb (isNil tl)); [discriminate|].
  assert (Hfrac : forall fd s3, number_frac s2 = Some (fd, s3) ->
                    (List.length s3 <= List.length s2)%nat).
  { intros fd s3. unfold number_frac. destruct s2 as [|c r]; [now intros [= _ <-]|].
    destruct (c =? 46); [|now intros [= _ <-]].
    pose proof (take_digits_length r) as Hr.
    destruct (take_digits r) as [fd' s3']. cbn [snd] in Hr.
    destruct (isNil fd'); [discriminate|]. intros [= _ <-]. simpl. lia. }
  destruct (number_frac s2) as [[fd s3]|]; [|discriminate].
  specialize (Hfrac fd s3 eq_refl).
  assert (Hexp : forall e s4, number_exp s3 = Some (e, s4) ->
                   (List.length s4 <= List.length s3)%nat).
  { intros e s4. unfold number_exp. destruct s3 as [|c r]; [now intros [= _ <-]|].
    destruct ((c =? 101) || (c =? 69)); [|now intros [= _ <-]].
    assert (Hr' : forall eneg r',
               match r with
               | sg :: r0 =>
                   if sg =? 45 then (true, r0)
                   else if sg =? 43 then (false, r0) else (false, r)
               | [] => (false, r)
               end = (eneg, r') -> (List.length r' <= List.length r)%nat).
    { intros eneg r'. destruct r as [|sg r0]; [now intros [= _ <-]|].
      destruct (sg =? 45); [intros [= _ <-]; simpl; lia|].
      destruct (sg =? 43); intros [= _ <-]; simpl; lia. }
    destruct (match r with [] => _ | _ => _ end) as [eneg r'].
    specialize (Hr' eneg r' eq_refl).
    pose proof (take_digits_length r') as Hd.
    destruct (take_digits r') as [ed s4']. cbn [snd] in Hd.
    destruct (isNil ed); [discriminate|]. intros [= _ <-]. simpl. lia. }
  destruct (number_exp s3) as [[e s4]|]; [|discriminate].
  specialize (Hexp e s4 eq_refl).
  intros [= _ <-]. lia.
Qed.

Lemma lift_parsed {A B} (g : A -> B) (r : parsed A) b rest :
  lift g r = Parsed b rest -> exists a, r = Parsed a rest.
Proof. destruct r; simpl; try discriminate. intros [= _ <-]. eauto. Qed.

Lemma lift_nofuel {A B} (g : A -> B) (r : parsed A) :
  lift g r = NoFuel -> r = NoFuel.
Proof. now destruct r. Qed.

Ltac ws x c r :=
  let H := fresh "Hws" in
  pose proof (skip_ws_length x) as H;
  destruct (skip_ws x) as [|c r]; cbn [List.length] in H.

(** What a parser leaves is no longer than what it was given. *)
Lemma parse_length fuel :
  (forall s v rest, parse_value fuel s = Parsed v rest ->
                    (List.length rest <= List.length s)%nat)
  /\ (forall s l rest, parse_elements fuel s = Parsed l rest ->
                       (List.length rest <= List.length s)%nat)
  /\ (forall s l rest, parse_members fuel s = Parsed l rest ->
                       (List.length rest <= List.length s)%nat).
Proof.
  induction fuel as [|f (IHv & IHe & IHm)];
    [repeat split; discriminate|].
  split; [|split].
  - intros s v rest. cbn [parse_value].
    ws s c r; [discriminate|].
    destruct (c =? 123).
    { ws r c1 r1; [discriminate|].
      destruct (c1 =? 125); [intros [= _ <-]; lia|].
      intros E. apply lift_parsed in E as [a E]. apply IHm in E.
      simpl in *. lia. }
    destruct (c =? 91).
    { ws r c1 r1; [discriminate|].
      destruct (c1 =? 93); [intros [= _ <-]; lia|].
      intros E. apply lift_parsed in E as [a E]. apply IHe in E.
      simpl in *. lia. }
    destruct (c =? 34).
    { destruct (string_body r) as [[str r']|] eqn:E; [|discriminate].
      apply string_body_length in E. intros [= _ <-]. lia. }
    destruct (startsWith _ (js "true"));
      [intros [= _ <-]; pose proof (length_skipn 4 (c :: r)); simpl in *; lia|].
    destruct (startsWith _ (js "false"));
      [intros [= _ <-]; pose proof (length_skipn 5 (c :: r)); simpl in *; lia|].
    destruct (startsWith _ (js "null"));
      [intros [= _ <-]; pose proof (length_skipn 4 (c :: r)); simpl in *; lia|].
    destruct (parse_number (c :: r)) as [[q r']|] eqn:E; [|discriminate].
    apply parse_number_length in E. intros [= _ <-]. simpl in *. lia.
  - intros s l rest. cbn [parse_elements].
    destruct (parse_value f s) as [v r| |] eqn:E; try discriminate.
    apply IHv in E.
    ws r c1 r1; [discriminate|].
    destruct (c1 =? 44).
    { intros E'. apply lift_parsed in E' as [a E']. apply IHe in E'. lia. }
    destruct (c1 =? 93); [|discriminate]. intros [= _ <-]. lia.
  - intros s l rest. cbn [parse_members].
    ws s c r; [discriminate|].
    destruct (c =? 34); [|discriminate].
    destruct (string_body r) as [[k r1]|] eqn:Ek; [|discriminate].
    apply string_body_length in Ek.
    ws r1 c2 r2; [discriminate|].
    destruct (c2 =? 58); [|discriminate].
    destruct (parse_value f r2) as [v r3| |] eqn:E; try discriminate.
    apply IHv in E.
    ws r3 c4 r4; [discriminate|].
    destruct (c4 =? 44).
    { intros E'. apply lift_parsed in E' as [a E']. apply IHm in E'. lia. }
    destruct (c4 =? 125); [|discriminate]. intros [= _ <-]. lia.
Qed.

(** With twice the length of the text the parsers do not run out. *)
Lemma parse_fuel fuel :
  (forall s, (2 * List.length s + 1 <= fuel)%nat ->
             parse_value fuel s <> NoFuel)
  /\ (forall s, (2 * List.length s + 2 <= fuel)%nat ->
                parse_elements fuel s <> NoFuel)
  /\ (forall s, (2 * List.length s + 2 <= fuel)%nat ->
                parse_members fuel s <> NoFuel).
Proof.
  induction fuel as [|f (IHv & IHe & IHm)];
    [repeat split; intros; lia|].
  pose proof (parse_length f) as (Lv & Le & Lm).
  split; [|split].
  - intros s Hs. cbn [parse_value].
    ws s c r; [discriminate|].
    destruct (c =? 123).
    { ws r c1 r1; [discriminate|].
      destruct (c1 =? 125); [discriminate|].
      intros E. apply lift_nofuel in E. revert E. apply IHm.
      simpl in *. lia. }
    destruct (c =? 91).
    { ws r c1 r1; [discriminate|].
      destruct (c1 =? 93); [discriminate|].
      intros E. apply lift_nofuel in E. revert E. apply IHe.
      simpl in *. lia. }
    destruct (c =? 34); [destruct (string_body r) as [[? ?]|]; discriminate|].
    destruct (startsWith _ (js "true")); [discriminate|].
    destruct (startsWith _ (js "false")); [discriminate|].
    destruct (startsWith _ (js "null")); [discriminate|].
    destruct (parse_number (c :: r)) as [[? ?]|]; discriminate.
  - intros s Hs. cbn [parse_elements].
    destruct (parse_value f s) as [v r| |] eqn:E; try discriminate.
    + apply Lv in E.
      ws r c1 r1; [discriminate|].
      destruct (c1 =? 44).
      { intros E'. apply lift_nofuel in E'. revert E'. apply IHe. lia. }
      destruct (c1 =? 93); discriminate.
    + exfalso. revert E. apply IHv. lia.
  - intros s Hs. cbn [parse_members].
    ws s c r; [discriminate|].
    destruct (c =? 34); [|discriminate].
    destruct (string_body r) as [[k r1]|] eqn:Ek; [|discriminate].
    apply string_body_length in Ek.
    ws r1 c2 r2; [discriminate|].
    destruct (c2 =? 58); [|discriminate].
    destruct (parse_value f r2) as [v r3| |] eqn:E; try discriminate.
    + apply Lv in E.
      ws r3 c4 r4; [discriminate|].
      destruct (c4 =? 44).
      { intros E'. apply lift_nofuel in E'. revert E'. apply IHm. lia. }
      destruct (c4 =? 125); discriminate.
    + exfalso. revert E. apply IHv. lia.
Qed.

(** [JSON.parse] returns a value or throws its SyntaxError. *)
Theorem JSON_parse_total text : JSON_parse text <> NoFuel.
Proof.
  unfold JSON_parse.
  pose proof (proj1 (parse_fuel (2 * List.length text + 2)) text) as Hv.
  destruct (parse_value (2 * List.length text + 2) text) as [v rest| |];
    [destruct (isNil (skip_ws rest)); discriminate|discriminate|].
  exfalso. apply Hv; [lia|reflexivity].
Qed.

End JsonFacts.

(** ** Numbers: what the rounding does not show *)

Module NumbersFacts.
Import Numbers.
Local Open Scope Z_scope.

Lemma roundHalfEven_spec (a b : Z) :
  0 <= a -> 0 < b ->
  let m := roundHalfEven a b in
  0 <= m /\ 2 * Z.abs (m * b - a) <= b /\ m <= a / b + 1
  /\ (a mod b = 0 -> m * b = a).
Proof.
  intros Ha Hb. unfold roundHalfEven. cbv zeta.
  pose proof (Z.div_mod a b ltac:(lia)) as Hdiv.
  pose proof (Z.mod_pos_bound a b Hb) as Hmod.
  pose proof (Z.div_pos a b Ha Hb) as Hq.
  set (q := a / b) in *. set (r := a mod b) in *.
  assert (Hqb : q * b = b * q) by apply Z.mul_comm.
  destruct (Z.ltb_spec (2 * r) b).
  - repeat split; try lia.
  - destruct (Z.ltb_spec b (2 * r)).
    + repeat split; try lia.
    + destruct (Z.even q); repeat split; try lia.
Qed.

Lemma pow2_pos (e : Z) : 0 <= e -> 0 < 2 ^ e.
Proof. intros He. apply Z.pow_pos_nonneg; lia. Qed.

(** The rounding of a magnitude below [2^k]: no overflow, an error of at
    most half a unit in the last place of that range, and no error at
    all on a multiple of that unit. *)
Lemma magnitude_spec (k a d : Z) :
  0 <= a -> 0 < d -> 0 <= k <= 1000 -> a < d * 2 ^ k ->
  let unit := 2 ^ Z.max (k + 1021) 0 in
  exists m,
    magnitude a d = Some m /\ 0 <= m
    /\ 2 * Z.abs (m * d - a * grid) <= d * unit
    /\ ((a * grid) mod (d * unit) = 0 -> m * d = a * grid).
Proof.
  intros Ha Hd Hk Hlt unit. unfold magnitude. cbv zeta.
  assert (Hgrid : 0 < grid) by (apply pow2_pos; lia).
  set (scaled := a * grid).
  assert (Hscaled : 0 <= scaled) by (unfold scaled; nia).
  assert (Hquot : scaled / d < 2 ^ (k + 1074)).
  { apply Z.div_lt_upper_bound; [exact Hd|].
    rewrite Z.pow_add_r by lia. fold grid. unfold scaled.
    pose proof (pow2_pos k ltac:(lia)). nia. }
  pose proof (Z.div_pos scaled d Hscaled Hd) as Hquot0.
  set (e := Z.max (Z.log2 (scaled / d) - 52) 0).
  assert (He : 0 <= e <= Z.max (k + 1021) 0).
  { unfold e. split; [lia|].
    destruct (Z.eq_dec (scaled / d) 0) as [E|E].
    - rewrite E. cbn. lia.
    - assert (Z.log2 (scaled / d) < k + 1074)
        by (apply Z.log2_lt_pow2; lia).
      lia. }
  assert (Hpe : 0 < 2 ^ e) by (apply pow2_pos; lia).
  assert (Hunit : unit = 2 ^ e * 2 ^ (Z.max (k + 1021) 0 - e)).
  { unfold unit. rewrite <- Z.pow_add_r by lia. f_equal. lia. }
  assert (Hrest : 0 < 2 ^ (Z.max (k + 1021) 0 - e))
    by (apply pow2_pos; lia).
  set (b := d * 2 ^ e).
  assert (Hb : 0 < b) by (unfold b; nia).
  destruct (roundHalfEven_spec scaled b Hscaled Hb)
    as (Hm0 & Herr & Hup & Hexact).
  set (m := roundHalfEven scaled b) in *.
  assert (Hmb : m * 2 ^ e * d = m * b) by (unfold b; ring).
  assert (Hover : m * 2 ^ e < 2 ^ 2098).
  { assert (Hqb : scaled / b * 2 ^ e <= scaled / d).
    { apply Z.div_le_lower_bound; [exact Hd|].
      pose proof (Z.mul_div_le scaled b Hb) as Hle.
      unfold b in Hle at 1. nia. }
    assert (H1 : m * 2 ^ e <= scaled / d + 2 ^ e) by nia.
    assert (H2 : 2 ^ (k + 1074) <= 2 ^ 2097)
      by (apply Z.pow_le_mono_r; lia).
    assert (H3 : 2 ^ e <= 2 ^ 2097)
      by (apply Z.pow_le_mono_r; lia).
    assert (H4 : 2 ^ 2098 = 2 * 2 ^ 2097)
      by (change 2098 with (Z.succ 2097); rewrite Z.pow_succ_r; lia).
    lia. }
  destruct (Z.leb_spec (2 ^ 2098) (m * 2 ^ e)); [lia|].
  exists (m * 2 ^ e). split; [reflexivity|].
  split; [nia|]. rewrite Hmb. split.
  - unfold b in Herr at 2. rewrite Hunit. nia.
  - intros Hmod. apply Hexact.
    apply Z.mod_divide in Hmod; [|nia].
    apply Z.mod_divide; [lia|].
    apply Z.divide_trans with (d * unit); [|exact Hmod].
    exists (2 ^ (Z.max (k + 1021) 0 - e)). unfold b. rewrite Hunit. ring.
Qed.

Lemma toDouble_spec (k : Z) (q : Q) :
  0 <= k <= 1000 -> Z.abs (Qnum q) < Zpos (Qden q) * 2 ^ k ->
  let unit := 2 ^ Z.max (k + 1021) 0 in
  exists z,
    toDouble q = Finite (Qmake z (Z.to_pos grid))
    /\ 2 * Z.abs (z * Zpos (Qden q) - Qnum q * grid) <= Zpos (Qden q) * unit
    /\ ((Qnum q * grid) mod (Zpos (Qden q) * unit) = 0 ->
        z * Zpos (Qden q) = Qnum q * grid).
Proof.
  intros Hk Hlt unit. destruct q as [n d]. cbn [Qnum Qden] in *.
  destruct (magnitude_spec k (Z.abs n) (Zpos d) ltac:(lia) ltac:(lia) Hk Hlt)
    as (m & Hm & Hm0 & Herr & Hexact).
  fold unit in Herr, Hexact.
  unfold toDouble. cbn [Qnum Qden]. rewrite Hm.
  exists (Z.sgn n * m). split; [reflexivity|].
  assert (Hunit : 0 < Zpos d * unit).
  { unfold unit. pose proof (pow2_pos (Z.max (k + 1021) 0) ltac:(lia)). nia. }
  destruct (Z.abs_spec n) as [[Hn Habs]|[Hn Habs]]; rewrite Habs in *.
  - destruct (Z.eq_dec n 0) as [->|Hn0].
    + cbn [Z.sgn]. rewrite !Z.mul_0_l in *. cbn [Z.sub Z.abs Z.opp].
      split; [lia|reflexivity].
    + rewrite Z.sgn_pos by lia. rewrite Z.mul_1_l. split; [exact Herr|].
      exact Hexact.
  - rewrite Z.sgn_neg by lia.
    replace (-1 * m * Zpos d - n * grid) with (- (m * Zpos d - - n * grid))
      by ring.
    rewrite Z.abs_opp. split; [exact Herr|].
    intros Hmod.
    assert (E : m * Zpos d = - n * grid).
    { apply Hexact. apply Z.mod_divide; [lia|].
      apply Z.mod_divide in Hmod; [|lia].
      replace (- n * grid) with (- (n * grid)) by ring.
      now apply Z.divide_opp_r. }
    lia.
Qed.

(** Nothing is greater than a NaN. *)
Lemma number_gt_NaN (a : number) : number_gt a NaN = false.
Proof. now destruct a as [|[|]|x]. Qed.

Lemma number_gt_finite (x y : Z) (p : positive) :
  number_gt (Finite (Qmake x p)) (Finite (Qmake y p)) = (y <? x).
Proof.
  cbn [number_gt]. unfold Qle_bool. cbn [Qnum Qden].
  destruct (Z.leb_spec (x * Zpos p) (y * Zpos p));
    destruct (Z.ltb_spec y x); cbn [negb]; try reflexivity; nia.
Qed.

(** The comparison the verifier makes, [Date.now() / 1000 > exp], for a
    clock a Date can hold and an expiry in whole seconds: the division
    and the two roundings do not show. *)
Lemma toDouble_gt_seconds (now e : Z) :
  timeValue now -> Z.abs e < 2 ^ 53 ->
  number_gt (toDouble (Qmake now 1000)) (toDouble (Qmake e 1))
  = (1000 * e <? now).
Proof.
  intros Hnow He. unfold timeValue in Hnow.
  destruct (toDouble_spec 43 (Qmake now 1000) ltac:(lia))
    as (z1 & Hz1 & Herr & Hexact).
  { cbn [Qnum Qden]. change (2 ^ 43) with 8796093022208. lia. }
  destruct (toDouble_spec 53 (Qmake e 1) ltac:(lia))
    as (z2 & Hz2 & _ & Hexact2).
  { cbn [Qnum Qden]. lia. }
  cbn [Qnum Qden] in *.
  rewrite Hz1, Hz2, number_gt_finite.
  change (Z.max (43 + 1021) 0) with 1064 in *.
  change (Z.max (53 + 1021) 0) with 1074 in *.
  assert (Hgrid : grid = 1024 * 2 ^ 1064).
  { unfold grid. change 1074 with (10 + 1064).
    rewrite Z.pow_add_r by lia. reflexivity. }
  pose proof (pow2_pos 1064 ltac:(lia)) as Hg.
  set (g := 2 ^ 1064) in *.
  assert (Hz2e : z2 = e * grid).
  { rewrite <- (Z.mul_1_r z2). apply Hexact2.
    fold grid. rewrite Z.mul_1_l. apply Z.mod_mul. lia. }
  clear Hexact2. rewrite Hz2e, Hgrid in *.
  destruct (Z.ltb_spec (1000 * e) now) as [Hlt|Hle];
    destruct (Z.ltb_spec (e * (1024 * g)) z1) as [Hlt'|Hle'];
    try reflexivity; exfalso.
  - assert (now * g >= (1000 * e + 1) * g) by nia. lia.
  - destruct (Z.eq_dec now (1000 * e)) as [->|Hne].
    + assert (E : z1 * 1000 = 1000 * e * (1024 * g)).
      { apply Hexact. apply Z.mod_divide; [lia|].
        exists (1024 * e). ring. }
      lia.
    + assert (now * g <= (1000 * e - 1) * g) by nia. lia.
Qed.

End NumbersFacts.

(** ** The identity cache *)

Module DidSqlCacheFacts.
Import Js JsFacts DidSqlCache.

Section Facts.
Context {DidDocument : Type}.
Implicit Types (table : Table DidDocument) (r : Row DidDocument).
Implicit Types (ops : list (Op DidDocument)) (o : Op DidDocument).

Lemma hasDid_true d r : hasDid d r = true <-> row_did r = d.
Proof. apply eqb_eq. Qed.

Lemma existsb_hasDid d table :
  existsb (hasDid d) table = true <-> In d (keys table).
Proof.
  unfold keys. rewrite existsb_exists, in_map_iff.
  split; intros [r Hr]; exists r; rewrite hasDid_true in *; tauto.
Qed.

Lemma find_none_absent d table :
  existsb (hasDid d) table = false -> find (hasDid d) table = None.
Proof.
  induction table as [|r table IH]; simpl; [reflexivity|].
  destruct (hasDid d r); simpl; [discriminate|exact IH].
Qed.

Lemma overwrite_did t d document r :
  row_did (overwrite t d document r) = row_did r.
Proof. unfold overwrite. now destruct (hasDid d r). Qed.

Lemma keys_overwrite t d document table :
  keys (map (overwrite t d document) table) = keys table.
Proof.
  unfold keys. rewrite map_map. apply map_ext. apply overwrite_did.
Qed.

Lemma cacheDid_eq t1 t2 d document table :
  cacheDid t1 t2 d document table
  = if existsb (hasDid d) table
    then map (overwrite t2 d document) table
    else table ++ [{| row_did := d; row_doc := document;
                      row_updatedAt := t1 |}].
Proof. reflexivity. Qed.

Lemma cacheDid_keys_NoDup t1 t2 d document table :
  NoDup (keys table) -> NoDup (keys (cacheDid t1 t2 d document table)).
Proof.
  intros ND. rewrite cacheDid_eq.
  destruct (existsb (hasDid d) table) eqn:E.
  - now rewrite keys_overwrite.
  - unfold keys. rewrite map_app. simpl.
    apply NoDup_app; [exact ND| |].
    + constructor; [intros []|constructor].
    + intros k Hk [<-|[]].
      apply existsb_hasDid in Hk. congruence.
Qed.

Lemma step_keys_NoDup table o :
  NoDup (keys table) -> NoDup (keys (step table o)).
Proof.
  destruct o; simpl; [apply cacheDid_keys_NoDup|intros _; constructor].
Qed.

Lemma fold_keys_NoDup ops table :
  NoDup (keys table) -> NoDup (keys (fold_left step ops table)).
Proof.
  revert table; induction ops as [|o ops IH]; intros table ND; simpl;
    [exact ND|].
  apply IH, step_keys_NoDup, ND.
Qed.

Lemma run_keys_NoDup ops : NoDup (keys (run ops)).
Proof. apply fold_keys_NoDup. constructor. Qed.

Lemma rowsOf_absent d table :
  ~ In d (keys table) -> rowsOf d table = [].
Proof.
  induction table as [|r table IH]; simpl; [reflexivity|].
  intros Hn. destruct (hasDid d r) eqn:E.
  - apply hasDid_true in E. tauto.
  - apply IH. tauto.
Qed.

(** Under the key invariant an identity present in the table has one row. *)
Lemma rowsOf_present d table :
  NoDup (keys table) -> In d (keys table) ->
  exists r, rowsOf d table = [r] /\ row_did r = d.
Proof.
  induction table as [|r table IH]; simpl; [intros _ []|].
  intros ND Hin. inversion ND as [|k ks Hk ND']; subst.
  destruct (hasDid d r) eqn:E.
  - apply hasDid_true in E. exists r. split; [|exact E].
    f_equal. apply rowsOf_absent. now rewrite <- E.
  - destruct Hin as [Hd|Hin].
    + rewrite <- hasDid_true in Hd. congruence.
    + now apply IH.
Qed.

Lemma rowsOf_overwrite t d document table :
  rowsOf d (map (overwrite t d document) table)
  = map (overwrite t d document) (rowsOf d table).
Proof.
  induction table as [|r table IH]; simpl; [reflexivity|].
  unfold hasDid at 1. rewrite overwrite_did. fold (hasDid d r).
  destruct (hasDid d r); simpl; now rewrite IH.
Qed.

Lemma cacheDid_present t1 t2 d document table :
  In d (keys (cacheDid t1 t2 d document table)).
Proof.
  rewrite cacheDid_eq. destruct (existsb (hasDid d) table) eqn:E.
  - rewrite keys_overwrite. now apply existsb_hasDid.
  - unfold keys. rewrite map_app. apply in_or_app. right. now left.
Qed.

(** A put on a table that holds the identity rewrites its one row. *)
Lemma rowsOf_cacheDid_conflict t1 t2 d document table :
  NoDup (keys table) -> In d (keys table) ->
  rowsOf d (cacheDid t1 t2 d document table)
  = [{| row_did := d; row_doc := document; row_updatedAt := t2 |}].
Proof.
  intros ND Hin. rewrite cacheDid_eq.
  rewrite (proj2 (existsb_hasDid d table) Hin).
  rewrite rowsOf_overwrite.
  destruct (rowsOf_present d table ND Hin) as [r [-> Hr]]. simpl.
  unfold overwrite. rewrite (proj2 (hasDid_true d r) Hr). now rewrite Hr.
Qed.

Lemma find_rowsOf d table :
  find (hasDid d) table = hd_error (rowsOf d table).
Proof.
  induction table as [|r table IH]; simpl; [reflexivity|].
  destruct (hasDid d r); [reflexivity|exact IH].
Qed.

Lemma rowsOf_cacheDid t1 t2 d document table :
  NoDup (keys table) ->
  rowsOf d (cacheDid t1 t2 d document table)
  = [{| row_did := d; row_doc := document;
        row_updatedAt := storedAt t1 t2 d table |}].
Proof.
  intros ND. unfold storedAt.
  destruct (existsb (hasDid d) table) eqn:E.
  - apply rowsOf_cacheDid_conflict; [exact ND|now apply existsb_hasDid].
  - rewrite cacheDid_eq, E. unfold rowsOf. rewrite filter_app.
    fold (rowsOf d table). rewrite rowsOf_absent.
    + simpl. unfold hasDid. simpl. now rewrite eqb_refl.
    + intros Hin. apply existsb_hasDid in Hin. congruence.
Qed.

Lemma fold_no_write d ops table :
  forallb (fun o => negb (writes d o)) ops = true ->
  ~ In d (keys table) -> ~ In d (keys (fold_left step ops table)).
Proof.
  revert table; induction ops as [|o ops IH]; intros table Hops Hn; simpl;
    [exact Hn|].
  simpl in Hops. apply andb_true_iff in Hops as [Ho Hops].
  apply IH; [exact Hops|].
  destruct o as [t1 t2 d' document|]; simpl; [|intros []].
  simpl in Ho. apply negb_true_iff, eqb_neq in Ho.
  rewrite cacheDid_eq. destruct (existsb (hasDid d') table).
  - now rewrite keys_overwrite.
  - unfold keys. rewrite map_app. intros Hin.
    apply in_app_or in Hin as [Hin|[Hd|[]]]; [now apply Hn|].
    simpl in Hd. congruence.
Qed.

End Facts.

(** C6.  A read of an identity that no write has put returns absent.
    After a put, a read at time [now] returns the document just put, the
    timestamp the put stored, and [expired] computed at the read as
    [now > updatedAt + ttl]: false up to [ttl] after the put (so at the
    instant of the put, for a [ttl] that is not negative), true once more
    than [ttl] has elapsed, on the same stored row. *)
Theorem checkCache_absent_then_fresh_then_expired
    {DidDocument : Type} (ops : list (Op DidDocument))
    (tInsert tUpdate : Z) (d : jsstring) (document : DidDocument)
    (ttl : Z) :
  let before := run ops in
  let after := cacheDid tInsert tUpdate d document before in
  let t := storedAt tInsert tUpdate d before in
  (Z.abs t <= 8640000000000000)%Z ->
  (forall now, forallb (fun o => negb (writes d o)) ops = true ->
               checkCache now ttl d before = None)
  /\ (forall now, checkCache now ttl d after
                  = Some {| doc := document; updatedAt := Some t; did := d;
                            expired := (t + ttl <? now)%Z |})
  /\ (forall now, (now <= t + ttl)%Z ->
                  option_map expired (checkCache now ttl d after) = Some false)
  /\ ((0 <= ttl)%Z ->
      option_map expired (checkCache t ttl d after) = Some false)
  /\ (forall now, (t + ttl < now)%Z ->
                  checkCache now ttl d after
                  = Some {| doc := document; updatedAt := Some t; did := d;
                            expired := true |}).
Proof.
  intros before after t Ht.
  assert (Hget : forall now, checkCache now ttl d after
                 = Some {| doc := document; updatedAt := Some t; did := d;
                           expired := (t + ttl <? now)%Z |}).
  { intros now. unfold checkCache. rewrite find_rowsOf.
    unfold after. rewrite rowsOf_cacheDid by apply run_keys_NoDup.
    simpl. fold t. unfold Date_getTime.
    destruct (Z.leb_spec (Z.abs t) 8640000000000000); [reflexivity|lia]. }
  split; [|split; [exact Hget|split; [|split]]].
  - intros now Hops. unfold checkCache. rewrite find_rowsOf.
    rewrite rowsOf_absent; [reflexivity|].
    apply fold_no_write; [exact Hops|intros []].
  - intros now Hnow. rewrite Hget. simpl. f_equal. apply Z.ltb_ge. lia.
  - intros Httl. rewrite Hget. simpl. f_equal. apply Z.ltb_ge. lia.
  - intros now Hnow. rewrite Hget. do 2 f_equal. apply Z.ltb_lt. lia.
Qed.

Lemma checkCache_absent_then_fresh_then_expired_witness :
  let ops := [OpCacheDid 5 6 (js "did:plc:bob") 1%nat; OpClear;
              OpCacheDid 7 8 (js "did:plc:bob") 2%nat] in
  checkCache 1000 300 (js "did:plc:alice") (run ops) = None
  /\ checkCache 1300 300 (js "did:plc:alice")
       (cacheDid 1000 1001 (js "did:plc:alice") 3%nat (run ops))
     = Some {| doc := 3%nat; updatedAt := Some 1000%Z;
               did := js "did:plc:alice"; expired := false |}
  /\ checkCache 1301 300 (js "did:plc:alice")
       (cacheDid 1000 1001 (js "did:plc:alice") 3%nat (run ops))
     = Some {| doc := 3%nat; updatedAt := Some 1000%Z;
               did := js "did:plc:alice"; expired := true |}.
Proof.
  intros ops.
  destruct (checkCache_absent_then_fresh_then_expired ops 1000 1001
              (js "did:plc:alice") 3%nat 300) as (H1 & H2 & _ & _ & H5).
  - vm_compute. discriminate.
  - split; [apply H1; reflexivity|].
    split; [exact (H2 1300%Z)|].
    apply H5. vm_compute. reflexivity.
Defined.

(** C7.  Whatever the cache held, two successive puts for one identity
    leave exactly one row for it, with the second document and the
    timestamp of the second put (its update reading, the first put having
    created the conflict); no identity has two rows. *)
Theorem cacheDid_twice_one_row
    {DidDocument : Type} (ops : list (Op DidDocument))
    (t1 t2 t3 t4 : Z) (d : jsstring) (doc1 doc2 : DidDocument) :
  let table := cacheDid t3 t4 d doc2 (cacheDid t1 t2 d doc1 (run ops)) in
  rowsOf d table
  = [{| row_did := d; row_doc := doc2; row_updatedAt := t4 |}]
  /\ NoDup (map row_did table).
Proof.
  intros table. split.
  - apply rowsOf_cacheDid_conflict.
    + apply cacheDid_keys_NoDup, run_keys_NoDup.
    + apply cacheDid_present.
  - apply (cacheDid_keys_NoDup t3 t4 d doc2).
    apply cacheDid_keys_NoDup, run_keys_NoDup.
Qed.

End DidSqlCacheFacts.

(** ** The federated verifier *)

Module BskyAuthFacts.
Import Js JsFacts Json Numbers NumbersFacts Lib Http BskyAuth.

Section Facts.
Context `{Uint8Arrays} `{DidResolver} `{Crypto} `{Conversions}.

Lemma member_not_null payload key :
  payload <> JNull -> member payload key = Some (property payload key).
Proof. destruct payload; [congruence|reflexivity..]. Qed.

(** The expiry test for a clock a Date can hold and an expiry in whole
    seconds. *)
Lemma expired_seconds now e :
  timeValue now -> (Z.abs e < 2 ^ 53)%Z ->
  expired now (Some (JNum (Qmake e 1))) = Some (1000 * e <? now)%Z.
Proof.
  intros Hnow He. unfold expired, nowSeconds. cbn [ToNumber].
  now rewrite toDouble_gt_seconds.
Qed.

(** The verifier on a token of three segments whose second one is JSON:
    it fails with JwtExpired exactly on the expiry test, whatever the
    signature is. *)
Lemma verifyJwt_expiry now jwtStr part0 part1 sig payload rest :
  split 46 jwtStr = [part0; part1; sig] ->
  parseB64UrlToJson part1 = Parsed payload rest ->
  (verifyJwt now jwtStr = Some (Throws JwtExpired)
   <-> payload <> JNull
       /\ expired now (property payload (js "exp")) = Some true).
Proof.
  intros Hsplit Hparse. unfold verifyJwt. rewrite Hsplit, Hparse.
  destruct payload as [|b|q|s|l|members];
    [split; [discriminate|intros [E _]; congruence]|..];
    cbn [member];
    (destruct (expired now _) as [[|]|];
     [split; [intros _; split; [discriminate|reflexivity]|reflexivity]
     |split; [|intros [_ E]; discriminate]
     |split; [discriminate|intros [_ E]; discriminate]]);
    (destruct (fromString_base64url sig); [|discriminate]);
    (destruct (property _ (js "iss")) as [[| | |iss| |]|]; try discriminate);
    (destruct (resolveAtpData iss); [|discriminate]);
    destruct (verifySignature _ _ _) as [[|]|]; discriminate.
Qed.

(** Past the expiry test: the signature. *)
Lemma verifyJwt_unexpired now jwtStr part0 part1 sig payload rest :
  split 46 jwtStr = [part0; part1; sig] ->
  parseB64UrlToJson part1 = Parsed payload rest ->
  payload <> JNull ->
  expired now (property payload (js "exp")) = Some false ->
  verifyJwt now jwtStr
  = match fromString_base64url sig with
    | None => Some (Throws (SyntaxError "ui8.fromString"))
    | Some sigBytes =>
        match property payload (js "iss") with
        | Some (JStr iss) =>
            match resolveAtpData iss with
            | inr reason => Some (Throws (ResolverError reason))
            | inl atpData =>
                match verifySignature (signingKey atpData)
                        (fromString_utf8 (join 46 [part0; part1]))
                        sigBytes with
                | None => Some (Throws BadJwtSignature)
                | Some false => Some (Throws BadJwtSig)
                | Some true => Some (Returns iss)
                end
            end
        | other =>
            Some (Throws (ResolverError (resolveAtpData_other other)))
        end
    end.
Proof.
  intros Hsplit Hparse Hnull Hexp. unfold verifyJwt.
  rewrite Hsplit, Hparse, (member_not_null _ _ Hnull), Hexp. reflexivity.
Qed.

Lemma verifyJwt_throws now jwtStr e :
  verifyJwt now jwtStr = Some (Throws e) ->
  typedFailure e \/ propagated e \/ runtimeFailure e.
Proof.
  unfold verifyJwt, typedFailure, propagated, runtimeFailure.
  destruct (split 46 jwtStr) as [|part0 [|part1 [|sig [|]]]];
    try (intros [= <-]; tauto).
  destruct (parseB64UrlToJson part1) as [payload rest| |];
    [|intros [= <-]; tauto|discriminate].
  destruct (member payload (js "exp")) as [exp|]; [|intros [= <-]; tauto].
  destruct (expired now exp) as [[|]|]; try (intros [= <-]; tauto).
  destruct (fromString_base64url sig) as [sigBytes|];
    [|intros [= <-]; tauto].
  destruct (property payload (js "iss")) as [[| | |iss| |]|];
    try (intros [= <-]; right; left; right; right; eexists; reflexivity).
  destruct (resolveAtpData iss) as [atpData|reason];
    [|intros [= <-]; right; left; right; right; now exists reason].
  destruct (verifySignature _ _ _) as [[|]|]; intros [= <-]; tauto.
Qed.

(** The verifier answers every string: it returns or it throws. *)
Lemma verifyJwt_total now jwtStr : verifyJwt now jwtStr <> None.
Proof.
  unfold verifyJwt.
  destruct (split 46 jwtStr) as [|part0 [|part1 [|sig [|]]]];
    try discriminate.
  destruct (parseB64UrlToJson part1) as [payload rest| |] eqn:Hparse;
    [|discriminate|].
  - destruct (member payload (js "exp")) as [exp|]; [|discriminate].
    destruct (expired now exp) as [[|]|]; try discriminate.
    destruct (fromString_base64url sig); [|discriminate].
    destruct (property payload (js "iss")) as [[| | |iss| |]|];
      try discriminate.
    destruct (resolveAtpData iss); [|discriminate].
    destruct (verifySignature _ _ _) as [[|]|]; discriminate.
  - intros _. exact (JsonFacts.JSON_parse_total _ Hparse).
Qed.

End Facts.

(** C1.  On a token of three segments whose second one is JSON with a
    number as [exp], the verifier fails with JwtExpired exactly when
    [Date.now() / 1000 > exp] as the code computes it, on doubles, and
    this whatever the signature is: the expiry comes first.  For a clock
    a Date can hold and an expiry in whole seconds that is exactly when
    the clock is past the expiry, by a millisecond or more.  When the
    signature checks out the token is accepted exactly when it has not
    expired, so in particular when the current second equals [exp]. *)
Theorem verifyJwt_expiry_exclusive
    `{Uint8Arrays} `{DidResolver} `{Crypto} `{Conversions}
    (now : Z) (jwtStr part0 part1 sig : jsstring) (payload : json)
    (rest : jsstring) :
  split 46 jwtStr = [part0; part1; sig] ->
  parseB64UrlToJson part1 = Parsed payload rest ->
  (forall q, property payload (js "exp") = Some (JNum q) ->
     (verifyJwt now jwtStr = Some (Throws JwtExpired)
      <-> number_gt (nowSeconds now) (toDouble q) = true))
  /\ (forall e, property payload (js "exp") = Some (JNum (Qmake e 1)) ->
        timeValue now -> (Z.abs e < 2 ^ 53)%Z ->
        (verifyJwt now jwtStr = Some (Throws JwtExpired)
         <-> (1000 * e < now)%Z))
  /\ (forall d sigBytes atpData,
        property payload (js "iss") = Some (JStr d) ->
        fromString_base64url sig = Some sigBytes ->
        resolveAtpData d = inl atpData ->
        verifySignature (signingKey atpData)
          (fromString_utf8 (join 46 [part0; part1])) sigBytes = Some true ->
        (forall q, property payload (js "exp") = Some (JNum q) ->
           (verifyJwt now jwtStr = Some (Returns d)
            <-> number_gt (nowSeconds now) (toDouble q) = false))
        /\ (forall e, property payload (js "exp") = Some (JNum (Qmake e 1)) ->
              timeValue now -> (Z.abs e < 2 ^ 53)%Z ->
              (verifyJwt now jwtStr = Some (Returns d)
               <-> (now <= 1000 * e)%Z)
              /\ (now = (1000 * e)%Z ->
                  verifyJwt now jwtStr = Some (Returns d)))).
Proof.
  intros Hsplit Hparse.
  assert (Hnull : forall key v, property payload key = Some v ->
                                payload <> JNull).
  { intros key v Hv ->. discriminate. }
  assert (Hexpired : forall q, property payload (js "exp") = Some (JNum q) ->
            (verifyJwt now jwtStr = Some (Throws JwtExpired)
             <-> number_gt (nowSeconds now) (toDouble q) = true)).
  { intros q Hq.
    rewrite (verifyJwt_expiry now _ _ _ _ _ _ Hsplit Hparse), Hq.
    unfold expired. cbn [ToNumber]. split.
    - intros [_ [= E]]. exact E.
    - intros E. split; [exact (Hnull _ _ Hq)|now rewrite E]. }
  assert (Haccepted : forall d sigBytes atpData q,
            property payload (js "iss") = Some (JStr d) ->
            fromString_base64url sig = Some sigBytes ->
            resolveAtpData d = inl atpData ->
            verifySignature (signingKey atpData)
              (fromString_utf8 (join 46 [part0; part1])) sigBytes
            = Some true ->
            property payload (js "exp") = Some (JNum q) ->
            (verifyJwt now jwtStr = Some (Returns d)
             <-> number_gt (nowSeconds now) (toDouble q) = false)).
  { intros d sigBytes atpData q Hiss Hsig Hres Hver Hq.
    destruct (number_gt (nowSeconds now) (toDouble q)) eqn:E.
    - apply (Hexpired q Hq) in E. rewrite E. split; discriminate.
    - rewrite (verifyJwt_unexpired now _ _ _ _ _ _ Hsplit Hparse
                 (Hnull _ _ Hq)).
      + rewrite Hsig, Hiss, Hres, Hver. tauto.
      + rewrite Hq. unfold expired. cbn [ToNumber]. now rewrite E. }
  assert (Hseconds : forall e, timeValue now -> (Z.abs e < 2 ^ 53)%Z ->
            number_gt (nowSeconds now) (toDouble (Qmake e 1))
            = (1000 * e <? now)%Z).
  { intros e Hnow He. now apply toDouble_gt_seconds. }
  split; [exact Hexpired|]. split.
  - intros e Hq Hnow He. rewrite (Hexpired _ Hq), (Hseconds e Hnow He).
    apply Z.ltb_lt.
  - intros d sigBytes atpData Hiss Hsig Hres Hver.
    split; [intros q; now apply (Haccepted d sigBytes atpData)|].
    intros e Hq Hnow He.
    assert (Hiff : verifyJwt now jwtStr = Some (Returns d)
                   <-> (now <= 1000 * e)%Z).
    { rewrite (Haccepted d sigBytes atpData _ Hiss Hsig Hres Hver Hq),
              (Hseconds e Hnow He).
      rewrite Z.ltb_ge. tauto. }
    split; [exact Hiff|]. intros ->. apply Hiff. lia.
Qed.

(** C2, as the code has it.  The required verifier answers every
    request, and a failure is one of its five kinds of
    AuthRequiredError, or an error of a library that leaves the verifier
    as it is, or a TypeError of the expiry test.  The five kinds are
    pairwise distinct and none of them is one of the other errors.  On a
    token of three segments, in the order of the code: a second segment
    that is not JSON is the SyntaxError of [JSON.parse]; a payload that
    is [null] is a TypeError, and so is an [exp] that cannot be
    converted to a number; past the expiry test, a signature that is not
    base64url is the error of the decoder; then an issuer that does not
    resolve, or is not a string, is the rejection of the resolver; past
    the resolver, a signature check that throws gives BadJwtSignature
    and one that returns false gives BadJwtSig. *)
Theorem verifier_failure_kinds
    `{Uint8Arrays} `{DidResolver} `{Crypto} `{Conversions} (now : Z) :
  (forall req, authVerifier now req <> None)
  /\ (forall req e, authVerifier now req = Some (Throws e) ->
        typedFailure e \/ propagated e \/ runtimeFailure e)
  /\ NoDup [MissingJwt; BadJwt; JwtExpired; BadJwtSignature; BadJwtSig]
  /\ (forall e, typedFailure e -> ~ propagated e /\ ~ runtimeFailure e)
  /\ (forall req jwtStr e,
        getJwtStrFromReq req = Some jwtStr -> jwtStr <> [] ->
        verifyJwt now jwtStr = Some (Throws e) ->
        authVerifier now req = Some (Throws e))
  /\ (forall jwtStr part0 part1 sig,
        split 46 jwtStr = [part0; part1; sig] ->
        parseB64UrlToJson part1 = SyntaxErr ->
        verifyJwt now jwtStr = Some (Throws (SyntaxError "JSON.parse")))
  /\ (forall jwtStr part0 part1 sig rest,
        split 46 jwtStr = [part0; part1; sig] ->
        parseB64UrlToJson part1 = Parsed JNull rest ->
        verifyJwt now jwtStr = Some (Throws (TypeError "payload.exp")))
  /\ (forall jwtStr part0 part1 sig payload rest,
        split 46 jwtStr = [part0; part1; sig] ->
        parseB64UrlToJson part1 = Parsed payload rest ->
        payload <> JNull ->
        expired now (property payload (js "exp")) = None ->
        verifyJwt now jwtStr = Some (Throws (TypeError "ToPrimitive")))
  /\ (forall jwtStr part0 part1 sig payload rest,
        split 46 jwtStr = [part0; part1; sig] ->
        parseB64UrlToJson part1 = Parsed payload rest ->
        payload <> JNull ->
        expired now (property payload (js "exp")) = Some false ->
        fromString_base64url sig = None ->
        verifyJwt now jwtStr = Some (Throws (SyntaxError "ui8.fromString")))
  /\ (forall jwtStr part0 part1 sig payload rest sigBytes,
        split 46 jwtStr = [part0; part1; sig] ->
        parseB64UrlToJson part1 = Parsed payload rest ->
        payload <> JNull ->
        expired now (property payload (js "exp")) = Some false ->
        fromString_base64url sig = Some sigBytes ->
        (forall d reason,
            property payload (js "iss") = Some (JStr d) ->
            resolveAtpData d = inr reason ->
            verifyJwt now jwtStr = Some (Throws (ResolverError reason)))
        /\ ((forall d, property payload (js "iss") <> Some (JStr d)) ->
            verifyJwt now jwtStr
            = Some (Throws (ResolverError
                              (resolveAtpData_other
                                 (property payload (js "iss"))))))
        /\ (forall d atpData,
              property payload (js "iss") = Some (JStr d) ->
              resolveAtpData d = inl atpData ->
              let checked := verifySignature (signingKey atpData)
                               (fromString_utf8 (join 46 [part0; part1]))
                               sigBytes in
              (checked = None ->
               verifyJwt now jwtStr = Some (Throws BadJwtSignature))
              /\ (checked = Some false ->
                  verifyJwt now jwtStr = Some (Throws BadJwtSig)))).
Proof.
  split; [|split; [|split; [|split; [|split; [|split; [|split; [|split;
    [|split]]]]]]]].
  - intros req. unfold authVerifier.
    destruct (getJwtStrFromReq req) as [jwtStr|]; [|discriminate].
    destruct (falsy jwtStr); [discriminate|].
    pose proof (verifyJwt_total now jwtStr) as Htotal.
    destruct (verifyJwt now jwtStr) as [[d|e]|];
      [discriminate|discriminate|congruence].
  - intros req e. unfold authVerifier.
    destruct (getJwtStrFromReq req) as [jwtStr|];
      [|intros [= <-]; left; unfold typedFailure; tauto].
    destruct (falsy jwtStr);
      [intros [= <-]; left; unfold typedFailure; tauto|].
    destruct (verifyJwt now jwtStr) as [[d|e']|] eqn:E; try discriminate.
    intros [= <-]. now apply (verifyJwt_throws now jwtStr).
  - repeat constructor; simpl; intuition discriminate.
  - intros e He. unfold typedFailure, propagated, runtimeFailure in *.
    split.
    + intros [E|[E|[reason E]]];
        destruct He as [-> | [-> | [-> | [-> | ->]]]]; discriminate.
    + intros [E|E];
        destruct He as [-> | [-> | [-> | [-> | ->]]]]; discriminate.
  - intros req jwtStr e Hreq Hne Hthrows. unfold authVerifier.
    rewrite Hreq. destruct jwtStr; [congruence|]. cbn [falsy].
    now rewrite Hthrows.
  - intros jwtStr part0 part1 sig Hsplit Hparse. unfold verifyJwt.
    now rewrite Hsplit, Hparse.
  - intros jwtStr part0 part1 sig rest Hsplit Hparse. unfold verifyJwt.
    now rewrite Hsplit, Hparse.
  - intros jwtStr part0 part1 sig payload rest Hsplit Hparse Hnull Hexp.
    unfold verifyJwt.
    now rewrite Hsplit, Hparse, (member_not_null _ _ Hnull), Hexp.
  - intros jwtStr part0 part1 sig payload rest Hsplit Hparse Hnull Hexp Hsig.
    rewrite (verifyJwt_unexpired now _ _ _ _ _ _ Hsplit Hparse Hnull Hexp).
    now rewrite Hsig.
  - intros jwtStr part0 part1 sig payload rest sigBytes
           Hsplit Hparse Hnull Hexp Hsig.
    rewrite (verifyJwt_unexpired now _ _ _ _ _ _ Hsplit Hparse Hnull Hexp).
    rewrite Hsig. split; [|split].
    + intros d reason Hiss Hres. now rewrite Hiss, Hres.
    + intros Hiss.
      destruct (property payload (js "iss")) as [[| | |d| |]|];
        try reflexivity.
      now elim (Hiss d).
    + intros d atpData Hiss Hres checked. rewrite Hiss, Hres. fold checked.
      split; intros ->; reflexivity.
Qed.

(** C3, the part of the claim that holds.  Without an Authorization
    header the optional verifier returns the anonymous identity and does
    not fail; so it does on a header whose value is empty; on any other
    header it is the required verifier. *)
Theorem authOptionalVerifier_absent_or_same
    `{Uint8Arrays} `{DidResolver} `{Crypto} `{Conversions}
    (now : Z) (req : Request) :
  (authorization req = None ->
   authOptionalVerifier now req = Some (Returns {| cred_did := None |}))
  /\ (authorization req = Some [] ->
      authOptionalVerifier now req = Some (Returns {| cred_did := None |}))
  /\ (forall a, authorization req = Some a -> a <> [] ->
      authOptionalVerifier now req = authVerifier now req).
Proof.
  unfold authOptionalVerifier.
  repeat split.
  - now intros ->.
  - now intros ->.
  - intros a -> Ha. destruct a; [congruence|reflexivity].
Qed.

(** *** Runs on the reference instances *)

Import Ref.

(** The segments of a token of the reference issuer, its parsed payload
    and its decoded signature. *)
Ltac segments token :=
  let Hsplit := fresh "Hsplit" in
  let part0 := fresh "part0" in
  let part1 := fresh "part1" in
  let sig := fresh "sig" in
  destruct (split 46 token) as [|part0 [|part1 [|sig [|]]]] eqn:Hsplit;
  try (vm_compute in Hsplit; discriminate);
  exists part0, part1, sig; split; [reflexivity|];
  vm_compute in Hsplit; injection Hsplit as <- <- <-;
  repeat split; vm_compute; reflexivity.

Lemma aliceToken_segments :
  exists part0 part1 sig,
    split 46 aliceToken = [part0; part1; sig]
    /\ parseB64UrlToJson part1
       = Parsed (JObj [(js "iss", JStr alice);
                       (js "exp", JNum (Qmake 1700000060 1))]) []
    /\ fromString_base64url sig
       = Some (utf8_encode (keyOf alice)
               ++ fromString_utf8 (join 46 [part0; part1])).
Proof. segments aliceToken. Defined.

Lemma forgedToken_segments :
  exists part0 part1 sig,
    split 46 forgedToken = [part0; part1; sig]
    /\ parseB64UrlToJson part1
       = Parsed (JObj [(js "iss", JStr alice);
                       (js "exp", JNum (Qmake 1700000060 1))]) []
    /\ fromString_base64url sig
       = Some (utf8_encode (keyOf mallory)
               ++ fromString_utf8 (join 46 [part0; part1])).
Proof. segments forgedToken. Defined.

Lemma daveToken_segments :
  exists part0 part1 sig,
    split 46 daveToken = [part0; part1; sig]
    /\ parseB64UrlToJson part1
       = Parsed (JObj [(js "iss", JStr dave);
                       (js "exp", JNum (Qmake 1700000060 1))]) []
    /\ fromString_base64url sig
       = Some (utf8_encode (keyOf dave)
               ++ fromString_utf8 (join 46 [part0; part1])).
Proof. segments daveToken. Defined.

Lemma malloryToken_segments :
  exists part0 part1 sig,
    split 46 malloryToken = [part0; part1; sig]
    /\ parseB64UrlToJson part1
       = Parsed (JObj [(js "iss", JStr mallory);
                       (js "exp", JNum (Qmake 1700000060 1))]) []
    /\ fromString_base64url sig
       = Some (utf8_encode (keyOf mallory)
               ++ fromString_utf8 (join 46 [part0; part1])).
Proof. segments malloryToken. Defined.

Lemma fractionToken_segments :
  exists part0 part1 sig,
    split 46 fractionToken = [part0; part1; sig]
    /\ parseB64UrlToJson part1
       = Parsed (JObj [(js "iss", JStr alice);
                       (js "exp",
                        JNum (Qmake 17000000599999999 10000000))]) []
    /\ fromString_base64url sig
       = Some (utf8_encode (keyOf alice)
               ++ fromString_utf8 (join 46 [part0; part1])).
Proof. segments fractionToken. Defined.

(** The token of alice is accepted in the second it expires and is
    expired a millisecond later; a forged one is expired then too, its
    signature is not looked at; and an expiry written to seven decimal
    places, a tenth of a microsecond before that second, is the double
    of that second: the token is accepted in it. *)
Lemma verifyJwt_expiry_exclusive_witness :
  verifyJwt 1700000060000 aliceToken = Some (Returns alice)
  /\ verifyJwt 1700000060001 aliceToken = Some (Throws JwtExpired)
  /\ verifyJwt 1700000060001 forgedToken = Some (Throws JwtExpired)
  /\ verifyJwt 1700000060000 fractionToken = Some (Returns alice).
Proof.
  pose (atpData := {| atp_did := alice; signingKey := keyOf alice;
                      handle := []; pds := [] |}).
  assert (Hres : resolveAtpData alice = inl atpData) by reflexivity.
  assert (Hver : forall msg,
             verifySignature (signingKey atpData) msg
               (utf8_encode (keyOf alice) ++ msg) = Some true).
  { intros msg. simpl. now rewrite eqb_refl. }
  assert (Hin : timeValue 1700000060000 /\ timeValue 1700000060001)
    by (unfold timeValue; lia).
  assert (Hsafe : (Z.abs 1700000060 < 2 ^ 53)%Z) by reflexivity.
  split; [|split; [|split]].
  - destruct aliceToken_segments
      as (part0 & part1 & sig & Hsplit & Hparse & Hsig).
    destruct (verifyJwt_expiry_exclusive 1700000060000 aliceToken _ _ _ _ _
                Hsplit Hparse) as (_ & _ & Hacc).
    destruct (Hacc alice _ atpData eq_refl Hsig Hres (Hver _))
      as (_ & Hseconds).
    destruct (Hseconds 1700000060%Z eq_refl (proj1 Hin) Hsafe)
      as (_ & Hequal).
    now apply Hequal.
  - destruct aliceToken_segments
      as (part0 & part1 & sig & Hsplit & Hparse & Hsig).
    destruct (verifyJwt_expiry_exclusive 1700000060001 aliceToken _ _ _ _ _
                Hsplit Hparse) as (_ & Hexp & _).
    apply (Hexp 1700000060%Z eq_refl (proj2 Hin) Hsafe). reflexivity.
  - destruct forgedToken_segments
      as (part0 & part1 & sig & Hsplit & Hparse & Hsig).
    destruct (verifyJwt_expiry_exclusive 1700000060001 forgedToken _ _ _ _ _
                Hsplit Hparse) as (_ & Hexp & _).
    apply (Hexp 1700000060%Z eq_refl (proj2 Hin) Hsafe). reflexivity.
  - destruct fractionToken_segments
      as (part0 & part1 & sig & Hsplit & Hparse & Hsig).
    destruct (verifyJwt_expiry_exclusive 1700000060000 fractionToken
                _ _ _ _ _ Hsplit Hparse) as (_ & _ & Hacc).
    destruct (Hacc alice _ atpData eq_refl Hsig Hres (Hver _))
      as (Hdouble & _).
    apply (Hdouble (Qmake 17000000599999999 10000000) eq_refl).
    vm_compute. reflexivity.
Defined.

Lemma verifier_failure_kinds_witness :
  verifyJwt issuedAt daveToken = Some (Throws BadJwtSignature)
  /\ verifyJwt issuedAt forgedToken = Some (Throws BadJwtSig)
  /\ verifyJwt issuedAt malloryToken
     = Some (Throws (ResolverError (js "could not resolve did")))
  /\ verifyJwt issuedAt (js "a.null.c")
     = Some (Throws (TypeError "payload.exp")).
Proof.
  destruct (verifier_failure_kinds issuedAt)
    as (_ & _ & _ & _ & _ & _ & Hnull & _ & _ & Hsig).
  assert (Hfresh : expired issuedAt (Some (JNum (Qmake 1700000060 1)))
                   = Some false) by (vm_compute; reflexivity).
  split; [|split; [|split]].
  - destruct daveToken_segments as (part0 & part1 & sig & Hs & Hp & Hd).
    destruct (Hsig daveToken _ _ _ _ _ _ Hs Hp ltac:(discriminate)
                Hfresh Hd) as (_ & _ & Hcheck).
    apply (Hcheck dave {| atp_did := dave; signingKey := js "not-a-key";
                          handle := []; pds := [] |});
      reflexivity.
  - destruct forgedToken_segments as (part0 & part1 & sig & Hs & Hp & Hd).
    destruct (Hsig forgedToken _ _ _ _ _ _ Hs Hp ltac:(discriminate)
                Hfresh Hd) as (_ & _ & Hcheck).
    refine (proj2 (Hcheck alice
                     {| atp_did := alice; signingKey := keyOf alice;
                        handle := []; pds := [] |} eq_refl eq_refl) _).
    vm_compute. reflexivity.
  - destruct malloryToken_segments as (part0 & part1 & sig & Hs & Hp & Hd).
    destruct (Hsig malloryToken _ _ _ _ _ _ Hs Hp ltac:(discriminate)
                Hfresh Hd) as (Hres & _).
    apply (Hres mallory); reflexivity.
  - apply (Hnull (js "a.null.c") (js "a") (js "null") (js "c") []);
      vm_compute; reflexivity.
Defined.

(** C2 fails as stated: the rejection of the resolver leaves the
    verifier as it is, outside the five kinds; so does the SyntaxError of
    a payload that is not JSON. *)
Lemma verifier_failure_outside_kinds :
  authVerifier issuedAt (bearer malloryToken)
  = Some (Throws (ResolverError (js "could not resolve did")))
  /\ ~ typedFailure (ResolverError (js "could not resolve did"))
  /\ authVerifier issuedAt (bearer (js "a.b.c"))
     = Some (Throws (SyntaxError "JSON.parse"))
  /\ ~ typedFailure (SyntaxError "JSON.parse").
Proof.
  repeat split; try (vm_compute; reflexivity);
    unfold typedFailure; intuition discriminate.
Qed.

Lemma authOptionalVerifier_absent_or_same_witness :
  authOptionalVerifier issuedAt {| authorization := None |}
  = Some (Returns {| cred_did := None |})
  /\ authOptionalVerifier issuedAt (bearer (js "a.b"))
     = authVerifier issuedAt (bearer (js "a.b")).
Proof.
  split.
  - destruct (authOptionalVerifier_absent_or_same issuedAt
                {| authorization := None |}) as (Habsent & _ & _).
    apply Habsent. reflexivity.
  - destruct (authOptionalVerifier_absent_or_same issuedAt
                (bearer (js "a.b"))) as (_ & _ & Hsame).
    apply (Hsame (js "Bearer a.b")); [reflexivity|discriminate].
Defined.

(** C3 fails as stated: an Authorization header that is present with an
    empty value is anonymous for the optional verifier and a missing
    token for the required one. *)
Lemma authOptionalVerifier_empty_header :
  authOptionalVerifier issuedAt {| authorization := Some [] |}
  = Some (Returns {| cred_did := None |})
  /\ authVerifier issuedAt {| authorization := Some [] |}
     = Some (Throws MissingJwt).
Proof. split; reflexivity. Qed.

End BskyAuthFacts.

(** ** The local token authority *)

Module PdsAuthFacts.
Import Js JsFacts Json Lib Http PdsAuth.

Section Admin.
Context `{Uint8Arrays}.

Lemma parseBasicAuth_basic b64 :
  parseBasicAuth (BASIC ++ b64)
  = match fromString_base64pad b64 with
    | None => None
    | Some decoded =>
        let parsed := split 58 (toString_utf8 decoded) in
        match at_ parsed 0, at_ parsed 1 with
        | Some username, Some password =>
            if falsy username || falsy password then None
            else Some (username, password)
        | _, _ => None
        end
    end.
Proof.
  unfold parseBasicAuth. now rewrite startsWith_app, slice_app.
Qed.

(** What [parseBasicAuth] returns is a header of the Basic scheme that
    decodes, cut at its colons: the first two segments, both non-empty. *)
Lemma parseBasicAuth_some token username password :
  parseBasicAuth token = Some (username, password) <->
  exists b64 decoded,
    token = BASIC ++ b64
    /\ fromString_base64pad b64 = Some decoded
    /\ at_ (split 58 (toString_utf8 decoded)) 0 = Some username
    /\ at_ (split 58 (toString_utf8 decoded)) 1 = Some password
    /\ username <> [] /\ password <> [].
Proof.
  split.
  - unfold parseBasicAuth.
    destruct (startsWith token BASIC) eqn:Hs; cbn [negb]; [|discriminate].
    apply startsWith_inv in Hs. fold (slice token (List.length BASIC)) in Hs.
    set (b64 := slice token (List.length BASIC)) in *.
    destruct (fromString_base64pad b64) as [decoded|] eqn:Hd; [|discriminate].
    cbv zeta.
    destruct (at_ (split 58 (toString_utf8 decoded)) 0) as [u|] eqn:H0;
      [|discriminate].
    destruct (at_ (split 58 (toString_utf8 decoded)) 1) as [pw|] eqn:H1;
      [|discriminate].
    destruct (falsy u) eqn:Fu; [discriminate|].
    destruct (falsy pw) eqn:Fp; [discriminate|].
    cbn [orb]. intros [= <- <-].
    exists b64, decoded.
    repeat split; try assumption.
    + intros ->. discriminate.
    + intros ->. discriminate.
  - intros (b64 & decoded & -> & Hd & H0 & H1 & Hu & Hp).
    rewrite parseBasicAuth_basic, Hd. cbv zeta. rewrite H0, H1.
    destruct username; [congruence|]. destruct password; [congruence|].
    reflexivity.
Qed.

Lemma verifyAdmin_true opts req :
  verifyAdmin opts req = true <->
  parseBasicAuth (match authorization req with Some a => a | None => [] end)
  = Some (js "admin", adminPass opts).
Proof.
  unfold verifyAdmin, _adminPass.
  destruct (parseBasicAuth _) as [[u pw]|]; [|split; discriminate].
  destruct (eqb u (js "admin")) eqn:Eu; simpl.
  - apply eqb_eq in Eu. subst u.
    destruct (eqb pw (adminPass opts)) eqn:Ep; simpl.
    + apply eqb_eq in Ep. subst. tauto.
    + apply eqb_neq in Ep. split; [discriminate|]. intros [= E]. congruence.
  - apply eqb_neq in Eu. split; [discriminate|]. intros [= E]. congruence.
Qed.

Lemma verifyAdmin_false_of_none opts req :
  parseBasicAuth (match authorization req with Some a => a | None => [] end)
  = None ->
  verifyAdmin opts req = false.
Proof. unfold verifyAdmin. now intros ->. Qed.

Lemma parseBasicAuth_not_basic token :
  startsWith token BASIC = false -> parseBasicAuth token = None.
Proof. unfold parseBasicAuth. now intros ->. Qed.

End Admin.

(** C5, the part of the claim that holds.  [verifyAdmin] is a total
    function to a boolean: it never raises.  It is false on an absent
    header, on a header that is not of the Basic scheme, on base64 that
    does not decode and on credentials without a colon.  On credentials
    [u:p] with exactly one colon it is true exactly when [u] is admin and
    [p] is the configured password and is not empty. *)
Theorem verifyAdmin_single_colon `{Uint8Arrays}
    (opts : ServerAuthOpts) (req : Request) :
  (authorization req = None -> verifyAdmin opts req = false)
  /\ (forall a, authorization req = Some a -> startsWith a BASIC = false ->
      verifyAdmin opts req = false)
  /\ (forall b64, authorization req = Some (BASIC ++ b64) ->
      fromString_base64pad b64 = None -> verifyAdmin opts req = false)
  /\ (forall b64 decoded, authorization req = Some (BASIC ++ b64) ->
      fromString_base64pad b64 = Some decoded ->
      contains 58 (toString_utf8 decoded) = false ->
      verifyAdmin opts req = false)
  /\ (forall b64 decoded u p, authorization req = Some (BASIC ++ b64) ->
      fromString_base64pad b64 = Some decoded ->
      toString_utf8 decoded = u ++ 58 :: p ->
      contains 58 u = false -> contains 58 p = false ->
      (verifyAdmin opts req = true
       <-> u = js "admin" /\ p = adminPass opts /\ p <> [])).
Proof.
  split; [|split; [|split; [|split]]].
  - intros Hreq. apply verifyAdmin_false_of_none. rewrite Hreq.
    reflexivity.
  - intros a Hreq Hs. apply verifyAdmin_false_of_none. rewrite Hreq.
    now apply parseBasicAuth_not_basic.
  - intros b64 Hreq Hd. apply verifyAdmin_false_of_none.
    now rewrite Hreq, parseBasicAuth_basic, Hd.
  - intros b64 decoded Hreq Hd Hc. apply verifyAdmin_false_of_none.
    rewrite Hreq, parseBasicAuth_basic, Hd. cbv zeta.
    now rewrite (split_no_sep _ _ Hc).
  - intros b64 decoded u p Hreq Hd Ht Hu Hp.
    rewrite verifyAdmin_true, Hreq, parseBasicAuth_some.
    split.
    + intros (b & d & Hb & Hd' & H0 & H1 & _ & Hne).
      apply app_inv_head in Hb. subst b. rewrite Hd in Hd'.
      injection Hd' as <-.
      rewrite Ht, (split_app_sep _ _ _ Hu), (split_no_sep _ _ Hp) in H0, H1.
      injection H0 as ->. injection H1 as ->. tauto.
    + intros (-> & -> & Hne). exists b64, decoded.
      rewrite Ht, (split_app_sep _ _ _ Hu), (split_no_sep _ _ Hp).
      repeat split; try assumption; try reflexivity; discriminate.
Qed.

(** C9.  [parseBasicAuth] cuts the decoded credentials at every colon and
    returns the first two segments: of credentials whose password holds a
    colon, the password returned is the text between the first and the
    second colon.  So with a configured password that holds a colon
    [verifyAdmin] is false on every request, the one that presents
    exactly admin and that password included. *)
Theorem parseBasicAuth_cuts_password_at_colon `{Uint8Arrays} :
  (forall b64 decoded u p rest,
      fromString_base64pad b64 = Some decoded ->
      toString_utf8 decoded = u ++ 58 :: p ++ 58 :: rest ->
      contains 58 u = false -> contains 58 p = false ->
      u <> [] -> p <> [] ->
      parseBasicAuth (BASIC ++ b64) = Some (u, p))
  /\ (forall opts req,
        contains 58 (adminPass opts) = true -> verifyAdmin opts req = false)
  /\ (forall opts b64 decoded,
        fromString_base64pad b64 = Some decoded ->
        toString_utf8 decoded = js "admin" ++ 58 :: adminPass opts ->
        contains 58 (adminPass opts) = true ->
        verifyAdmin opts {| authorization := Some (BASIC ++ b64) |} = false).
Proof.
  assert (Hall : forall opts req,
             contains 58 (adminPass opts) = true ->
             verifyAdmin opts req = false).
  { intros opts req Hc.
    destruct (verifyAdmin opts req) eqn:E; [|reflexivity].
    apply verifyAdmin_true, parseBasicAuth_some in E.
    destruct E as (b64 & decoded & _ & _ & _ & Hp & _ & _).
    apply at_segment in Hp. congruence. }
  split; [|split; [exact Hall|]].
  - intros b64 decoded u p rest Hd Ht Hu Hp Hun Hpn.
    apply parseBasicAuth_some. exists b64, decoded.
    rewrite Ht, (split_app_sep _ _ _ Hu), (split_app_sep _ _ _ Hp).
    repeat split; try assumption; reflexivity.
  - intros opts b64 decoded _ _ Hc. now apply Hall.
Qed.

Lemma Qle_bool_int (a b : Z) : Qle_bool (Qmake a 1) (Qmake b 1) = (a <=? b)%Z.
Proof. unfold Qle_bool. simpl. now rewrite !Z.mul_1_r. Qed.

Lemma scopeValue_inj (a b : AuthScope) :
  eqb (scopeValue a) (scopeValue b) = true <-> a = b.
Proof.
  split; [|intros ->; apply eqb_refl].
  destruct a, b; vm_compute; congruence.
Qed.

Lemma includes_scope (scopes : list AuthScope) (scope : AuthScope) :
  includes scopes (Some (JStr (scopeValue scope))) = true <-> In scope scopes.
Proof.
  simpl. rewrite existsb_exists. split.
  - intros [sc [Hin E]]. apply scopeValue_inj in E. now subst.
  - intros Hin. exists scope. split; [exact Hin|apply eqb_refl].
Qed.

Section Tokens.
Context `{JsonWebToken}.
Variable opts : ServerAuthOpts.

(** [verifyToken] on a token whose signature matches and whose payload is
    an unexpired object with a scope of the enum, no [nbf] and no
    [signature]. *)
Lemma verifyToken_unexpired now token members scope expiry scopes :
  jws_verify token (jwtSecret opts) = Some (JObj members) ->
  get (js "nbf") members = None ->
  get (js "exp") members = Some (JNum (Qmake expiry 1)) ->
  get (js "signature") members = None ->
  get (js "scope") members = Some (JStr (scopeValue scope)) ->
  (clockTimestamp now < expiry)%Z ->
  verifyToken opts now token scopes
  = if isNil scopes || includes scopes (Some (JStr (scopeValue scope)))
    then Returns (JObj members)
    else Throws (InvalidToken "Token could not be verified").
Proof.
  intros Hjws Hnbf Hexp Hsig Hscope Hlt.
  unfold verifyToken, verifyToken_try, jwt_verify, _secret.
  rewrite Hjws. cbn [property]. rewrite Hnbf, Hexp. cbn [numericClaim].
  rewrite Qle_bool_int.
  destruct (Z.leb_spec expiry (clockTimestamp now)); [lia|].
  cbn [hasSignature property]. rewrite Hsig, Hscope.
  destruct scopes as [|sc scopes]; [reflexivity|].
  cbn [isNil negb andb orb].
  now destruct (includes (sc :: scopes) (Some (JStr (scopeValue scope)))).
Qed.

(** The expiry comes before the scope: an expired token is ExpiredToken
    under every allow-list. *)
Lemma verifyToken_expired now token members expiry scopes :
  jws_verify token (jwtSecret opts) = Some (JObj members) ->
  get (js "nbf") members = None ->
  get (js "exp") members = Some (JNum (Qmake expiry 1)) ->
  (expiry <= clockTimestamp now)%Z ->
  verifyToken opts now token scopes = Throws ExpiredToken.
Proof.
  intros Hjws Hnbf Hexp Hle.
  unfold verifyToken, verifyToken_try, jwt_verify, _secret.
  rewrite Hjws. cbn [property]. rewrite Hnbf, Hexp. cbn [numericClaim].
  rewrite Qle_bool_int.
  destruct (Z.leb_spec expiry (clockTimestamp now)); [reflexivity|lia].
Qed.

Lemma issuedWith_payload did scope expiry issued :
  issuedWith opts did scope expiry issued ->
  exists members,
    objectOf (fst issued) = JObj members
    /\ get (js "nbf") members = None
    /\ get (js "exp") members = Some (JNum (Qmake expiry 1))
    /\ get (js "signature") members = None
    /\ get (js "scope") members = Some (JStr (scopeValue scope))
    /\ get (js "sub") members = Some (JStr did).
Proof.
  intros [(expiresIn & now & -> & ->)
         |(-> & jti & expiresIn & now & -> & ->)];
    eexists; (split; [reflexivity|]); repeat split; reflexivity.
Qed.

End Tokens.

(** C4.  Take a token this server issued with scope [scope], whose
    signature the library accepts, before its expiry.  Under a non-empty
    allow-list, [verifyToken] returns the payload when the scope is in
    the list and throws InvalidToken when it is not; under the empty
    allow-list it returns the payload whatever the scope.
    [getCredentials] on a request that carries the token does the same. *)
Theorem verifyToken_scope_allow_list `{JsonWebToken}
    (opts : ServerAuthOpts) (did : jsstring) (scope : AuthScope) (expiry : Z)
    (issued : list (jsstring * field) * jsstring)
    (now : Z) (scopes : list AuthScope) :
  issuedWith opts did scope expiry issued ->
  jws_verify (snd issued) (jwtSecret opts) = Some (objectOf (fst issued)) ->
  (clockTimestamp now < expiry)%Z ->
  (scopes <> [] -> In scope scopes ->
   verifyToken opts now (snd issued) scopes = Returns (objectOf (fst issued)))
  /\ (scopes <> [] -> ~ In scope scopes ->
      verifyToken opts now (snd issued) scopes
      = Throws (InvalidToken "Token could not be verified"))
  /\ verifyToken opts now (snd issued) [] = Returns (objectOf (fst issued))
  /\ (forall req, getToken req = Some (snd issued) -> snd issued <> [] ->
      (scopes <> [] -> ~ In scope scopes ->
       getCredentials opts now req scopes
       = Throws (InvalidToken "Token could not be verified"))
      /\ (scopes = [] \/ In scope scopes ->
          startsWith did (js "did:") = true ->
          getCredentials opts now req scopes
          = Returns (Some {| cred_did := did;
                             cred_scope :=
                               Some (JStr (scopeValue scope)) |}))).
Proof.
  intros Hissued Hjws Hlt.
  destruct (issuedWith_payload opts did scope expiry issued Hissued)
    as (members & Hobj & Hnbf & Hexp & Hsig & Hscope & Hsub).
  rewrite Hobj in *.
  pose proof (fun l => verifyToken_unexpired opts now (snd issued) members
                         scope expiry l Hjws Hnbf Hexp Hsig Hscope Hlt)
    as Hverify.
  assert (Hin : forall l, l <> [] -> In scope l ->
                  verifyToken opts now (snd issued) l = Returns (JObj members)).
  { intros l Hl Hs. rewrite Hverify.
    rewrite (proj2 (includes_scope l scope) Hs). now rewrite orb_true_r. }
  assert (Hout : forall l, l <> [] -> ~ In scope l ->
                   verifyToken opts now (snd issued) l
                   = Throws (InvalidToken "Token could not be verified")).
  { intros l Hl Hs. rewrite Hverify.
    destruct l; [congruence|]. cbn [isNil orb].
    destruct (includes _ _) eqn:E; [|reflexivity].
    apply includes_scope in E. contradiction. }
  split; [now apply Hin|]. split; [now apply Hout|].
  split; [now rewrite Hverify|].
  intros req Htoken Hne. unfold getCredentials. rewrite Htoken.
  destruct (snd issued) as [|c token] eqn:Etoken; [congruence|].
  cbn [falsy]. split.
  - intros Hl Hs. now rewrite (Hout scopes Hl Hs).
  - intros Hs Hdid.
    assert (Hok : verifyToken opts now (c :: token) scopes
                  = Returns (JObj members)).
    { destruct Hs as [->|Hs]; [now rewrite Hverify|].
      apply Hin; [|exact Hs]. intros ->. destruct Hs. }
    rewrite Hok. cbn [property]. rewrite Hsub, Hscope, Hdid. reflexivity.
Qed.

(** The issuer and the verifier agree on a service token whose header
    and payload hold no full stop: the token splits into its three
    segments and the verifier's parse of the second one is the payload
    that was signed. *)
Theorem createServiceJwt_round_trip `{Uint8Arrays}
    (accountDid : jsstring) (keypair : Keypair) (now : Z) :
  let header := JSON_stringify (serviceHeader keypair) in
  let payload := JSON_stringify (servicePayload accountDid now) in
  let sig := toString_base64url
               (sign keypair (fromString_utf8 (header ++ 46 :: payload))) in
  lossless header -> lossless payload ->
  contains 46 accountDid = false ->
  contains 46 (jwtAlg keypair) = false ->
  contains 46 sig = false ->
  split 46 (createServiceJwt accountDid keypair now) = [header; payload; sig]
  /\ BskyAuth.parseB64UrlToJson payload
     = Parsed (objectOf (servicePayload accountDid now)) []
  /\ property (objectOf (servicePayload accountDid now)) (js "iss")
     = Some (JStr accountDid)
  /\ property (objectOf (servicePayload accountDid now)) (js "exp")
     = Some (JNum (Qmake ((now + MINUTE) / 1000) 1)).
Proof.
  intros header payload sig Hh Hp Hdid Halg Hsig.
  assert (Hhdot : contains 46 header = false).
  { unfold header. rewrite JsonFacts.JSON_stringify_dot.
    unfold serviceHeader, memberHas. cbn [existsb fst snd].
    rewrite Halg. reflexivity. }
  assert (Hpdot : contains 46 payload = false).
  { unfold payload. rewrite JsonFacts.JSON_stringify_dot.
    unfold servicePayload, memberHas. cbn [existsb fst snd].
    rewrite Hdid. reflexivity. }
  split; [|split].
  - unfold createServiceJwt, jsonToB64Url.
    fold header. fold payload. unfold lossless in Hh, Hp. rewrite Hh, Hp.
    fold sig. rewrite <- app_assoc. cbn [app].
    rewrite (split_app_sep _ _ _ Hhdot), (split_app_sep _ _ _ Hpdot).
    now rewrite (split_no_sep _ _ Hsig).
  - unfold BskyAuth.parseB64UrlToJson. unfold lossless in Hp. rewrite Hp.
    apply JsonFacts.JSON_parse_stringify.
  - split; reflexivity.
Qed.

(** *** Runs on the reference instances *)

Import Ref.

Lemma createServiceJwt_round_trip_witness :
  exists header sig,
    split 46 aliceToken
    = [header; JSON_stringify (servicePayload alice issuedAt); sig]
    /\ BskyAuth.parseB64UrlToJson
         (JSON_stringify (servicePayload alice issuedAt))
       = Parsed (JObj [(js "iss", JStr alice);
                       (js "exp", JNum (Qmake 1700000060 1))]) [].
Proof.
  destruct (createServiceJwt_round_trip alice (keypairOf alice) issuedAt)
    as (Hsplit & Hparse & _); try (vm_compute; reflexivity).
  eexists _, _. split; [exact Hsplit|exact Hparse].
Defined.

(** C10 at a did:web identity.  The raw JSON of the payload holds the
    full stops of the host name, so the token of the issuer has five
    segments: the verifier rejects it as BadJwt, and its second segment
    is not JSON. *)
Theorem createServiceJwt_dotted_did_rejected :
  List.length (split 46 carolToken) = 5%nat
  /\ BskyAuth.verifyJwt issuedAt carolToken = Some (Throws BskyAuth.BadJwt)
  /\ BskyAuth.parseB64UrlToJson (nth 1 (split 46 carolToken) []) = SyntaxErr
  /\ nth 1 (split 46 carolToken) []
     <> JSON_stringify (servicePayload carol issuedAt).
Proof.
  repeat split; try (vm_compute; reflexivity).
  vm_compute. discriminate.
Qed.

Lemma verifyToken_scope_allow_list_witness :
  let opts := {| jwtSecret := theSecret; adminPass := js "hunter2" |} in
  let now := 1700003600000%Z in
  verifyToken opts now theToken [Access; AppPass]
  = Returns (objectOf (thePayload (scopeValue Access) 1700000000 1700007200))
  /\ verifyToken opts now theToken [Refresh]
     = Throws (InvalidToken "Token could not be verified")
  /\ verifyToken opts now theToken []
     = Returns (objectOf (thePayload (scopeValue Access) 1700000000 1700007200))
  /\ getCredentials opts now (bearer theToken) [Access]
     = Returns (Some {| cred_did := alice;
                        cred_scope := Some (JStr (scopeValue Access)) |}).
Proof.
  intros opts now.
  assert (Hissued : issuedWith opts alice Access 1700007200
                      (createAccessToken opts alice Access 7200 1700000000000)).
  { left. exists 7200%Z, 1700000000000%Z. split; reflexivity. }
  assert (Hjws : jws_verify
                   (snd (createAccessToken opts alice Access 7200 1700000000000))
                   (jwtSecret opts)
                 = Some (objectOf
                           (fst (createAccessToken opts alice Access 7200
                                   1700000000000))))
    by reflexivity.
  assert (Hlt : (clockTimestamp now < 1700007200)%Z) by (vm_compute; reflexivity).
  split; [|split; [|split]].
  - destruct (verifyToken_scope_allow_list opts alice Access 1700007200 _ now
                [Access; AppPass] Hissued Hjws Hlt) as (Hin & _).
    apply Hin; [discriminate|now left].
  - destruct (verifyToken_scope_allow_list opts alice Access 1700007200 _ now
                [Refresh] Hissued Hjws Hlt) as (_ & Hout & _).
    apply Hout; [discriminate|intros [E|[]]; discriminate].
  - destruct (verifyToken_scope_allow_list opts alice Access 1700007200 _ now
                [] Hissued Hjws Hlt) as (_ & _ & Hnil & _).
    exact Hnil.
  - destruct (verifyToken_scope_allow_list opts alice Access 1700007200 _ now
                [Access] Hissued Hjws Hlt) as (_ & _ & _ & Hcred).
    apply (Hcred (bearer theToken)); try reflexivity; try discriminate.
    right. now left.
Defined.

Lemma verifyAdmin_single_colon_witness :
  verifyAdmin {| jwtSecret := theSecret; adminPass := js "hunter2" |}
    {| authorization := Some (js "Basic YWRtaW46aHVudGVyMg==") |} = true
  /\ verifyAdmin {| jwtSecret := theSecret; adminPass := js "hunter2" |}
       {| authorization := Some (js "Bearer YWRtaW46aHVudGVyMg==") |} = false.
Proof.
  split.
  - destruct (verifyAdmin_single_colon
                {| jwtSecret := theSecret; adminPass := js "hunter2" |}
                {| authorization := Some (js "Basic YWRtaW46aHVudGVyMg==") |})
      as (_ & _ & _ & _ & Hpair).
    apply (Hpair (js "YWRtaW46aHVudGVyMg==")
                 (utf8_encode (js "admin:hunter2")) (js "admin") (js "hunter2"));
      try (vm_compute; reflexivity).
    repeat split; discriminate.
  - destruct (verifyAdmin_single_colon
                {| jwtSecret := theSecret; adminPass := js "hunter2" |}
                {| authorization := Some (js "Bearer YWRtaW46aHVudGVyMg==") |})
      as (_ & Hscheme & _).
    apply (Hscheme (js "Bearer YWRtaW46aHVudGVyMg==")); reflexivity.
Defined.

(** C5 fails as stated, in two ways.  With the configured password
    pass:word, the request that presents exactly admin and pass:word is
    refused; with an empty configured password, so is the request that
    presents exactly admin and the empty password. *)
Lemma verifyAdmin_refuses_exact_pair :
  (let opts := {| jwtSecret := theSecret; adminPass := js "pass:word" |} in
   let b64 := js "YWRtaW46cGFzczp3b3Jk" in
   option_map toString_utf8 (fromString_base64pad b64)
   = Some (js "admin" ++ 58 :: adminPass opts)
   /\ verifyAdmin opts {| authorization := Some (BASIC ++ b64) |} = false)
  /\ (let opts := {| jwtSecret := theSecret; adminPass := [] |} in
      let b64 := js "YWRtaW46" in
      option_map toString_utf8 (fromString_base64pad b64)
      = Some (js "admin" ++ 58 :: adminPass opts)
      /\ verifyAdmin opts {| authorization := Some (BASIC ++ b64) |} = false).
Proof. repeat split; vm_compute; reflexivity. Qed.

Lemma parseBasicAuth_cuts_password_at_colon_witness :
  parseBasicAuth (js "Basic YWRtaW46cGFzczp3b3Jk")
  = Some (js "admin", js "pass")
  /\ verifyAdmin {| jwtSecret := theSecret; adminPass := js "pass:word" |}
       {| authorization := Some (js "Basic YWRtaW46cGFzczp3b3Jk") |} = false.
Proof.
  destruct parseBasicAuth_cuts_password_at_colon as (Hcut & _ & Hexact).
  split.
  - apply (Hcut (js "YWRtaW46cGFzczp3b3Jk")
                (utf8_encode (js "admin:pass:word"))
                (js "admin") (js "pass") (js "word"));
      try (vm_compute; reflexivity); discriminate.
  - apply (Hexact {| jwtSecret := theSecret; adminPass := js "pass:word" |}
                  (js "YWRtaW46cGFzczp3b3Jk")
                  (utf8_encode (js "admin:pass:word")));
      vm_compute; reflexivity.
Defined.

End PdsAuthFacts.

(** ** Trimming and counting *)

Module JsMoreFacts.
Import Js JsFacts JsMore.

Lemma split_length sep (s : jsstring) :
  List.length (split sep s) = S (occurrences sep s).
Proof.
  unfold occurrences. induction s as [|c s IH]; [reflexivity|].
  cbn [split filter]. rewrite (N.eqb_sym sep c).
  destruct (c =? sep).
  - cbn [List.length]. now rewrite IH.
  - destruct (split sep s) as [|h t]; [discriminate|].
    cbn [List.length] in *. exact IH.
Qed.

Lemma replace_startsWith (s pat repl : jsstring) :
  startsWith s pat = true ->
  replace s pat repl = repl ++ skipn (List.length pat) s.
Proof. intros Hs. destruct s; cbn [replace]; now rewrite Hs. Qed.

(** Removing the first occurrence of a prefix removes the prefix. *)
Lemma replace_prefix (p s : jsstring) : replace (p ++ s) p [] = s.
Proof.
  rewrite replace_startsWith by apply startsWith_app.
  cbn [app]. apply slice_app.
Qed.

Lemma trimStart_spec (s : jsstring) :
  exists pre,
    s = pre ++ trimStart s
    /\ allWhiteSpace pre = true
    /\ notWhiteSpace (hd_error (trimStart s)).
Proof.
  induction s as [|c s (pre & Hs & Hpre & Hhd)].
  - exists []. repeat split.
  - cbn [trimStart]. destruct (isWhiteSpace c) eqn:E.
    + exists (c :: pre). repeat split.
      * cbn [app]. now rewrite <- Hs.
      * unfold allWhiteSpace in *. cbn [forallb]. now rewrite E, Hpre.
      * exact Hhd.
    + exists []. repeat split. exact E.
Qed.

Lemma allWhiteSpace_app (a b : jsstring) :
  allWhiteSpace (a ++ b) = allWhiteSpace a && allWhiteSpace b.
Proof. apply forallb_app. Qed.

Lemma allWhiteSpace_rev (s : jsstring) :
  allWhiteSpace (rev s) = allWhiteSpace s.
Proof.
  induction s as [|c s IH]; [reflexivity|].
  cbn [rev]. rewrite allWhiteSpace_app, IH. unfold allWhiteSpace.
  cbn [forallb]. rewrite andb_true_r. apply andb_comm.
Qed.

Lemma trimStart_allWhiteSpace (s : jsstring) :
  trimStart s = [] <-> allWhiteSpace s = true.
Proof.
  unfold allWhiteSpace.
  induction s as [|c s IH]; cbn [trimStart forallb]; [tauto|].
  destruct (isWhiteSpace c); cbn [andb]; [exact IH|].
  split; discriminate.
Qed.

(** What [trim] returns has white space at neither end. *)
Lemma trim_trimmed (s : jsstring) : trimmed (trim s).
Proof.
  unfold trimmed, trim, trimEnd, lastUnit. rewrite rev_involutive.
  destruct (trimStart_spec s) as (pre & Hs & Hpre & Hhd).
  destruct (trimStart_spec (rev (trimStart s))) as (pre' & Hs' & Hpre' & Hhd').
  split; [|exact Hhd'].
  apply (f_equal (@rev N)) in Hs'. rewrite rev_involutive, rev_app_distr in Hs'.
  destruct (rev (trimStart (rev (trimStart s)))) as [|c y]; [exact I|].
  rewrite Hs' in Hhd. exact Hhd.
Qed.

(** [trim] returns the empty string exactly on white space. *)
Lemma trim_nil (s : jsstring) : trim s = [] <-> allWhiteSpace s = true.
Proof.
  unfold trim, trimEnd. split.
  - intros E. apply (f_equal (@rev N)) in E. rewrite rev_involutive in E.
    cbn [rev] in E. apply trimStart_allWhiteSpace in E.
    rewrite allWhiteSpace_rev in E.
    destruct (trimStart_spec s) as (pre & Hs & Hpre & _).
    rewrite Hs, allWhiteSpace_app, Hpre, E. reflexivity.
  - intros E. apply trimStart_allWhiteSpace in E. now rewrite E.
Qed.

Lemma occurrences_app c (a b : jsstring) :
  occurrences c (a ++ b) = (occurrences c a + occurrences c b)%nat.
Proof. unfold occurrences. now rewrite filter_app, length_app. Qed.

Lemma occurrences_cons c (s : jsstring) :
  occurrences c (c :: s) = S (occurrences c s).
Proof. unfold occurrences. cbn [filter]. now rewrite N.eqb_refl. Qed.

Lemma occurrences_none c (s : jsstring) :
  occurrences c s = 0%nat <-> contains c s = false.
Proof.
  unfold occurrences, contains. induction s as [|x s IH]; [now split|].
  cbn [filter existsb]. destruct (c =? x); cbn [List.length orb].
  - split; discriminate.
  - exact IH.
Qed.

End JsMoreFacts.

(** ** The cache is a map from identities to their last put *)

Module DidSqlCacheMapFacts.
Import Js JsFacts DidSqlCache DidSqlCacheModel DidSqlCacheFacts.

Section Facts.
Context {DidDocument : Type}.
Implicit Types (table : Table DidDocument) (r : Row DidDocument).
Implicit Types (ops : list (Op DidDocument)) (o : Op DidDocument).
Implicit Types (held : option (DidDocument * Z)).

Lemma rowsOf_other_overwrite t d d' document table :
  d' <> d ->
  rowsOf d' (map (overwrite t d document) table) = rowsOf d' table.
Proof.
  intros Hd. induction table as [|r table IH]; [reflexivity|].
  cbn [map rowsOf filter]. fold (rowsOf d' (map (overwrite t d document) table)).
  fold (rowsOf d' table). rewrite IH.
  unfold overwrite at 1 2. destruct (hasDid d r) eqn:E; [|reflexivity].
  apply hasDid_true in E.
  assert (Hr : hasDid d' r = false).
  { destruct (hasDid d' r) eqn:E'; [|reflexivity].
    apply hasDid_true in E'. congruence. }
  unfold hasDid at 1. cbn [row_did]. fold (hasDid d' r). now rewrite Hr.
Qed.

(** A put leaves the rows of every other identity as they are. *)
Lemma rowsOf_cacheDid_other t1 t2 d d' document table :
  d' <> d ->
  rowsOf d' (cacheDid t1 t2 d document table) = rowsOf d' table.
Proof.
  intros Hd. rewrite cacheDid_eq. destruct (existsb (hasDid d) table).
  - now apply rowsOf_other_overwrite.
  - unfold rowsOf. rewrite filter_app. cbn [filter]. unfold hasDid at 2.
    cbn [row_did].
    destruct (eqb d d') eqn:E; [apply eqb_eq in E; congruence|].
    apply app_nil_r.
Qed.

Lemma checkCache_rowsOf now ttl d table :
  checkCache now ttl d table
  = match hd_error (rowsOf d table) with
    | None => None
    | Some res =>
        Some {| doc := row_doc res;
                updatedAt := Date_getTime (row_updatedAt res); did := d;
                expired := gt_sum now (Date_getTime (row_updatedAt res)) ttl |}
    end.
Proof. unfold checkCache. now rewrite find_rowsOf. Qed.

Lemma storedAt_rowFor t1 t2 d table held :
  rowsOf d table = rowFor d held ->
  storedAt t1 t2 d table
  = match held with Some _ => t2 | None => t1 end.
Proof.
  intros Hrows. unfold storedAt.
  destruct (existsb (hasDid d) table) eqn:E.
  - destruct held as [[document t]|]; [reflexivity|].
    apply existsb_exists in E as [r [Hin Hr]].
    assert (Hin' : In r (rowsOf d table)) by (apply filter_In; tauto).
    rewrite Hrows in Hin'. destruct Hin'.
  - destruct held as [[document t]|]; [|reflexivity].
    assert (Hin : In {| row_did := d; row_doc := document;
                        row_updatedAt := t |} (rowsOf d table))
      by (rewrite Hrows; now left).
    apply filter_In in Hin as [Hin Hr].
    assert (existsb (hasDid d) table = true)
      by (apply existsb_exists; eauto).
    congruence.
Qed.

(** One write keeps the rows of an identity in step with what it holds. *)
Lemma step_rowFor d table held o :
  NoDup (keys table) ->
  rowsOf d table = rowFor d held ->
  rowsOf d (step table o) = rowFor d (remember d held o).
Proof.
  intros ND Hrows. destruct o as [t1 t2 d' document|]; cbn [step remember].
  - destruct (eqb d' d) eqn:E.
    + apply eqb_eq in E. subst d'.
      rewrite rowsOf_cacheDid by exact ND.
      now rewrite (storedAt_rowFor t1 t2 d table held Hrows).
    + apply eqb_neq in E. rewrite rowsOf_cacheDid_other by congruence.
      exact Hrows.
  - reflexivity.
Qed.

Lemma fold_rowFor d ops : forall table held,
  NoDup (keys table) ->
  rowsOf d table = rowFor d held ->
  rowsOf d (fold_left step ops table)
  = rowFor d (fold_left (remember d) ops held).
Proof.
  induction ops as [|o ops IH]; intros table held ND Hrows; [exact Hrows|].
  cbn [fold_left]. apply IH.
  - now apply step_keys_NoDup.
  - now apply step_rowFor.
Qed.

Lemma checkCache_answer now ttl d table held :
  rowsOf d table = rowFor d held ->
  checkCache now ttl d table = answer now ttl d held.
Proof.
  intros E. rewrite checkCache_rowsOf, E.
  now destruct held as [[document t]|].
Qed.

Lemma rowsOf_run d ops : rowsOf d (run ops) = rowFor d (lastPut d ops).
Proof. apply fold_rowFor; [constructor|reflexivity]. Qed.

End Facts.

(** X1.  After any history of puts and clears, a read of an identity
    answers from the last put of that identity since the last clear: its
    document, and the timestamp that put stored; it answers absent when
    there is no such put. *)
Theorem checkCache_is_lastPut {DidDocument : Type}
    (ops : list (Op DidDocument)) (now ttl : Z) (d : jsstring) :
  checkCache now ttl d (run ops) = answer now ttl d (lastPut d ops).
Proof.
  apply checkCache_answer, rowsOf_run.
Qed.

(** X2.  A put for one identity changes no read of another: on every
    table, before and after the put the other identity reads the same. *)
Theorem cacheDid_frame {DidDocument : Type} (table : Table DidDocument)
    (t1 t2 now ttl : Z) (d d' : jsstring) (document : DidDocument) :
  d' <> d ->
  checkCache now ttl d' (cacheDid t1 t2 d document table)
  = checkCache now ttl d' table.
Proof.
  intros Hd. rewrite !checkCache_rowsOf.
  now rewrite rowsOf_cacheDid_other.
Qed.

Lemma cacheDid_frame_witness :
  checkCache 50 300 (js "did:plc:alice")
    (cacheDid 20 21 (js "did:plc:bob") 2%nat
       (cacheDid 10 11 (js "did:plc:alice") 1%nat []))
  = checkCache 50 300 (js "did:plc:alice")
      (cacheDid 10 11 (js "did:plc:alice") 1%nat []).
Proof.
  apply (cacheDid_frame (cacheDid 10 11 (js "did:plc:alice") 1%nat [])).
  vm_compute. discriminate.
Defined.

(** X3.  Nothing but a clear removes an entry: once an identity has been
    put, every read after further puts, of any identities, finds an
    entry for it, however long ago the put was. *)
Theorem cacheDid_never_evicts {DidDocument : Type}
    (before after : list (Op DidDocument))
    (t1 t2 now ttl : Z) (d : jsstring) (document : DidDocument) :
  forallb isPut after = true ->
  checkCache now ttl d (run (before ++ OpCacheDid t1 t2 d document :: after))
  <> None.
Proof.
  intros Hafter.
  rewrite (checkCache_answer now ttl d _ _ (rowsOf_run d _)). unfold lastPut.
  rewrite fold_left_app. cbn [fold_left].
  set (held := remember d (fold_left (remember d) before None)
                 (OpCacheDid t1 t2 d document)).
  assert (Hheld : held <> None).
  { unfold held. cbn [remember]. rewrite eqb_refl. discriminate. }
  clearbody held. revert held Hheld.
  induction after as [|o after IH]; intros held Hheld.
  - cbn [fold_left]. destruct held as [[doc0 t]|]; [discriminate|congruence].
  - cbn [forallb] in Hafter. apply andb_true_iff in Hafter as [Ho Hafter].
    cbn [fold_left]. apply IH; [exact Hafter|].
    destruct o as [t3 t4 d' document'|]; [|discriminate].
    cbn [remember]. destruct (eqb d' d); [discriminate|exact Hheld].
Qed.

Lemma cacheDid_never_evicts_witness :
  checkCache 1000000 300 (js "did:plc:alice")
    (run [OpClear; OpCacheDid 10 11 (js "did:plc:alice") 1%nat;
          OpCacheDid 20 21 (js "did:plc:bob") 2%nat])
  <> None.
Proof.
  apply (cacheDid_never_evicts [OpClear] [OpCacheDid 20 21 (js "did:plc:bob") 2%nat]
           10 11 1000000 300 (js "did:plc:alice") 1%nat).
  reflexivity.
Defined.

End DidSqlCacheMapFacts.

(** ** More on the federated verifier *)

Module BskyAuthMoreFacts.
Import Js JsFacts JsMore JsMoreFacts Json Numbers NumbersFacts Lib Http
       BskyAuth BskyAuthFacts.

Section Facts.
Context `{Uint8Arrays} `{DidResolver} `{Crypto} `{Conversions}.

Lemma getJwtStrFromReq_none req :
  getJwtStrFromReq req = None <->
  startsWith (match authorization req with Some a => a | None => [] end)
             (js "Bearer ") = false.
Proof.
  unfold getJwtStrFromReq.
  destruct (startsWith _ (js "Bearer ")); cbn [negb]; split;
    congruence.
Qed.

Lemma getJwtStrFromReq_bearer req t :
  authorization req = Some (js "Bearer " ++ t) ->
  getJwtStrFromReq req = Some (trim t).
Proof.
  intros Hreq. unfold getJwtStrFromReq. rewrite Hreq.
  now rewrite startsWith_app, replace_prefix.
Qed.

Lemma getJwtStrFromReq_some req j :
  getJwtStrFromReq req = Some j ->
  exists t, authorization req = Some (js "Bearer " ++ t) /\ j = trim t.
Proof.
  intros E.
  destruct (startsWith (match authorization req with
                        | Some a => a | None => [] end) (js "Bearer "))
    eqn:Hs.
  - destruct (authorization req) as [a|] eqn:Hreq; [|discriminate].
    apply startsWith_inv in Hs.
    set (t := skipn (List.length (js "Bearer ")) a) in Hs.
    assert (Hreq' : authorization req = Some (js "Bearer " ++ t))
      by (rewrite Hreq; f_equal; exact Hs).
    exists t. split; [f_equal; exact Hs|].
    rewrite (getJwtStrFromReq_bearer req t Hreq') in E. congruence.
  - apply getJwtStrFromReq_none in Hs. congruence.
Qed.

Lemma verifyJwt_not_Missing now jwtStr :
  verifyJwt now jwtStr <> Some (Throws MissingJwt).
Proof.
  unfold verifyJwt.
  destruct (split 46 jwtStr) as [|part0 [|part1 [|sig [|]]]];
    try discriminate.
  destruct (parseB64UrlToJson part1) as [payload rest| |];
    try discriminate.
  destruct (member payload (js "exp")) as [exp|]; [|discriminate].
  destruct (expired now exp) as [[|]|]; try discriminate.
  destruct (fromString_base64url sig); [|discriminate].
  destruct (property payload (js "iss")) as [[| | |iss| |]|];
    try discriminate.
  destruct (resolveAtpData iss); [|discriminate].
  destruct (verifySignature _ _ _) as [[|]|]; discriminate.
Qed.

Lemma verifyJwt_BadJwt now jwtStr :
  verifyJwt now jwtStr = Some (Throws BadJwt) <->
  List.length (split 46 jwtStr) <> 3%nat.
Proof.
  unfold verifyJwt.
  destruct (split 46 jwtStr) as [|part0 [|part1 [|sig [|]]]];
    cbn [List.length]; try (split; [intros _; lia|reflexivity]).
  split; [|intros Hn; now elim Hn].
  destruct (parseB64UrlToJson part1) as [payload rest| |];
    try discriminate.
  destruct (member payload (js "exp")) as [exp|]; [|discriminate].
  destruct (expired now exp) as [[|]|]; try discriminate.
  destruct (fromString_base64url sig); [|discriminate].
  destruct (property payload (js "iss")) as [[| | |iss| |]|];
    try discriminate.
  destruct (resolveAtpData iss); [|discriminate].
  destruct (verifySignature _ _ _) as [[|]|]; discriminate.
Qed.

End Facts.

(** X4.  A bearer value is rejected as BadJwt exactly when it does not
    hold exactly two full stops, whatever its segments are. *)
Theorem verifyJwt_BadJwt_iff_two_dots
    `{Uint8Arrays} `{DidResolver} `{Crypto} `{Conversions}
    (now : Z) (jwtStr : jsstring) :
  verifyJwt now jwtStr = Some (Throws BadJwt) <-> occurrences 46 jwtStr <> 2%nat.
Proof.
  rewrite verifyJwt_BadJwt, split_length. lia.
Qed.

(** X5.  The verifier returns an identity only as the issuer of a token
    of three segments that passes the expiry test of the code and whose
    signature over the first two segments verifies under the signing key
    the resolver gives for that identity.  Passing the expiry test means
    that [Date.now() / 1000 > exp] is false: with a number as [exp] the
    clock is not past it, as doubles; a payload without [exp] passes at
    every time, so a signed token without an expiry is accepted for
    ever. *)
Theorem verifyJwt_sound
    `{Uint8Arrays} `{DidResolver} `{Crypto} `{Conversions}
    (now : Z) (jwtStr d : jsstring) :
  (verifyJwt now jwtStr = Some (Returns d) ->
   exists part0 part1 sig payload rest sigBytes atpData,
     split 46 jwtStr = [part0; part1; sig]
     /\ parseB64UrlToJson part1 = Parsed payload rest
     /\ property payload (js "iss") = Some (JStr d)
     /\ expired now (property payload (js "exp")) = Some false
     /\ (forall q, property payload (js "exp") = Some (JNum q) ->
           number_gt (nowSeconds now) (toDouble q) = false)
     /\ fromString_base64url sig = Some sigBytes
     /\ resolveAtpData d = inl atpData
     /\ verifySignature (signingKey atpData)
          (fromString_utf8 (join 46 [part0; part1])) sigBytes = Some true)
  /\ (forall part0 part1 sig payload rest sigBytes atpData,
        split 46 jwtStr = [part0; part1; sig] ->
        parseB64UrlToJson part1 = Parsed payload rest ->
        property payload (js "iss") = Some (JStr d) ->
        property payload (js "exp") = None ->
        fromString_base64url sig = Some sigBytes ->
        resolveAtpData d = inl atpData ->
        verifySignature (signingKey atpData)
          (fromString_utf8 (join 46 [part0; part1])) sigBytes = Some true ->
        verifyJwt now jwtStr = Some (Returns d)).
Proof.
  split.
  - unfold verifyJwt.
    destruct (split 46 jwtStr) as [|part0 [|part1 [|sig [|]]]];
      try discriminate.
    destruct (parseB64UrlToJson part1) as [payload rest| |] eqn:Hparse;
      try discriminate.
    destruct (member payload (js "exp")) as [exp|] eqn:Hmember;
      [|discriminate].
    destruct (expired now exp) as [[|]|] eqn:Hexp; try discriminate.
    destruct (fromString_base64url sig) as [sigBytes|] eqn:Hsig;
      [|discriminate].
    destruct (property payload (js "iss")) as [[| | |iss| |]|] eqn:Hiss;
      try discriminate.
    destruct (resolveAtpData iss) as [atpData|] eqn:Hres; [|discriminate].
    destruct (verifySignature _ _ _) as [[|]|] eqn:Hver; try discriminate.
    intros [= <-].
    assert (Hprop : exp = property payload (js "exp")).
    { destruct payload; cbn [member] in Hmember; congruence. }
    subst exp.
    exists part0, part1, sig, payload, rest, sigBytes, atpData.
    repeat split; try assumption.
    intros q Hq. rewrite Hq in Hexp. unfold expired in Hexp.
    cbn [ToNumber] in Hexp. congruence.
  - intros part0 part1 sig payload rest sigBytes atpData
           Hsplit Hparse Hiss Hexp Hsig Hres Hver.
    rewrite (verifyJwt_unexpired now _ _ _ _ _ _ Hsplit Hparse).
    + now rewrite Hsig, Hiss, Hres, Hver.
    + intros ->. discriminate.
    + rewrite Hexp. unfold expired. cbn [ToNumber].
      now rewrite number_gt_NaN.
Qed.

(** X6.  [getJwtStrFromReq] returns nothing exactly when the header is
    absent or does not start with the Bearer prefix; on a header that
    does, it returns what follows the prefix, trimmed: a later
    occurrence of the prefix stays, and the result has white space at
    neither end. *)
Theorem getJwtStrFromReq_trimmed_rest (req : Request) :
  (getJwtStrFromReq req = None <->
   startsWith (match authorization req with Some a => a | None => [] end)
              (js "Bearer ") = false)
  /\ (forall t, authorization req = Some (js "Bearer " ++ t) ->
                getJwtStrFromReq req = Some (trim t))
  /\ (forall j, getJwtStrFromReq req = Some j -> trimmed j).
Proof.
  split; [apply getJwtStrFromReq_none|].
  split; [apply getJwtStrFromReq_bearer|].
  intros j E. apply getJwtStrFromReq_some in E as (t & _ & ->).
  apply trim_trimmed.
Qed.

(** X7.  The required verifier fails with MissingJwt exactly when the
    header is absent, does not start with the Bearer prefix, or holds
    only white space after it. *)
Theorem authVerifier_MissingJwt_iff
    `{Uint8Arrays} `{DidResolver} `{Crypto} `{Conversions}
    (now : Z) (req : Request) :
  authVerifier now req = Some (Throws MissingJwt) <->
  match authorization req with
  | None => True
  | Some a =>
      startsWith a (js "Bearer ") = false
      \/ exists t, a = js "Bearer " ++ t /\ allWhiteSpace t = true
  end.
Proof.
  unfold authVerifier.
  destruct (getJwtStrFromReq req) as [j|] eqn:E.
  - apply getJwtStrFromReq_some in E as (t & Hreq & ->). rewrite Hreq.
    destruct (falsy (trim t)) eqn:F.
    + apply falsy_nil in F. split; [|reflexivity].
      intros _. right. exists t. split; [reflexivity|now apply trim_nil].
    + split.
      * destruct (verifyJwt now (trim t)) as [[d|e]|] eqn:V;
          try discriminate.
        intros [= ->]. exfalso. exact (verifyJwt_not_Missing _ _ V).
      * intros [Hs|(t' & Ht & Hws)].
        -- now rewrite startsWith_app in Hs.
        -- apply app_inv_head in Ht. subst t'. apply trim_nil in Hws.
           rewrite Hws in F. discriminate.
  - apply getJwtStrFromReq_none in E. split; [|reflexivity].
    intros _. destruct (authorization req); [now left|exact I].
Qed.

(** X8.  The optional verifier answers with the anonymous identity only
    when the header is absent or empty: a header that is present and
    not empty never degrades to anonymous. *)
Theorem authOptionalVerifier_anonymous_iff
    `{Uint8Arrays} `{DidResolver} `{Crypto} `{Conversions}
    (now : Z) (req : Request) :
  authOptionalVerifier now req = Some (Returns {| cred_did := None |}) <->
  authorization req = None \/ authorization req = Some [].
Proof.
  unfold authOptionalVerifier.
  destruct (authorization req) as [[|c a]|] eqn:Hreq; cbn [falsy].
  - split; [now right|reflexivity].
  - split; [|intros [E|E]; discriminate].
    unfold authVerifier.
    destruct (getJwtStrFromReq req) as [j|]; [|discriminate].
    destruct (falsy j); [discriminate|].
    destruct (verifyJwt now j) as [[d|e]|]; discriminate.
  - split; [now left|reflexivity].
Qed.

(** X9.  A token of [createServiceJwt] for an identity without a full
    stop, presented to the verifier of a server whose resolver gives the
    key the token was signed with, the clocks of both being readings a
    Date can hold: it is accepted from its issue until the second it
    carries, that is for more than 59 seconds, and is expired once more
    than 60 seconds have passed since its issue. *)
Theorem serviceJwt_accepted_for_a_minute
    `{Uint8Arrays} `{DidResolver} `{Crypto} `{Conversions}
    (accountDid : jsstring) (keypair : Keypair) (now : Z)
    (atpData : AtpData) :
  let header := JSON_stringify (PdsAuth.serviceHeader keypair) in
  let payload := JSON_stringify (PdsAuth.servicePayload accountDid now) in
  let toSign := fromString_utf8 (header ++ 46 :: payload) in
  let sig := toString_base64url (sign keypair toSign) in
  let token := PdsAuth.createServiceJwt accountDid keypair now in
  lossless header -> lossless payload ->
  contains 46 accountDid = false ->
  contains 46 (jwtAlg keypair) = false ->
  contains 46 sig = false ->
  fromString_base64url sig = Some (sign keypair toSign) ->
  resolveAtpData accountDid = inl atpData ->
  verifySignature (signingKey atpData) toSign (sign keypair toSign)
  = Some true ->
  timeValue now ->
  forall later : Z, timeValue later ->
    (verifyJwt later token = Some (Returns accountDid)
     <-> (later <= 1000 * ((now + MINUTE) / 1000))%Z)
    /\ (verifyJwt later token = Some (Throws JwtExpired)
        <-> (1000 * ((now + MINUTE) / 1000) < later)%Z)
    /\ ((later <= now + 59001)%Z ->
        verifyJwt later token = Some (Returns accountDid))
    /\ ((now + 60000 < later)%Z ->
        verifyJwt later token = Some (Throws JwtExpired)).
Proof.
  intros header payload toSign sig token Hh Hp Hdid Halg Hdot Hsig Hres Hver
         Hnow later Hlater.
  destruct (PdsAuthFacts.createServiceJwt_round_trip accountDid keypair now
              Hh Hp Hdid Halg Hdot) as (Hsplit & Hparse & Hiss & Hexp).
  fold header payload in Hsplit, Hparse. fold toSign in Hsplit.
  fold sig in Hsplit. fold token in Hsplit.
  assert (Hjoin : fromString_utf8 (join 46 [header; payload]) = toSign)
    by reflexivity.
  clearbody header payload toSign sig token.
  assert (Hwin : (now + 59000 < 1000 * ((now + MINUTE) / 1000)
                  <= now + 60000)%Z).
  { change MINUTE with 60000%Z.
    pose proof (Z.div_mod (now + 60000) 1000 ltac:(lia)) as Hd.
    pose proof (Z.mod_pos_bound (now + 60000) 1000 ltac:(lia)) as Hm.
    lia. }
  assert (Hsafe : (Z.abs ((now + MINUTE) / 1000) < 2 ^ 53)%Z).
  { unfold timeValue in Hnow. change (2 ^ 53)%Z with 9007199254740992%Z.
    lia. }
  assert (Hnull : objectOf (PdsAuth.servicePayload accountDid now) <> JNull)
    by discriminate.
  pose proof (expired_seconds later _ Hlater Hsafe) as Htest.
  rewrite <- Hexp in Htest.
  destruct (Z.ltb_spec (1000 * ((now + MINUTE) / 1000)) later) as [Hlt|Hle].
  - assert (E : verifyJwt later token = Some (Throws JwtExpired)).
    { apply (verifyJwt_expiry later _ _ _ _ _ _ Hsplit Hparse).
      split; [exact Hnull|exact Htest]. }
    rewrite E.
    repeat split; try discriminate; try reflexivity; intros; lia.
  - rewrite (verifyJwt_unexpired later _ _ _ _ _ _ Hsplit Hparse Hnull Htest).
    rewrite Hsig, Hiss, Hres, Hjoin, Hver.
    repeat split; try discriminate; try reflexivity; intros; lia.
Qed.

(** X10.  A token of [createServiceJwt] is refused as BadJwt, at any
    time and by any verifier, exactly when the identity or the name of
    the algorithm of the key holds a full stop: the two JSON texts go
    into the token as they are, so each full stop adds a segment. *)
Theorem serviceJwt_BadJwt_iff_dot
    `{Uint8Arrays} `{DidResolver} `{Crypto} `{Conversions}
    (accountDid : jsstring) (keypair : Keypair) (issued now : Z) :
  let header := JSON_stringify (PdsAuth.serviceHeader keypair) in
  let payload := JSON_stringify (PdsAuth.servicePayload accountDid issued) in
  let sig := toString_base64url
               (sign keypair (fromString_utf8 (header ++ 46 :: payload))) in
  lossless header -> lossless payload ->
  contains 46 sig = false ->
  (verifyJwt now (PdsAuth.createServiceJwt accountDid keypair issued)
   = Some (Throws BadJwt)
   <-> contains 46 accountDid = true \/ contains 46 (jwtAlg keypair) = true).
Proof.
  intros header payload sig Hh Hp Hsig.
  assert (Hhdot : contains 46 header = contains 46 (jwtAlg keypair)).
  { unfold header. rewrite JsonFacts.JSON_stringify_dot.
    unfold PdsAuth.serviceHeader, memberHas. cbn [existsb fst snd].
    now destruct (contains 46 (jwtAlg keypair)). }
  assert (Hpdot : contains 46 payload = contains 46 accountDid).
  { unfold payload. rewrite JsonFacts.JSON_stringify_dot.
    unfold PdsAuth.servicePayload, memberHas. cbn [existsb fst snd].
    now destruct (contains 46 accountDid). }
  rewrite verifyJwt_BadJwt, split_length.
  unfold PdsAuth.createServiceJwt, PdsAuth.jsonToB64Url.
  fold header. fold payload. unfold lossless in Hh, Hp. rewrite Hh, Hp.
  fold sig. clearbody header payload sig.
  rewrite !occurrences_app, !occurrences_cons.
  rewrite (proj2 (occurrences_none 46 sig) Hsig).
  rewrite <- Hhdot, <- Hpdot.
  pose proof (occurrences_none 46 header) as Hoh.
  pose proof (occurrences_none 46 payload) as Hop.
  destruct (contains 46 header), (contains 46 payload).
  - split; [now left|]. intros _. destruct Hoh as [Hoh _].
    destruct (occurrences 46 header); [now specialize (Hoh eq_refl)|lia].
  - split; [now right|]. intros _. destruct Hoh as [Hoh _].
    destruct (occurrences 46 header); [now specialize (Hoh eq_refl)|lia].
  - split; [now left|]. intros _. destruct Hop as [Hop _].
    destruct (occurrences 46 payload); [now specialize (Hop eq_refl)|lia].
  - rewrite (proj2 Hoh eq_refl), (proj2 Hop eq_refl).
    split; [intros Hn; now elim Hn|intros [E|E]; discriminate].
Qed.

(** *** Runs on the reference instances *)

Import Ref.

Lemma noExpToken_segments :
  exists part0 part1 sig,
    split 46 noExpToken = [part0; part1; sig]
    /\ parseB64UrlToJson part1 = Parsed (JObj [(js "iss", JStr alice)]) []
    /\ fromString_base64url sig
       = Some (utf8_encode (keyOf alice)
               ++ fromString_utf8 (join 46 [part0; part1])).
Proof. segments noExpToken. Defined.

(** The token of alice in the second it expires, and her token without
    an expiry in the year 2286. *)
Lemma verifyJwt_sound_witness :
  (exists part0 part1 sig payload rest sigBytes atpData,
     split 46 aliceToken = [part0; part1; sig]
     /\ parseB64UrlToJson part1 = Parsed payload rest
     /\ property payload (js "iss") = Some (JStr alice)
     /\ expired 1700000060000 (property payload (js "exp")) = Some false
     /\ (forall q, property payload (js "exp") = Some (JNum q) ->
           number_gt (nowSeconds 1700000060000) (toDouble q) = false)
     /\ fromString_base64url sig = Some sigBytes
     /\ resolveAtpData alice = inl atpData
     /\ verifySignature (signingKey atpData)
          (fromString_utf8 (join 46 [part0; part1])) sigBytes = Some true)
  /\ verifyJwt 9999999999999 noExpToken = Some (Returns alice).
Proof.
  split.
  - destruct (verifyJwt_sound 1700000060000 aliceToken alice) as [Hsound _].
    apply Hsound. vm_compute. reflexivity.
  - destruct (verifyJwt_sound 9999999999999 noExpToken alice) as [_ Hnoexp].
    destruct noExpToken_segments
      as (part0 & part1 & sig & Hsplit & Hparse & Hsig).
    apply (Hnoexp _ _ _ _ _ _
             {| atp_did := alice; signingKey := keyOf alice;
                handle := []; pds := [] |} Hsplit Hparse eq_refl eq_refl
             Hsig eq_refl).
    simpl. now rewrite eqb_refl.
Defined.

Lemma getJwtStrFromReq_trimmed_rest_witness :
  getJwtStrFromReq (bearer (js "  a.b Bearer c "))
  = Some (js "a.b Bearer c")
  /\ trimmed (js "a.b Bearer c").
Proof.
  destruct (getJwtStrFromReq_trimmed_rest (bearer (js "  a.b Bearer c ")))
    as (_ & Hrest & Htrim).
  assert (E : getJwtStrFromReq (bearer (js "  a.b Bearer c "))
              = Some (js "a.b Bearer c")).
  { rewrite (Hrest (js "  a.b Bearer c ")); reflexivity. }
  split; [exact E|exact (Htrim _ E)].
Defined.

Lemma serviceJwt_accepted_for_a_minute_witness :
  verifyJwt (issuedAt + 59001) aliceToken = Some (Returns alice)
  /\ verifyJwt (issuedAt + 60001) aliceToken = Some (Throws JwtExpired).
Proof.
  pose (atpData := {| atp_did := alice; signingKey := keyOf alice;
                      handle := []; pds := [] |}).
  pose (header := JSON_stringify (PdsAuth.serviceHeader (keypairOf alice))).
  pose (payload := JSON_stringify (PdsAuth.servicePayload alice issuedAt)).
  pose (toSign := fromString_utf8 (header ++ 46 :: payload)).
  pose (sig := toString_base64url (sign (keypairOf alice) toSign)).
  assert (Hh : lossless header) by (vm_compute; reflexivity).
  assert (Hp : lossless payload) by (vm_compute; reflexivity).
  assert (Hdid : contains 46 alice = false) by (vm_compute; reflexivity).
  assert (Halg : contains 46 (jwtAlg (keypairOf alice)) = false)
    by (vm_compute; reflexivity).
  assert (Hdot : contains 46 sig = false) by (vm_compute; reflexivity).
  assert (Hsig : fromString_base64url sig
                 = Some (sign (keypairOf alice) toSign))
    by (vm_compute; reflexivity).
  assert (Hres : resolveAtpData alice = inl atpData)
    by (vm_compute; reflexivity).
  assert (Hver : verifySignature (signingKey atpData) toSign
                   (sign (keypairOf alice) toSign) = Some true)
    by (vm_compute; reflexivity).
  assert (Hnow : timeValue issuedAt) by (unfold timeValue, issuedAt; lia).
  split.
  - destruct (serviceJwt_accepted_for_a_minute alice (keypairOf alice)
                issuedAt atpData Hh Hp Hdid Halg Hdot Hsig Hres Hver Hnow
                (issuedAt + 59001)%Z) as (_ & _ & Hacc & _).
    + unfold timeValue, issuedAt. lia.
    + apply Hacc. vm_compute. discriminate.
  - destruct (serviceJwt_accepted_for_a_minute alice (keypairOf alice)
                issuedAt atpData Hh Hp Hdid Halg Hdot Hsig Hres Hver Hnow
                (issuedAt + 60001)%Z) as (_ & _ & _ & Hexp).
    + unfold timeValue, issuedAt. lia.
    + apply Hexp. vm_compute. reflexivity.
Defined.

Lemma serviceJwt_BadJwt_iff_dot_witness :
  verifyJwt (issuedAt + 1000)
    (PdsAuth.createServiceJwt carol (keypairOf carol) issuedAt)
  = Some (Throws BadJwt).
Proof.
  pose (header := JSON_stringify (PdsAuth.serviceHeader (keypairOf carol))).
  pose (payload := JSON_stringify (PdsAuth.servicePayload carol issuedAt)).
  pose (sig := toString_base64url
                 (sign (keypairOf carol)
                    (fromString_utf8 (header ++ 46 :: payload)))).
  assert (Hh : lossless header) by (vm_compute; reflexivity).
  assert (Hp : lossless payload) by (vm_compute; reflexivity).
  assert (Hdot : contains 46 sig = false) by (vm_compute; reflexivity).
  destruct (serviceJwt_BadJwt_iff_dot carol (keypairOf carol) issuedAt
              (issuedAt + 1000)%Z Hh Hp Hdot) as [_ Hbad].
  apply Hbad. left. vm_compute. reflexivity.
Defined.

End BskyAuthMoreFacts.

(** ** More on the local token authority *)

Module PdsAuthMoreFacts.
Import Js JsFacts Json Lib Http PdsAuth PdsAuthFacts.

Section Facts.
Context `{Uint8Arrays} `{JsonWebToken}.
Variable opts : ServerAuthOpts.

Lemma getToken_bearer req token :
  getToken req = Some token <->
  authorization req = Some (BEARER ++ token).
Proof.
  unfold getToken. split.
  - destruct (authorization req) as [a|]; [|discriminate].
    destruct (startsWith a BEARER) eqn:Hs; [|discriminate].
    cbn [negb]. intros [= <-]. f_equal. now apply startsWith_inv.
  - intros ->. now rewrite startsWith_app, slice_app.
Qed.

Lemma getToken_none req :
  getToken req = None <->
  startsWith (match authorization req with Some a => a | None => [] end)
             BEARER = false.
Proof.
  unfold getToken. destruct (startsWith _ BEARER); cbn [negb];
    split; congruence.
Qed.

(** On a request that carries a non-empty token, [getCredentials] is
    [verifyToken] followed by the check of the subject. *)
Lemma getCredentials_token now req scopes token :
  getToken req = Some token -> token <> [] ->
  getCredentials opts now req scopes
  = match verifyToken opts now token scopes with
    | Throws e => Throws e
    | Returns payload =>
        match property payload (js "sub") with
        | Some (JStr sub) =>
            if negb (startsWith sub (js "did:"))
            then Throws (InvalidToken "Malformed token")
            else Returns (Some {| cred_did := sub;
                                  cred_scope :=
                                    property payload (js "scope") |})
        | _ => Throws (InvalidToken "Malformed token")
        end
    end.
Proof.
  intros Htoken Hne. unfold getCredentials. rewrite Htoken.
  destruct token; [congruence|reflexivity].
Qed.

Lemma getCredentials_not_null now req scopes token :
  getToken req = Some token -> token <> [] ->
  getCredentials opts now req scopes <> Returns None.
Proof.
  intros Htoken Hne. rewrite (getCredentials_token now req scopes token Htoken Hne).
  destruct (verifyToken opts now token scopes) as [payload|e];
    [|discriminate].
  destruct (property payload (js "sub")) as [[| | |sub| |]|];
    try discriminate.
  destruct (startsWith sub (js "did:")); discriminate.
Qed.

(** What an issued, accepted, unexpired token gives under an allow-list
    that admits its scope. *)
Lemma verifyToken_issued_ok did scope expiry issued now scopes :
  issuedWith opts did scope expiry issued ->
  jws_verify (snd issued) (jwtSecret opts) = Some (objectOf (fst issued)) ->
  (clockTimestamp now < expiry)%Z ->
  verifyToken opts now (snd issued) scopes
  = if isNil scopes || includes scopes (Some (JStr (scopeValue scope)))
    then Returns (objectOf (fst issued))
    else Throws (InvalidToken "Token could not be verified").
Proof.
  intros Hissued Hjws Hlt.
  destruct (issuedWith_payload opts did scope expiry issued Hissued)
    as (members & Hobj & Hnbf & Hexp & Hsig & Hscope & Hsub).
  rewrite Hobj in *.
  exact (verifyToken_unexpired opts now (snd issued) members scope expiry
           scopes Hjws Hnbf Hexp Hsig Hscope Hlt).
Qed.

Lemma getCredentials_issued did scope expiry issued now scopes req :
  issuedWith opts did scope expiry issued ->
  jws_verify (snd issued) (jwtSecret opts) = Some (objectOf (fst issued)) ->
  (clockTimestamp now < expiry)%Z ->
  getToken req = Some (snd issued) -> snd issued <> [] ->
  getCredentials opts now req scopes
  = if isNil scopes || includes scopes (Some (JStr (scopeValue scope)))
    then if startsWith did (js "did:")
         then Returns (Some {| cred_did := did;
                               cred_scope :=
                                 Some (JStr (scopeValue scope)) |})
         else Throws (InvalidToken "Malformed token")
    else Throws (InvalidToken "Token could not be verified").
Proof.
  intros Hissued Hjws Hlt Htoken Hne.
  rewrite (getCredentials_token now req scopes _ Htoken Hne).
  rewrite (verifyToken_issued_ok did scope expiry issued now scopes
             Hissued Hjws Hlt).
  destruct (issuedWith_payload opts did scope expiry issued Hissued)
    as (members & Hobj & _ & _ & _ & Hscope & Hsub).
  destruct (isNil scopes || includes scopes _); [|reflexivity].
  rewrite Hobj. cbn [property]. rewrite Hsub, Hscope.
  now destruct (startsWith did (js "did:")).
Qed.

End Facts.

Lemma getCredentials_null `{JsonWebToken}
    (opts : ServerAuthOpts) (now : Z) (req : Request)
    (scopes : list AuthScope) :
  getCredentials opts now req scopes = Returns None <->
  match authorization req with
  | None => True
  | Some a => startsWith a BEARER = false \/ a = BEARER
  end.
Proof.
  destruct (getToken req) as [token|] eqn:Htoken.
  - pose proof (proj1 (getToken_bearer req token) Htoken) as Hreq.
    rewrite Hreq. destruct token as [|c token].
    + unfold getCredentials. rewrite Htoken. cbn [falsy].
      split; [intros _; right; apply app_nil_r|reflexivity].
    + split.
      * intros E. exfalso.
        exact (getCredentials_not_null opts now req scopes (c :: token)
                 Htoken ltac:(discriminate) E).
      * intros [Hs|Ha].
        -- now rewrite startsWith_app in Hs.
        -- rewrite <- (app_nil_r BEARER) in Ha at 2.
           apply app_inv_head in Ha. discriminate.
  - unfold getCredentials. rewrite Htoken.
    apply getToken_none in Htoken.
    split; [|reflexivity].
    intros _. destruct (authorization req); [now left|exact I].
Qed.

(** X11.  [verifyToken] throws one of two errors only: ExpiredToken,
    exactly when the library reports the token as expired, and
    InvalidToken with the message that the token could not be verified,
    for everything else; the messages of a malformed token and of a bad
    scope, thrown inside its [try], never leave it. *)
Theorem verifyToken_two_failures `{JsonWebToken}
    (opts : ServerAuthOpts) (now : Z) (token : jsstring)
    (scopes : list AuthScope) (e : error) :
  verifyToken opts now token scopes = Throws e ->
  (e = ExpiredToken
   /\ jwt_verify token (jwtSecret opts) now = inr TokenExpiredError)
  \/ (e = InvalidToken "Token could not be verified"
      /\ jwt_verify token (jwtSecret opts) now <> inr TokenExpiredError).
Proof.
  unfold verifyToken, verifyToken_try, _secret.
  destruct (jwt_verify token (jwtSecret opts) now) as [payload|[| |]].
  - destruct payload as [| | |s|l|members]; cbn [hasSignature];
      try (intros [= <-]; right; split; [reflexivity|discriminate]).
    + destruct (negb (isNil scopes) && _);
        intros [= <-]; right; split; [reflexivity|discriminate].
    + destruct (get (js "signature") members);
        [intros [= <-]; right; split; [reflexivity|discriminate]|].
      destruct (negb (isNil scopes) && _); [|discriminate].
      intros [= <-]; right; split; [reflexivity|discriminate].
  - intros [= <-]. now left.
  - intros [= <-]. right. split; [reflexivity|discriminate].
  - intros [= <-]. right. split; [reflexivity|discriminate].
Qed.

(** X12.  A token this server issued is expired from the very second it
    carries as [exp]: whatever the allow-list, [verifyToken] and
    [getCredentials] then fail with ExpiredToken, the scope is not
    looked at. *)
Theorem issued_token_expires `{JsonWebToken}
    (opts : ServerAuthOpts) (did : jsstring) (scope : AuthScope) (expiry : Z)
    (issued : list (jsstring * field) * jsstring)
    (now : Z) (scopes : list AuthScope) :
  issuedWith opts did scope expiry issued ->
  jws_verify (snd issued) (jwtSecret opts) = Some (objectOf (fst issued)) ->
  (expiry <= clockTimestamp now)%Z ->
  verifyToken opts now (snd issued) scopes = Throws ExpiredToken
  /\ (forall req, getToken req = Some (snd issued) -> snd issued <> [] ->
                  getCredentials opts now req scopes = Throws ExpiredToken).
Proof.
  intros Hissued Hjws Hle.
  destruct (issuedWith_payload opts did scope expiry issued Hissued)
    as (members & Hobj & Hnbf & Hexp & _).
  rewrite Hobj in Hjws.
  pose proof (verifyToken_expired opts now (snd issued) members expiry scopes
                Hjws Hnbf Hexp Hle) as Hexpired.
  split; [exact Hexpired|].
  intros req Htoken Hne.
  now rewrite (getCredentials_token opts now req scopes _ Htoken Hne), Hexpired.
Qed.

(** X13.  [getCredentials] answers null exactly when the request has no
    Authorization header, one that does not start with the Bearer
    prefix, or the bare prefix; with any other header it returns
    credentials or throws. *)
Theorem getCredentials_null_iff `{JsonWebToken}
    (opts : ServerAuthOpts) (now : Z) (req : Request)
    (scopes : list AuthScope) :
  (getCredentials opts now req scopes = Returns None <->
   match authorization req with
   | None => True
   | Some a => startsWith a BEARER = false \/ a = BEARER
   end)
  /\ (forall token, token <> [] ->
      authorization req = Some (BEARER ++ token) ->
      getCredentials opts now req scopes <> Returns None).
Proof.
  split; [apply getCredentials_null|].
  intros token Hne Hreq.
  apply (getCredentials_not_null opts now req scopes token);
    [now apply getToken_bearer|exact Hne].
Qed.

(** X14.  The subject of a token must look like an identity: a token this
    server issued for a subject that does not start with did: passes
    [verifyToken] but [getCredentials] throws InvalidToken, with the
    message of a malformed token, under every allow-list that admits
    its scope. *)
Theorem getCredentials_malformed_subject `{JsonWebToken}
    (opts : ServerAuthOpts) (did : jsstring) (scope : AuthScope) (expiry : Z)
    (issued : list (jsstring * field) * jsstring)
    (now : Z) (scopes : list AuthScope) (req : Request) :
  issuedWith opts did scope expiry issued ->
  jws_verify (snd issued) (jwtSecret opts) = Some (objectOf (fst issued)) ->
  (clockTimestamp now < expiry)%Z ->
  getToken req = Some (snd issued) -> snd issued <> [] ->
  scopes = [] \/ In scope scopes ->
  startsWith did (js "did:") = false ->
  verifyToken opts now (snd issued) scopes = Returns (objectOf (fst issued))
  /\ getCredentials opts now req scopes
     = Throws (InvalidToken "Malformed token").
Proof.
  intros Hissued Hjws Hlt Htoken Hne Hscopes Hdid.
  assert (Hok : isNil scopes || includes scopes (Some (JStr (scopeValue scope)))
                = true).
  { destruct Hscopes as [->|Hin]; [reflexivity|].
    rewrite (proj2 (includes_scope scopes scope) Hin). apply orb_true_r. }
  split.
  - now rewrite (verifyToken_issued_ok opts did scope expiry issued now scopes
                   Hissued Hjws Hlt), Hok.
  - now rewrite (getCredentials_issued opts did scope expiry issued now scopes
                   req Hissued Hjws Hlt Htoken Hne), Hok, Hdid.
Qed.

(** X15.  [verifyUser] with a token this server issued for an identity,
    under an allow-list that admits its scope, is true for that identity
    and false for every other one; without a token it is false; with a
    token whose scope is not admitted it does not answer false, it
    throws. *)
Theorem verifyUser_issued `{JsonWebToken}
    (opts : ServerAuthOpts) (did : jsstring) (scope : AuthScope) (expiry : Z)
    (issued : list (jsstring * field) * jsstring)
    (now : Z) (scopes : list AuthScope) (req : Request) (asked : jsstring) :
  issuedWith opts did scope expiry issued ->
  jws_verify (snd issued) (jwtSecret opts) = Some (objectOf (fst issued)) ->
  (clockTimestamp now < expiry)%Z ->
  getToken req = Some (snd issued) -> snd issued <> [] ->
  startsWith did (js "did:") = true ->
  (scopes = [] \/ In scope scopes ->
   verifyUser opts now req asked scopes = Returns (eqb did asked)
   /\ (verifyUser opts now req asked scopes = Returns true <-> asked = did))
  /\ (scopes <> [] -> ~ In scope scopes ->
      verifyUser opts now req asked scopes
      = Throws (InvalidToken "Token could not be verified"))
  /\ verifyUser opts now {| authorization := None |} asked scopes
     = Returns false.
Proof.
  intros Hissued Hjws Hlt Htoken Hne Hdid.
  pose proof (getCredentials_issued opts did scope expiry issued now scopes
                req Hissued Hjws Hlt Htoken Hne) as Hcred.
  rewrite Hdid in Hcred. unfold verifyUser.
  split; [|split; [|reflexivity]].
  - intros Hscopes.
    assert (Hok : isNil scopes
                  || includes scopes (Some (JStr (scopeValue scope))) = true).
    { destruct Hscopes as [->|Hin]; [reflexivity|].
      rewrite (proj2 (includes_scope scopes scope) Hin). apply orb_true_r. }
    rewrite Hcred, Hok. cbn [cred_did]. split; [reflexivity|].
    split.
    + intros [= E]. apply eqb_eq in E. congruence.
    + intros ->. now rewrite eqb_refl.
  - intros Hnil Hout. rewrite Hcred.
    destruct scopes as [|sc scopes]; [congruence|]. cbn [isNil orb].
    destruct (includes _ _) eqn:E; [|reflexivity].
    apply includes_scope in E. contradiction.
Qed.

(** X16.  [parseBasicAuth] returns a pair only for a header of the Basic
    scheme, and then neither part is empty and neither holds a colon. *)
Theorem parseBasicAuth_parts `{Uint8Arrays}
    (token username password : jsstring) :
  parseBasicAuth token = Some (username, password) ->
  startsWith token BASIC = true
  /\ username <> [] /\ password <> []
  /\ contains 58 username = false /\ contains 58 password = false.
Proof.
  intros E. apply parseBasicAuth_some in E.
  destruct E as (b64 & decoded & -> & _ & Hu & Hp & Hun & Hpn).
  split; [apply startsWith_app|].
  split; [exact Hun|]. split; [exact Hpn|].
  split; [exact (at_segment _ _ _ _ Hu)|exact (at_segment _ _ _ _ Hp)].
Qed.

(** X17.  What [jsonToB64Url] writes, [parseB64UrlToJson] reads back:
    for every flat record of strings and integers whose JSON text the
    UTF-8 pair leaves unchanged, the segment is that text and its parse
    is the record. *)
Theorem parseB64UrlToJson_jsonToB64Url `{Uint8Arrays}
    (members : list (jsstring * field)) :
  lossless (JSON_stringify members) ->
  jsonToB64Url members = JSON_stringify members
  /\ BskyAuth.parseB64UrlToJson (jsonToB64Url members)
     = Parsed (objectOf members) [].
Proof.
  intros Hl. unfold jsonToB64Url, BskyAuth.parseB64UrlToJson.
  unfold lossless in Hl. rewrite !Hl. split; [reflexivity|].
  apply JsonFacts.JSON_parse_stringify.
Qed.

(** *** Runs on the reference instances *)

Import Ref Ref2.

Lemma verifyToken_two_failures_witness :
  let token := snd (refreshOf alice) in
  let now := 1700003600000%Z in
  @jwt_verify echoJwt token theSecret now
  <> inr TokenExpiredError.
Proof.
  intros token now.
  destruct (@verifyToken_two_failures echoJwt theOpts now token [Access]
              (InvalidToken "Token could not be verified"))
    as [[E _]|[_ Hjwt]].
  - vm_compute. reflexivity.
  - discriminate E.
  - exact Hjwt.
Defined.

Lemma issued_token_expires_witness :
  @verifyToken echoJwt theOpts 1700007200000 (snd (accessOf alice Access))
    [Access]
  = Throws ExpiredToken.
Proof.
  destruct (@issued_token_expires echoJwt theOpts alice Access 1700007200
              (accessOf alice Access) 1700007200000 [Access])
    as [Hexpired _].
  - left. exists 7200%Z, issuedAt. split; reflexivity.
  - vm_compute. reflexivity.
  - vm_compute. discriminate.
  - exact Hexpired.
Defined.

Lemma getCredentials_malformed_subject_witness :
  @getCredentials echoJwt theOpts 1700003600000
    (bearer (snd (accessOf (js "alice") Access))) [Access; AppPass]
  = Throws (InvalidToken "Malformed token").
Proof.
  destruct (@getCredentials_malformed_subject echoJwt theOpts (js "alice")
              Access 1700007200 (accessOf (js "alice") Access) 1700003600000
              [Access; AppPass]
              (bearer (snd (accessOf (js "alice") Access))))
    as [_ Hcred].
  - left. exists 7200%Z, issuedAt. split; reflexivity.
  - vm_compute. reflexivity.
  - vm_compute. reflexivity.
  - vm_compute. reflexivity.
  - vm_compute. discriminate.
  - right. now left.
  - vm_compute. reflexivity.
  - exact Hcred.
Defined.

Lemma verifyUser_issued_witness :
  @verifyUser echoJwt theOpts 1700003600000
    (bearer (snd (accessOf alice AppPass))) alice [Access; AppPass]
  = Returns true
  /\ @verifyUser echoJwt theOpts 1700003600000
       (bearer (snd (accessOf alice AppPass))) alice [Access]
     = Throws (InvalidToken "Token could not be verified").
Proof.
  assert (Hissued : @issuedWith echoJwt theOpts alice AppPass 1700007200
                      (accessOf alice AppPass)).
  { left. exists 7200%Z, issuedAt. split; reflexivity. }
  assert (Hjws : @jws_verify echoJwt (snd (accessOf alice AppPass))
                   (jwtSecret theOpts)
                 = Some (objectOf (fst (accessOf alice AppPass))))
    by (vm_compute; reflexivity).
  assert (Hlt : (clockTimestamp 1700003600000 < 1700007200)%Z)
    by (vm_compute; reflexivity).
  assert (Htoken : getToken (bearer (snd (accessOf alice AppPass)))
                   = Some (snd (accessOf alice AppPass)))
    by (vm_compute; reflexivity).
  assert (Hne : snd (accessOf alice AppPass) <> [])
    by (vm_compute; discriminate).
  assert (Hdid : startsWith alice (js "did:") = true)
    by (vm_compute; reflexivity).
  split.
  - destruct (@verifyUser_issued echoJwt theOpts alice AppPass 1700007200
                (accessOf alice AppPass) 1700003600000 [Access; AppPass]
                (bearer (snd (accessOf alice AppPass))) alice
                Hissued Hjws Hlt Htoken Hne Hdid) as (Hin & _).
    destruct Hin as [_ Hiff]; [right; right; now left|].
    now apply Hiff.
  - destruct (@verifyUser_issued echoJwt theOpts alice AppPass 1700007200
                (accessOf alice AppPass) 1700003600000 [Access]
                (bearer (snd (accessOf alice AppPass))) alice
                Hissued Hjws Hlt Htoken Hne Hdid) as (_ & Hout & _).
    apply Hout; [discriminate|intros [E|[]]; discriminate].
Defined.

Lemma parseBasicAuth_parts_witness :
  contains 58 (js "hunter2") = false.
Proof.
  destruct (parseBasicAuth_parts (js "Basic YWRtaW46aHVudGVyMg==")
              (js "admin") (js "hunter2")) as (_ & _ & _ & _ & Hp).
  - vm_compute. reflexivity.
  - exact Hp.
Defined.

Lemma parseB64UrlToJson_jsonToB64Url_witness :
  BskyAuth.parseB64UrlToJson (jsonToB64Url (servicePayload alice issuedAt))
  = Parsed (objectOf (servicePayload alice issuedAt)) [].
Proof.
  destruct (parseB64UrlToJson_jsonToB64Url (servicePayload alice issuedAt))
    as [_ Hparse].
  - vm_compute. reflexivity.
  - exact Hparse.
Defined.

End PdsAuthMoreFacts.

(** ** The request verifiers *)

Module PdsVerifiersFacts.
Import Js JsFacts Json Lib Http PdsAuth PdsAuthFacts PdsVerifiers
       PdsAuthMoreFacts.

Section Facts.
Context `{JsonWebToken}.
Variable opts : ServerAuthOpts.

Lemma includes_some scopes v :
  includes scopes v = true ->
  exists sc, In sc scopes /\ v = Some (JStr (scopeValue sc)).
Proof.
  destruct v as [[| | |s| |]|]; try discriminate.
  cbn [includes]. rewrite existsb_exists. intros (sc & Hin & E).
  apply eqb_eq in E. exists sc. split; [exact Hin|congruence].
Qed.

(** What [verifyToken] returns has passed the library and carries a
    scope of the allow-list. *)
Lemma verifyToken_returns now token scopes payload :
  verifyToken opts now token scopes = Returns payload ->
  jwt_verify token (jwtSecret opts) now = inl payload
  /\ (scopes = []
      \/ exists sc, In sc scopes
           /\ property payload (js "scope") = Some (JStr (scopeValue sc))).
Proof.
  unfold verifyToken, verifyToken_try, _secret.
  destruct (jwt_verify token (jwtSecret opts) now) as [p|[| |]];
    try discriminate.
  destruct p as [| | |s|l|members]; cbn [hasSignature]; try discriminate.
  - destruct scopes as [|sc scopes]; [intros [= <-]; now split; [|left]|].
    cbn [isNil negb andb includes property]. discriminate.
  - destruct (get (js "signature") members); [discriminate|].
    destruct scopes as [|sc scopes]; [intros [= <-]; now split; [|left]|].
    cbn [isNil negb andb].
    destruct (includes (sc :: scopes) _) eqn:E; [|discriminate].
    cbn [negb]. intros [= <-]. split; [reflexivity|right].
    now apply includes_some.
Qed.

Lemma verifyToken_throws now token scopes e :
  verifyToken opts now token scopes = Throws e ->
  e = ExpiredToken \/ e = InvalidToken "Token could not be verified".
Proof.
  unfold verifyToken.
  destruct (verifyToken_try opts now token scopes) as [p|[[| |]|x|]];
    intros [= <-]; auto.
Qed.

Lemma getCredentials_some now req scopes creds :
  getCredentials opts now req scopes = Returns (Some creds) ->
  exists token payload,
    authorization req = Some (BEARER ++ token) /\ token <> []
    /\ verifyToken opts now token scopes = Returns payload
    /\ property payload (js "sub") = Some (JStr (cred_did creds))
    /\ cred_scope creds = property payload (js "scope")
    /\ startsWith (cred_did creds) (js "did:") = true.
Proof.
  destruct (getToken req) as [token|] eqn:Htoken;
    [|unfold getCredentials; rewrite Htoken; discriminate].
  destruct token as [|c token];
    [unfold getCredentials; rewrite Htoken; discriminate|].
  rewrite (getCredentials_token opts now req scopes (c :: token) Htoken)
    by discriminate.
  destruct (verifyToken opts now (c :: token) scopes) as [payload|e] eqn:Hv;
    [|discriminate].
  destruct (property payload (js "sub")) as [[| | |sub| |]|] eqn:Hsub;
    try discriminate.
  destruct (startsWith sub (js "did:")) eqn:Hdid; [|discriminate].
  cbn [negb]. intros [= <-]. exists (c :: token), payload. cbn.
  repeat split; try assumption; try discriminate.
  now apply getToken_bearer.
Qed.

Lemma getCredentials_throws now req scopes e :
  getCredentials opts now req scopes = Throws e ->
  e = ExpiredToken \/ e = InvalidToken "Token could not be verified"
  \/ e = InvalidToken "Malformed token".
Proof.
  unfold getCredentials.
  destruct (getToken req) as [token|]; [|discriminate].
  destruct (falsy token); [discriminate|].
  destruct (verifyToken opts now token scopes) as [payload|e'] eqn:Hv.
  - destruct (property payload (js "sub")) as [[| | |sub| |]|];
      try (intros [= <-]; auto).
    destruct (startsWith sub (js "did:")); [discriminate|].
    intros [= <-]; auto.
  - intros [= <-]. apply verifyToken_throws in Hv. tauto.
Qed.

Context `{AccountService}.

Lemma withScopes_returns scopes now req out :
  withScopes opts scopes now req = Returns out <->
  getCredentials opts now req scopes = Returns (Some (credentials out))
  /\ artifacts out = getToken req.
Proof.
  unfold withScopes, getCredentialsOrThrow.
  destruct (getCredentials opts now req scopes) as [[creds|]|e].
  - split.
    + intros [= <-]. now split.
    + intros [[= E] Ha]. destruct out as [c a]. cbn in *. congruence.
  - split; [discriminate|]. intros [E _]. discriminate.
  - split; [discriminate|]. intros [E _]. discriminate.
Qed.

Lemma withScopes_throws scopes now req e :
  withScopes opts scopes now req = Throws e <->
  getCredentials opts now req scopes = Throws e
  \/ (e = AuthRequiredError None None
      /\ getCredentials opts now req scopes = Returns None).
Proof.
  unfold withScopes, getCredentialsOrThrow.
  destruct (getCredentials opts now req scopes) as [[creds|]|e'].
  - split; [discriminate|]. intros [E|[_ E]]; discriminate.
  - split.
    + intros [= <-]. now right.
    + intros [E|[-> _]]; [discriminate|reflexivity].
  - split.
    + intros [= <-]. now left.
    + intros [[= ->]|[_ E]]; [reflexivity|discriminate].
Qed.

Lemma withScopes_issued did scope expiry issued now scopes req :
  issuedWith opts did scope expiry issued ->
  jws_verify (snd issued) (jwtSecret opts) = Some (objectOf (fst issued)) ->
  (clockTimestamp now < expiry)%Z ->
  getToken req = Some (snd issued) -> snd issued <> [] ->
  startsWith did (js "did:") = true ->
  scopes <> [] ->
  withScopes opts scopes now req
  = if includes scopes (Some (JStr (scopeValue scope)))
    then Returns {| credentials :=
                      {| cred_did := did;
                         cred_scope := Some (JStr (scopeValue scope)) |};
                    artifacts := Some (snd issued) |}
    else Throws (InvalidToken "Token could not be verified").
Proof.
  intros Hissued Hjws Hlt Htoken Hne Hdid Hscopes.
  unfold withScopes, getCredentialsOrThrow.
  rewrite (getCredentials_issued opts did scope expiry issued now scopes
             req Hissued Hjws Hlt Htoken Hne), Hdid, Htoken.
  destruct scopes as [|sc scopes]; [congruence|]. cbn [isNil orb].
  now destruct (includes (sc :: scopes) _).
Qed.

End Facts.

(** X18.  The three token verifiers differ by the scopes they admit.  On
    a request that carries an unexpired token this server issued for an
    identity, the access verifier returns the credentials, with the
    token as artifacts, for the access and the app-password scope and
    refuses a refresh token; the verifier that excludes app passwords
    returns them for the access scope only; the refresh verifier for the
    refresh scope only.  Each refusal is InvalidToken. *)
Theorem verifiers_scope_separation `{JsonWebToken}
    (opts : ServerAuthOpts) (did : jsstring) (scope : AuthScope) (expiry : Z)
    (issued : list (jsstring * field) * jsstring) (now : Z) (req : Request) :
  issuedWith opts did scope expiry issued ->
  jws_verify (snd issued) (jwtSecret opts) = Some (objectOf (fst issued)) ->
  (clockTimestamp now < expiry)%Z ->
  getToken req = Some (snd issued) -> snd issued <> [] ->
  startsWith did (js "did:") = true ->
  let ok := Returns {| credentials :=
                         {| cred_did := did;
                            cred_scope := Some (JStr (scopeValue scope)) |};
                       artifacts := Some (snd issued) |} in
  let refused := Throws (InvalidToken "Token could not be verified") in
  accessVerifier opts now req
  = match scope with Refresh => refused | _ => ok end
  /\ accessVerifierNotAppPassword opts now req
     = match scope with Access => ok | _ => refused end
  /\ refreshVerifier opts now req
     = match scope with Refresh => ok | _ => refused end.
Proof.
  intros Hissued Hjws Hlt Htoken Hne Hdid ok refused.
  unfold accessVerifier, accessVerifierNotAppPassword, refreshVerifier.
  rewrite !(withScopes_issued opts did scope expiry issued now _ req
              Hissued Hjws Hlt Htoken Hne Hdid) by discriminate.
  destruct scope; repeat split; reflexivity.
Qed.

(** X19.  Whatever the token, what a token verifier returns is backed by
    the request: the header is the Bearer prefix and a non-empty token
    that the library accepts under the secret, the artifacts are that
    token, the identity is the subject of its payload and starts with
    did:, and the scope is the scope of the payload and one of those the
    verifier admits. *)
Theorem token_verifier_sound `{JsonWebToken}
    (opts : ServerAuthOpts) (now : Z) (req : Request) (out : AccessOutput)
    (scopes : list AuthScope) :
  (scopes = [Access; AppPass] /\ accessVerifier opts now req = Returns out)
  \/ (scopes = [Access]
      /\ accessVerifierNotAppPassword opts now req = Returns out)
  \/ (scopes = [Refresh] /\ refreshVerifier opts now req = Returns out) ->
  exists token payload sc,
    authorization req = Some (BEARER ++ token) /\ token <> []
    /\ artifacts out = Some token
    /\ jwt_verify token (jwtSecret opts) now = inl payload
    /\ property payload (js "sub") = Some (JStr (cred_did (credentials out)))
    /\ startsWith (cred_did (credentials out)) (js "did:") = true
    /\ In sc scopes
    /\ cred_scope (credentials out) = Some (JStr (scopeValue sc)).
Proof.
  intros Hret.
  assert (Hw : withScopes opts scopes now req = Returns out /\ scopes <> []).
  { destruct Hret as [[-> E]|[[-> E]|[-> E]]]; (split; [exact E|discriminate]). }
  clear Hret. destruct Hw as [Hw Hscopes].
  apply withScopes_returns in Hw. destruct Hw as [Hcred Hart].
  apply getCredentials_some in Hcred.
  destruct Hcred as (token & payload & Hreq & Hne & Hv & Hsub & Hsc & Hdid).
  apply verifyToken_returns in Hv. destruct Hv as [Hjwt [->|(sc & Hin & Hp)]];
    [congruence|].
  exists token, payload, sc.
  repeat split; try assumption.
  - rewrite Hart. now apply getToken_bearer.
  - congruence.
Qed.

(** X20.  A token verifier throws one of four errors.  It is the bare
    AuthRequiredError exactly when the request has no Authorization
    header, one that does not start with the Bearer prefix, or the bare
    prefix; otherwise it is ExpiredToken or InvalidToken, with the
    message that the token could not be verified or that it is
    malformed. *)
Theorem token_verifier_failures `{JsonWebToken}
    (opts : ServerAuthOpts) (now : Z) (req : Request)
    (verifier : Z -> Request -> outcome AccessOutput) :
  In verifier [accessVerifier opts; accessVerifierNotAppPassword opts;
               refreshVerifier opts] ->
  (verifier now req = Throws (AuthRequiredError None None) <->
   match authorization req with
   | None => True
   | Some a => startsWith a BEARER = false \/ a = BEARER
   end)
  /\ (forall e, verifier now req = Throws e ->
        e = AuthRequiredError None None \/ e = ExpiredToken
        \/ e = InvalidToken "Token could not be verified"
        \/ e = InvalidToken "Malformed token").
Proof.
  intros Hin.
  assert (Hw : exists scopes, verifier = withScopes opts scopes).
  { destruct Hin as [<-|[<-|[<-|[]]]]; eexists; reflexivity. }
  destruct Hw as [scopes ->]. split.
  - rewrite withScopes_throws, <- (getCredentials_null opts now req scopes).
    split.
    + intros [E|[_ E]]; [|exact E].
      apply getCredentials_throws in E.
      destruct E as [E|[E|E]]; discriminate.
    + intros E. right. now split.
  - intros e E. apply withScopes_throws in E.
    destruct E as [E|[-> _]]; [|now left].
    apply getCredentials_throws in E. tauto.
Qed.

(** X21.  The gate on taken-down accounts is the access verifier
    followed by the account check.  It returns exactly what the access
    verifier returns, when the account of the identity exists and is not
    soft deleted; it throws AccountTakedown exactly when the access
    verifier returns and the account is missing or soft deleted; and a
    failure of the credentials comes first, as the same error. *)
Theorem accessVerifierCheckTakedown_gate `{JsonWebToken} `{AccountService}
    (opts : ServerAuthOpts) (now : Z) (req : Request) :
  (forall out,
      accessVerifierCheckTakedown opts now req = inl (Returns out) <->
      accessVerifier opts now req = Returns out
      /\ exists actor,
           getAccount (cred_did (credentials out)) true = inl (Some actor)
           /\ softDeleted actor = false)
  /\ (accessVerifierCheckTakedown opts now req = inl (Throws AccountTakedown)
      <-> exists out,
            accessVerifier opts now req = Returns out
            /\ (getAccount (cred_did (credentials out)) true = inl None
                \/ exists actor,
                     getAccount (cred_did (credentials out)) true
                     = inl (Some actor)
                     /\ softDeleted actor = true))
  /\ (forall e, accessVerifier opts now req = Throws e ->
                accessVerifierCheckTakedown opts now req = inl (Throws e)).
Proof.
  pose proof (withScopes_throws opts [Access; AppPass] now req) as Hthrows.
  pose proof (getCredentials_throws opts now req [Access; AppPass])
    as Hkinds.
  unfold accessVerifierCheckTakedown, accessVerifier in *.
  unfold withScopes in *.
  destruct (getCredentialsOrThrow opts now req [Access; AppPass])
    as [creds|e0] eqn:Hc.
  - split; [|split; [|discriminate]].
    + intros out.
      destruct (getAccount (cred_did creds) true) as [[actor|]|dbError]
        eqn:Hacc.
      * destruct (softDeleted actor) eqn:Hsoft.
        -- split; [discriminate|].
           intros [[= <-] (actor' & Hacc' & Hsoft')]. cbn in Hacc'.
           congruence.
        -- split.
           ++ intros [= <-]. split; [reflexivity|]. now exists actor.
           ++ intros [[= <-] _]. reflexivity.
      * split; [discriminate|].
        intros [[= <-] (actor' & Hacc' & _)]. cbn in Hacc'. congruence.
      * split; [discriminate|].
        intros [[= <-] (actor' & Hacc' & _)]. cbn in Hacc'. congruence.
    + destruct (getAccount (cred_did creds) true) as [[actor|]|dbError]
        eqn:Hacc.
      * destruct (softDeleted actor) eqn:Hsoft.
        -- split; [|reflexivity]. intros _.
           eexists. split; [reflexivity|]. right. now exists actor.
        -- split; [discriminate|].
           intros (out & [= <-] & [Hno|(actor' & Hacc' & Hsoft')]);
             cbn in *; congruence.
      * split; [|reflexivity]. intros _.
        eexists. split; [reflexivity|]. now left.
      * split; [discriminate|].
        intros (out & [= <-] & [Hno|(actor' & Hacc' & Hsoft')]);
          cbn in *; congruence.
  - split; [|split].
    + intros out. split; [discriminate|]. intros [E _]. discriminate.
    + split; [|intros (out & E & _); discriminate].
      intros [= ->]. exfalso.
      destruct (proj1 (Hthrows AccountTakedown) eq_refl) as [E|[E _]];
        [|discriminate].
      apply Hkinds in E. destruct E as [E|[E|E]]; discriminate.
    + now intros e [= <-].
Qed.

(** X22.  [adminVerifier] returns, and then the flag it returns is true,
    exactly when the header is of the Basic scheme, its base64 decodes,
    and the first two colon-separated segments of the decoded text are
    admin and the configured password, which is not empty; in every
    other case it throws the bare AuthRequiredError. *)
Theorem adminVerifier_returns_iff `{Uint8Arrays}
    (opts : ServerAuthOpts) (req : Request) :
  (forall out,
      adminVerifier opts req = Returns out <->
      out = {| adminCredentials := {| admin := true |} |}
      /\ exists b64 decoded,
           authorization req = Some (BASIC ++ b64)
           /\ fromString_base64pad b64 = Some decoded
           /\ at_ (split 58 (toString_utf8 decoded)) 0 = Some (js "admin")
           /\ at_ (split 58 (toString_utf8 decoded)) 1
              = Some (adminPass opts)
           /\ adminPass opts <> [])
  /\ (forall e, adminVerifier opts req = Throws e ->
                e = AuthRequiredError None None).
Proof.
  unfold adminVerifier. cbv zeta.
  destruct (verifyAdmin opts req) eqn:E; cbn [negb].
  - split; [|discriminate]. intros out.
    apply verifyAdmin_true, parseBasicAuth_some in E.
    destruct E as (b64 & decoded & Htoken & Hd & H0 & H1 & _ & Hp).
    split.
    + intros [= <-]. split; [reflexivity|]. exists b64, decoded.
      destruct (authorization req) as [a|];
        [|destruct b64; discriminate].
      repeat split; try assumption. now f_equal.
    + now intros [-> _].
  - split; [|now intros e [= <-]].
    intros out. split; [discriminate|].
    intros [_ (b64 & decoded & Hreq & Hd & H0 & H1 & Hp)].
    assert (T : verifyAdmin opts req = true); [|congruence].
    apply verifyAdmin_true, parseBasicAuth_some.
    exists b64, decoded. rewrite Hreq.
    repeat split; try assumption. discriminate.
Qed.

(** *** Runs on the reference instances *)

Import Ref Ref2.

Lemma verifiers_scope_separation_witness :
  let req := bearer (snd (accessOf alice AppPass)) in
  let now := 1700003600000%Z in
  @accessVerifier echoJwt theOpts now req
  = Returns {| credentials :=
                 {| cred_did := alice;
                    cred_scope := Some (JStr (scopeValue AppPass)) |};
               artifacts := Some (snd (accessOf alice AppPass)) |}
  /\ @accessVerifierNotAppPassword echoJwt theOpts now req
     = Throws (InvalidToken "Token could not be verified")
  /\ @refreshVerifier echoJwt theOpts now req
     = Throws (InvalidToken "Token could not be verified").
Proof.
  intros req now.
  apply (@verifiers_scope_separation echoJwt theOpts alice AppPass 1700007200
           (accessOf alice AppPass) now req).
  - left. exists 7200%Z, issuedAt. split; reflexivity.
  - vm_compute. reflexivity.
  - vm_compute. reflexivity.
  - vm_compute. reflexivity.
  - vm_compute. discriminate.
  - vm_compute. reflexivity.
Defined.

Lemma token_verifier_sound_witness :
  exists token payload sc,
    authorization (bearer (snd (refreshOf alice))) = Some (BEARER ++ token)
    /\ token <> []
    /\ Some (snd (refreshOf alice)) = Some token
    /\ @jwt_verify echoJwt token theSecret 1700003600000
       = inl payload
    /\ property payload (js "sub") = Some (JStr alice)
    /\ startsWith alice (js "did:") = true
    /\ In sc [Refresh]
    /\ Some (JStr (scopeValue Refresh)) = Some (JStr (scopeValue sc)).
Proof.
  apply (@token_verifier_sound echoJwt theOpts 1700003600000
           (bearer (snd (refreshOf alice)))
           {| credentials :=
                {| cred_did := alice;
                   cred_scope := Some (JStr (scopeValue Refresh)) |};
              artifacts := Some (snd (refreshOf alice)) |}
           [Refresh]).
  right. right. split; [reflexivity|]. vm_compute. reflexivity.
Defined.

Lemma token_verifier_failures_witness :
  @accessVerifier echoJwt theOpts 1700003600000 {| authorization := None |}
  = Throws (AuthRequiredError None None).
Proof.
  destruct (@token_verifier_failures echoJwt theOpts 1700003600000
              {| authorization := None |} (@accessVerifier echoJwt theOpts))
    as [Hiff _].
  - now left.
  - apply Hiff. exact I.
Defined.

End PdsVerifiersFacts.

(** ** The collection of a record and its key *)

Module PrepareFacts.
Import Js JsFacts Json Prepare.

Lemma hasKey_false_get key (r : record) :
  hasKey key r = false -> get key r = None.
Proof.
  unfold hasKey. induction r as [|[k v] r IH]; [reflexivity|].
  cbn [existsb get fst]. intros E. apply orb_false_iff in E as [Ek Er].
  now rewrite (IH Er), Ek.
Qed.











(** The second segment is missing exactly when there is no separator. *)
Lemma split_second sep (s : jsstring) :
  at_ (split sep s) 1 = None <-> contains sep s = false.
Proof.
  unfold at_, contains. induction s as [|c s IH]; [now split|].
  cbn [split existsb]. rewrite (N.eqb_sym sep c).
  destruct (c =? sep).
  - pose proof (split_not_nil sep s) as Hne.
    destruct (split sep s) as [|h t]; [congruence|].
    cbn. split; discriminate.
  - cbn [orb]. pose proof (split_not_nil sep s) as Hne.
    destruct (split sep s) as [|h t]; [congruence|].
    exact IH.
Qed.

Lemma split_prefix sep (p s : jsstring) :
  contains sep p = false ->
  split sep (p ++ s)
  = match split sep s with
    | [] => []
    | h :: t => (p ++ h) :: t
    end.
Proof.
  unfold contains. induction p as [|c p IH]; intros Hp.
  - cbn [app]. now destruct (split sep s).
  - cbn [existsb] in Hp. apply orb_false_iff in Hp as [Hc Hp].
    cbn [app split]. rewrite N.eqb_sym, Hc, (IH Hp).
    pose proof (split_not_nil sep s) as Hne.
    now destruct (split sep s); [congruence|].
Qed.



(** X25.  For a collection whose lexicon is a record keyed by a literal,
    the record key is the literal, whatever the next TID would be: the
    text after the first colon of the key type, up to the second colon
    if there is one. *)
Theorem determineRkey_literal `{Lexicons}
    (collection nextTid : jsstring) (doc : LexDef) (rest : jsstring) :
  getDef collection = Some doc ->
  def_type doc = js "record" ->
  def_key doc = Some (js "literal" ++ rest) ->
  determineRkey collection nextTid = at_ (split 58 rest) 1
  /\ (forall name, rest = 58 :: name -> contains 58 name = false ->
        determineRkey collection nextTid = Some name)
  /\ (forall name more, rest = 58 :: name ++ 58 :: more ->
        contains 58 name = false ->
        determineRkey collection nextTid = Some name).
Proof.
  intros Hdef Htype Hkey.
  assert (E : determineRkey collection nextTid = at_ (split 58 rest) 1).
  { unfold determineRkey. rewrite Hdef, Htype, eqb_refl, Hkey.
    rewrite startsWith_app. cbn [app falsy negb andb].
    change (js "l" ++ js "iteral" ++ rest) with (js "literal" ++ rest).
    rewrite split_prefix by reflexivity.
    pose proof (split_not_nil 58 rest) as Hne.
    now destruct (split 58 rest) as [|h t]; [congruence|]. }
  split; [exact E|]. rewrite E. split.
  - intros name -> Hname.
    change (58 :: name) with ([] ++ 58 :: name).
    rewrite split_app_sep by reflexivity.
    now rewrite (split_no_sep _ _ Hname).
  - intros name more -> Hname.
    change (58 :: name ++ 58 :: more) with ([] ++ 58 :: name ++ 58 :: more).
    rewrite split_app_sep by reflexivity.
    now rewrite (split_app_sep _ _ _ Hname).
Qed.

(** X26.  [determineRkey] returns the next TID, or a text without a
    colon, or nothing at all.  It returns nothing exactly when the
    lexicon of the collection is a record whose key type starts with
    literal and holds no colon; and it returns the next TID whenever the
    collection has no lexicon, the lexicon is not a record, or the key
    type does not start with literal. *)
Theorem determineRkey_cases `{Lexicons} (collection nextTid : jsstring) :
  (determineRkey collection nextTid = None <->
   exists doc k,
     getDef collection = Some doc /\ def_type doc = js "record"
     /\ def_key doc = Some k /\ startsWith k (js "literal") = true
     /\ contains 58 k = false)
  /\ (forall rkey, determineRkey collection nextTid = Some rkey ->
        rkey = nextTid \/ contains 58 rkey = false)
  /\ ((forall doc k, getDef collection = Some doc ->
         def_type doc = js "record" -> def_key doc = Some k ->
         startsWith k (js "literal") = false) ->
      determineRkey collection nextTid = Some nextTid).
Proof.
  unfold determineRkey.
  destruct (getDef collection) as [doc|];
    [|split; [split; [discriminate|intros (d & k & E & _); discriminate]|];
      split; [intros rkey [= <-]; now left|reflexivity]].
  destruct (eqb (def_type doc) (js "record")) eqn:Htype.
  - apply eqb_eq in Htype.
    destruct (def_key doc) as [k|] eqn:Hkey.
    + destruct (startsWith k (js "literal")) eqn:Hs.
      * assert (Hk : falsy k = false) by (destruct k; [discriminate|reflexivity]).
        rewrite Hk. cbn [negb andb]. split; [|split].
        -- rewrite split_second. split.
           ++ intros Hc. exists doc, k. now repeat split.
           ++ intros (d & k' & [= <-] & _ & Hk' & _ & Hc). congruence.
        -- intros rkey E. right. exact (at_segment _ _ _ _ E).
        -- intros Hall. specialize (Hall doc k eq_refl Htype Hkey).
           congruence.
      * rewrite andb_false_r. split; [|split].
        -- split; [discriminate|].
           intros (d & k' & [= <-] & _ & Hk' & Hs' & _). congruence.
        -- intros rkey [= <-]. now left.
        -- reflexivity.
    + split; [|split].
      * split; [discriminate|].
        intros (d & k' & [= <-] & _ & Hk' & _). congruence.
      * intros rkey [= <-]. now left.
      * reflexivity.
  - apply eqb_neq in Htype. split; [|split].
    + split; [discriminate|].
      intros (d & k' & [= <-] & Ht & _). congruence.
    + intros rkey [= <-]. now left.
    + reflexivity.
Qed.

(** *** Runs on the reference instances *)

Import Ref Ref2.


Lemma determineRkey_literal_witness :
  determineRkey (js "app.bsky.actor.profile") (js "3jzfcijpj2z2a")
  = Some (js "self").
Proof.
  destruct (determineRkey_literal (js "app.bsky.actor.profile")
              (js "3jzfcijpj2z2a")
              {| def_type := js "record";
                 def_key := Some (js "literal:self") |}
              (js ":self")) as (_ & Hname & _).
  - vm_compute. reflexivity.
  - reflexivity.
  - reflexivity.
  - apply (Hname (js "self")); reflexivity.
Defined.

End PrepareFacts.
